(** * javaspectre-edge: the excavation-and-scoring core

    A shallow embedding of the four core components of the repository and of
    the command that runs them

    - [Excavator]       (core/VirtualObjectExcavator.js)
    - [MultiPass]       (inference/MultiPassEngine.js)
    - [ScoreEngine]     (core/VirtualObjectScoreEngine.js)
    - [SessionManager]  (core/ExcavationSessionManager.js, core/Persistence.js)
    - [Inspect]         (cli/inspect.js)

    together with the properties the specification states about them, and
    further properties read off the code.

    Conventions of the embedding.
    - JavaScript values that the code walks are [JValue]s; an object is the
      list of its own enumerable entries in [Object.entries] order.
    - Numeric options ([maxDepth], [maxArraySample], ...) are integers ([Z]);
      [Array.prototype.slice] keeps its meaning for a negative end.
    - Mutable arrays and the module-level id counter are threaded as explicit
      state; calls to [logger] have no effect on that state and are left out.
    - [Date.now()] and [new Date().toISOString()] are readings of a clock that
      the caller of the model supplies.
    - String lengths are counted in characters of the Rocq string, which is the
      JavaScript length for ASCII text. *)

From Stdlib Require Import ZArith QArith Qminmax String Ascii List Lia Sorted.
From stdpp Require Import base gmap strings list pretty.

Local Open Scope string_scope.
Local Open Scope list_scope.
Local Open Scope Z_scope.

(** ** JavaScript values *)

#[local] Set Warnings "-register-all".

Inductive JValue : Type :=
| JUndefined
| JNull
| JBool (b : bool)
| JNum (q : Q)
| JStr (s : string)
| JArr (elems : list JValue)
| JObj (entries : list (string * JValue)).

(** ** Plain-object helpers: [o[k]] and [o[k] = x] on insertion-ordered maps *)

Fixpoint obj_get {A} (k : string) (o : list (string * A)) : option A :=
  match o with
  | [] => None
  | (k', x) :: o' => if String.eqb k k' then Some x else obj_get k o'
  end.

Fixpoint obj_set {A} (k : string) (x : A) (o : list (string * A))
  : list (string * A) :=
  match o with
  | [] => [(k, x)]
  | (k', x') :: o' =>
      if String.eqb k k' then (k, x) :: o' else (k', x') :: obj_set k x o'
  end.

(** [arr.slice(0, end)] for an integer [end]: a negative end counts from the
    back of the array. *)
Definition slice0 {A} (end_ : Z) (arr : list A) : list A :=
  let len := Z.of_nat (length arr) in
  let k := if end_ <? 0 then Z.max (len + end_) 0 else Z.min end_ len in
  firstn (Z.to_nat k) arr.

(** ** Number.prototype.toString(36) on the positive integers of the id counter *)

Definition digit36 (d : nat) : ascii :=
  nth d (list_ascii_of_string "0123456789abcdefghijklmnopqrstuvwxyz") "0"%char.

(** Digits of [n] in base 36, least significant first. *)
Fixpoint digits36 (fuel n : nat) : list nat :=
  match fuel with
  | O => []
  | S fuel' =>
      (n mod 36)%nat ::
        (if (n / 36 =? 0)%nat then [] else digits36 fuel' (n / 36)%nat)
  end.

Definition toString36 (n : nat) : string :=
  string_of_list_ascii (map digit36 (rev (digits36 (S n) n))).

(** The number a list of base-36 digits denotes, and the digit a character
    stands for: the inverse reading used to show the rendering injective. *)
Definition value36 (ds : list nat) : nat :=
  fold_right (λ d v, d + 36 * v)%nat 0%nat ds.

Definition digitValue36 (c : ascii) : nat :=
  default 0%nat
    (list_find (λ d, digit36 d = c) (seq 0 36) ≫= λ p, Some p.1).

(** ** The data model shared by the components *)

Record VirtualObject := {
  vo_id : string;
  vo_category : option string;
  vo_path : string;
  vo_type : option string;
  vo_fields : option (list (string * string));
  vo_elementTypes : option (list (string * nat));
  vo_valuePreview : option JValue;
  vo_signature : option string;
  vo_selector : option string;
  vo_ctor : option string
}.

Record Relationship := {
  rel_from : string;
  rel_to : string;
  rel_kind : string;
  rel_name : option string;
  rel_index : option nat
}.

Record ExcavationResult := {
  virtualObjects : list VirtualObject;
  relationships : list Relationship;
  domSheets : option (list JValue)
}.

(** * Excavator *)

Module Excavator.

(** One entry of the call log: the arguments of a call of [_walkValue]. *)
Record Call := {
  call_value : JValue;
  call_id : string;
  call_path : string;
  call_depth : Z
}.

(** The state the walk mutates: the module-level counter [nextId], the two
    arrays [vList] and [relList] it pushes to, and a log of the calls of
    [_walkValue] in the order they are entered.  The log is only written,
    never read: it records which nodes the walk reaches. *)
Record WalkState := {
  nextId : nat;
  vList : list VirtualObject;
  relList : list Relationship;
  calls : list Call
}.

Definition initState (n : nat) : WalkState :=
  {| nextId := n; vList := []; relList := []; calls := [] |}.

Definition pushVO (vo : VirtualObject) (st : WalkState) : WalkState :=
  {| nextId := nextId st; vList := vList st ++ [vo];
     relList := relList st; calls := calls st |}.

Definition pushRel (r : Relationship) (st : WalkState) : WalkState :=
  {| nextId := nextId st; vList := vList st;
     relList := relList st ++ [r]; calls := calls st |}.

Definition logCall (c : Call) (st : WalkState) : WalkState :=
  {| nextId := nextId st; vList := vList st;
     relList := relList st; calls := calls st ++ [c] |}.

Definition genId (prefix : string) (st : WalkState) : string * WalkState :=
  let n := S (nextId st) in
  (prefix +:+ "_" +:+ toString36 n,
   {| nextId := n; vList := vList st; relList := relList st;
      calls := calls st |}).

Definition _typeOf (v : JValue) : string :=
  match v with
  | JNull => "null"
  | JArr _ => "array"
  | JUndefined => "undefined"
  | JBool _ => "boolean"
  | JNum _ => "number"
  | JStr _ => "string"
  | JObj _ => "object"
  end.

Definition _preview (v : JValue) : JValue :=
  match v with
  | JNull | JNum _ | JBool _ => v
  | JStr s =>
      if (String.length s <=? 64)%nat then v
      else JStr (String.substring 0 61 s +:+ "...")
  | _ => JNull
  end.

Definition structObjectVO (id path : string) (fields : list (string * string))
  : VirtualObject :=
  {| vo_id := id; vo_category := Some "struct"; vo_path := path;
     vo_type := Some "object"; vo_fields := Some fields;
     vo_elementTypes := None; vo_valuePreview := None;
     vo_signature := None; vo_selector := None; vo_ctor := None |}.

Definition structArrayVO (id path : string) (elementTypes : list (string * nat))
  : VirtualObject :=
  {| vo_id := id; vo_category := Some "struct"; vo_path := path;
     vo_type := Some "array"; vo_fields := None;
     vo_elementTypes := Some elementTypes; vo_valuePreview := None;
     vo_signature := None; vo_selector := None; vo_ctor := None |}.

Definition valueVO (id path t : string) (preview : JValue) : VirtualObject :=
  {| vo_id := id; vo_category := Some "value"; vo_path := path;
     vo_type := Some t; vo_fields := None;
     vo_elementTypes := None; vo_valuePreview := Some preview;
     vo_signature := None; vo_selector := None; vo_ctor := None |}.

Definition fieldRel (from to name : string) : Relationship :=
  {| rel_from := from; rel_to := to; rel_kind := "field";
     rel_name := Some name; rel_index := None |}.

Definition elementRel (from to : string) (idx : nat) : Relationship :=
  {| rel_from := from; rel_to := to; rel_kind := "element";
     rel_name := None; rel_index := Some idx |}.

(** [fields[k] = this._typeOf(v)] over the entries.  On a plain object the
    assignment of a string to [__proto__] goes to the prototype setter, which
    ignores it. *)
Definition fieldTypes (entries : list (string * JValue))
  : list (string * string) :=
  fold_left
    (λ fields kv,
       if String.eqb kv.1 "__proto__" then fields
       else obj_set kv.1 (_typeOf kv.2) fields)
    entries [].

(** [elementTypes[et] = (elementTypes[et] || 0) + 1] over the sample. *)
Definition histogram (sampled : list JValue) : list (string * nat) :=
  fold_left
    (λ elementTypes el,
       let et := _typeOf el in
       obj_set et (default 0%nat (obj_get et elementTypes) + 1)%nat
         elementTypes)
    sampled [].

Section Walk.

(** The two fields of the excavator that the walk reads; the constructor sets
    them to the numbers of its options, or to 6 and 8. *)
Variable maxDepth : Z.
Variable maxArraySample : Z.

Definition Walker := JValue → string → string → Z → WalkState → WalkState.

(** The loop [for (const [k, v] of Object.entries(value))] of the object
    branch, over the walker it calls on each child. *)
Definition walkFields (walk : Walker) (id path : string) (depth : Z)
  : list (string * JValue) → WalkState → WalkState :=
  fix each (entries : list (string * JValue)) (st : WalkState) : WalkState :=
    match entries with
    | [] => st
    | kv :: rest =>
        let (k, v) := kv in
        let (childId, st1) := genId "vo" st in
        let st2 := pushRel (fieldRel id childId k) st1 in
        each rest (walk v childId (path +:+ "." +:+ k) (depth + 1) st2)
    end.

(** The loop [sampled.forEach((el, idx) => ...)] of the array branch.  It runs
    over the array itself and stops at index [n], the length of the sample;
    [walkElements_sampled] below shows that this is the iteration over
    [sampled] with its indices. *)
Definition walkElements (walk : Walker) (id path : string) (depth : Z)
  (n : nat) : list JValue → nat → WalkState → WalkState :=
  fix each (elems : list JValue) (idx : nat) (st : WalkState) : WalkState :=
    match elems with
    | [] => st
    | el :: rest =>
        if (idx <? n)%nat then
          let (childId, st1) := genId "vo" st in
          let st2 := pushRel (elementRel id childId idx) st1 in
          each rest (S idx)
            (walk el childId (path +:+ "[" +:+ pretty idx +:+ "]")
               (depth + 1) st2)
        else st
    end.

Fixpoint _walkValue (value : JValue) (id path : string) (depth : Z)
  (st : WalkState) : WalkState :=
  let st := logCall {| call_value := value; call_id := id;
                       call_path := path; call_depth := depth |} st in
  if maxDepth <? depth then st
  else
    match value with
    | JObj entries =>
        let st := pushVO (structObjectVO id path (fieldTypes entries)) st in
        walkFields _walkValue id path depth entries st
    | JArr elems =>
        let sampled := slice0 maxArraySample elems in
        let st := pushVO (structArrayVO id path (histogram sampled)) st in
        walkElements _walkValue id path depth (length sampled) elems 0%nat st
    | _ =>
        pushVO (valueVO id path (_typeOf value) (_preview value)) st
    end.

(** [Object.prototype.hasOwnProperty.call(input, "value")] holds only of an
    object with an own entry of that name; for every other value (falsy ones
    included) the conditional selects [input] itself. *)
Definition excavate (input : JValue) (nextId0 : nat)
  : ExcavationResult * WalkState :=
  let root :=
    match input with
    | JObj entries =>
        match obj_get "value" entries with
        | Some v => v
        | None => input
        end
    | _ => input
    end in
  let (rootId, st) := genId "vo" (initState nextId0) in
  let st := _walkValue root rootId "#" 0 st in
  ({| virtualObjects := vList st; relationships := relList st;
      domSheets := Some [] |}, st).

(** *** Vocabulary for the properties of the walk *)

(** The id that [genId("vo")] returns when the counter reaches [n]. *)
Definition idOf (n : nat) : string := "vo" +:+ "_" +:+ toString36 n.

(** A child visit of either loop: the relationship pushed for it (given the
    child's fresh id), and the path and value passed to the recursive call. *)
Record Kid := {
  kid_rel : string → Relationship;
  kid_path : string;
  kid_value : JValue
}.

Definition walkKids (walk : Walker) (depth : Z)
  : list Kid → WalkState → WalkState :=
  fix each (kids : list Kid) (st : WalkState) : WalkState :=
    match kids with
    | [] => st
    | k :: rest =>
        let (childId, st1) := genId "vo" st in
        let st2 := pushRel (kid_rel k childId) st1 in
        each rest (walk (kid_value k) childId (kid_path k) (depth + 1) st2)
    end.

Definition fieldKids (id path : string) (entries : list (string * JValue))
  : list Kid :=
  map (λ kv, {| kid_rel := λ childId, fieldRel id childId kv.1;
                kid_path := path +:+ "." +:+ kv.1;
                kid_value := kv.2 |}) entries.

Definition elementKids (id path : string) (idx0 : nat)
  (sampled : list JValue) : list Kid :=
  imap (λ i el, {| kid_rel := λ childId, elementRel id childId (idx0 + i);
                   kid_path := path +:+ "[" +:+ pretty (idx0 + i)%nat +:+ "]";
                   kid_value := el |}) sampled.

(** [depth <= maxDepth] for a logged call. *)
Definition within (c : Call) : bool := negb (maxDepth <? call_depth c).

(** The virtual object a call pushes when it passes the depth test. *)
Definition emittedVO (c : Call) : VirtualObject :=
  match call_value c with
  | JObj entries =>
      structObjectVO (call_id c) (call_path c) (fieldTypes entries)
  | JArr elems =>
      structArrayVO (call_id c) (call_path c)
        (histogram (slice0 maxArraySample elems))
  | v => valueVO (call_id c) (call_path c) (_typeOf v) (_preview v)
  end.

(** The children a call visits. *)
Definition kidsOf (c : Call) : list Kid :=
  if within c then
    match call_value c with
    | JObj entries => fieldKids (call_id c) (call_path c) entries
    | JArr elems =>
        elementKids (call_id c) (call_path c) 0
          (slice0 maxArraySample elems)
    | _ => []
    end
  else [].

(** The relationships of [R] that start at the node of call [c] are the ones
    of its child visits, in order. *)
Definition outgoing (R : list Relationship) (c : Call) : Prop :=
  ∃ childIds : list string,
    length childIds = length (kidsOf c) ∧
    filter (λ r, rel_from r = call_id c) R
    = zip_with kid_rel (kidsOf c) childIds.

(** What one call of [_walkValue] entered with id [idOf a] has appended when it
    returns with the counter at [b]. *)
Record Block (a b : nat) (C : list Call) (V : list VirtualObject)
  (R : list Relationship) : Prop := {
  blk_le : (a ≤ b)%nat;
  blk_ids : call_id <$> C = idOf <$> seq a (S b - a);
  blk_vos : V = emittedVO <$> filter (λ c, within c = true) C;
  blk_tos : rel_to <$> R = idOf <$> seq (S a) (b - a);
  blk_froms : Forall (λ r, ∃ m, (a ≤ m ≤ b)%nat ∧ rel_from r = idOf m) R;
  blk_out : Forall (outgoing R) C
}.

(** The same for a loop over [kids] run by the call with id [idOf m0], entered
    with the counter at [n] and left with it at [n']. *)
Record LoopBlock (m0 n n' : nat) (kids : list Kid) (C : list Call)
  (V : list VirtualObject) (R : list Relationship) : Prop := {
  lb_le : (n ≤ n')%nat;
  lb_ids : call_id <$> C = idOf <$> seq (S n) (n' - n);
  lb_vos : V = emittedVO <$> filter (λ c, within c = true) C;
  lb_tos : rel_to <$> R = idOf <$> seq (S n) (n' - n);
  lb_froms :
    Forall (λ r, rel_from r = idOf m0 ∨
                 ∃ m, (n < m ≤ n')%nat ∧ rel_from r = idOf m) R;
  lb_own :
    ∃ childIds : list string,
      length childIds = length kids ∧
      filter (λ r, rel_from r = idOf m0) R = zip_with kid_rel kids childIds;
  lb_out : Forall (outgoing R) C
}.

(** [st] with the counter at [n'] and [V], [R] and [C] appended to its three
    arrays. *)
Definition appended (st : WalkState) (n' : nat) (V : list VirtualObject)
  (R : list Relationship) (C : list Call) : WalkState :=
  {| nextId := n'; vList := vList st ++ V; relList := relList st ++ R;
     calls := calls st ++ C |}.

Definition mkCall (value : JValue) (id path : string) (depth : Z) : Call :=
  {| call_value := value; call_id := id; call_path := path;
     call_depth := depth |}.

(** A walker behaves on [v]: entered with the id just generated, it appends a
    block whose first call is its own, and what it appends does not depend on
    what the arrays already hold. *)
Definition WalkOK (walk : Walker) (v : JValue) : Prop :=
  ∀ path depth n,
    ∃ n' V R C,
      (∀ st, nextId st = n →
         walk v (idOf n) path depth st
         = appended st n' V R (mkCall v (idOf n) path depth :: C)) ∧
      Block n n' (mkCall v (idOf n) path depth :: C) V R.

(** *** Results as templates over the id counter *)

(** A virtual object with another id, a relationship with other ends. *)
Definition setId (id : string) (vo : VirtualObject) : VirtualObject :=
  {| vo_id := id; vo_category := vo_category vo; vo_path := vo_path vo;
     vo_type := vo_type vo; vo_fields := vo_fields vo;
     vo_elementTypes := vo_elementTypes vo;
     vo_valuePreview := vo_valuePreview vo;
     vo_signature := vo_signature vo; vo_selector := vo_selector vo;
     vo_ctor := vo_ctor vo |}.

Definition setEnds (from to : string) (r : Relationship) : Relationship :=
  {| rel_from := from; rel_to := to; rel_kind := rel_kind r;
     rel_name := rel_name r; rel_index := rel_index r |}.

(** A template entry names its ids by their offset from a base value of the
    counter. *)
Definition instVO (base : nat) (t : nat * VirtualObject) : VirtualObject :=
  setId (idOf (base + t.1)) t.2.

Definition instRel (base : nat) (t : nat * nat * Relationship)
  : Relationship :=
  setEnds (idOf (base + t.1.1)) (idOf (base + t.1.2)) t.2.

Definition shiftVO (d : nat) (t : nat * VirtualObject)
  : nat * VirtualObject := ((d + t.1)%nat, t.2).

Definition shiftRel (d : nat) (t : nat * nat * Relationship)
  : nat * nat * Relationship := ((d + t.1.1)%nat, (d + t.1.2)%nat, t.2).

(** The child visits of a node, with the ends of their relationships left
    blank. *)
Record KidT := {
  kt_rel : Relationship;
  kt_path : string;
  kt_value : JValue
}.

Definition instKid (parentId : string) (kt : KidT) : Kid :=
  {| kid_rel := λ childId, setEnds parentId childId (kt_rel kt);
     kid_path := kt_path kt;
     kid_value := kt_value kt |}.

Definition kidTsOf (value : JValue) (path : string) (depth : Z)
  : list KidT :=
  if maxDepth <? depth then []
  else
    match value with
    | JObj entries =>
        map (λ kv, {| kt_rel := fieldRel "" "" kv.1;
                      kt_path := path +:+ "." +:+ kv.1;
                      kt_value := kv.2 |}) entries
    | JArr elems =>
        imap (λ i el, {| kt_rel := elementRel "" "" i;
                         kt_path := path +:+ "[" +:+ pretty i +:+ "]";
                         kt_value := el |})
          (slice0 maxArraySample elems)
    | _ => []
    end.

(** A walker appends, for every value of the counter, the instance of one
    template; the template uses the offsets up to the number [k] of ids the
    walk generates, and its relationships lead to a larger offset. *)
Definition WalkT (walk : Walker) (v : JValue) : Prop :=
  ∀ path depth,
    ∃ (k : nat) (Vt : list (nat * VirtualObject))
      (Rt : list (nat * nat * Relationship)),
      Forall (λ t, (t.1 ≤ k)%nat) Vt ∧
      Forall (λ t, (t.1.1 < t.1.2 ≤ k)%nat) Rt ∧
      ∀ base st, nextId st = base →
        let st' := walk v (idOf base) path depth st in
        nextId st' = (base + k)%nat ∧
        vList st' = vList st ++ (instVO base <$> Vt) ∧
        relList st' = relList st ++ (instRel base <$> Rt).

End Walk.

End Excavator.

(** * Outcomes of calls that may throw *)

Inductive Outcome (A : Type) : Type :=
| Returned (a : A)
| Thrown (message : string).

Arguments Returned {A} a.
Arguments Thrown {A} message.

(** * SessionManager *)

Module SessionManager.

Record Metrics := {
  metrics_virtualObjects : nat;
  metrics_relationships : nat;
  metrics_domSheets : nat
}.

Record Snapshot := {
  snap_id : string;
  snap_label : string;
  snap_capturedAt : string;
  snap_metrics : Metrics;
  snap_result : ExcavationResult
}.

Record Summary := {
  totalVirtualObjects : nat;
  totalRelationships : nat;
  summary_domSheets : nat;
  driftEvents : nat
}.

Record Session := {
  session_id : string;
  session_createdAt : string;
  session_metadata : JValue;
  snapshots : list Snapshot;
  summary : Summary
}.

(** ** The persistence collaborator (core/Persistence.js)

    The two tables the manager reaches: [sessions], keyed by [session_id], and
    [snapshots], keyed by [snapshot_id] with a foreign key to [sessions].  A
    JSON column holds the value its text denotes. *)
Record Persistence := {
  sessionsTable : list (string * (string * JValue));
  snapshotsTable : list (string * Snapshot)
}.

(** [v || {}]: the falsy values are [undefined], [null], [false], [0] and the
    empty string. *)
Definition orEmptyObject (v : JValue) : JValue :=
  match v with
  | JUndefined | JNull | JBool false | JStr "" => JObj []
  | JNum q => if Qeq_bool q 0%Q then JObj [] else v
  | _ => v
  end.

(** [INSERT OR IGNORE INTO sessions] followed by [UPDATE sessions SET
    metadata_json], both with the payload whose [metadata_json] is
    [JSON.stringify(session.metadata || {})]. *)
Definition saveSession (session : Session) (db : Persistence) : Persistence :=
  let metadata_json := orEmptyObject (session_metadata session) in
  let inserted :=
    match obj_get (session_id session) (sessionsTable db) with
    | Some _ => sessionsTable db
    | None =>
        sessionsTable db ++
          [(session_id session, (session_createdAt session, metadata_json))]
    end in
  {| sessionsTable :=
       map (λ row,
              if String.eqb row.1 (session_id session)
              then (row.1, (row.2.1, metadata_json))
              else row) inserted;
     snapshotsTable := snapshotsTable db |}.

(** [INSERT INTO snapshots]: the statement fails on a [snapshot_id] already in
    the table (primary key) and on a [session_id] not in [sessions] (foreign
    key). *)
Definition saveSnapshot (sessionId : string) (snapshot : Snapshot)
  (db : Persistence) : Outcome Persistence :=
  if existsb (λ row, String.eqb (snap_id row.2) (snap_id snapshot))
       (snapshotsTable db)
  then Thrown "UNIQUE constraint failed: snapshots.snapshot_id"
  else
    match obj_get sessionId (sessionsTable db) with
    | None => Thrown "FOREIGN KEY constraint failed"
    | Some _ =>
        Returned {| sessionsTable := sessionsTable db;
                    snapshotsTable :=
                      snapshotsTable db ++ [(sessionId, snapshot)] |}
    end.

(** [ORDER BY captured_at_iso ASC], rows with equal keys kept in table
    order. *)
Fixpoint insertByCapturedAt (row : Snapshot) (sorted : list Snapshot)
  : list Snapshot :=
  match sorted with
  | [] => [row]
  | row' :: rest =>
      if String.ltb (snap_capturedAt row) (snap_capturedAt row')
      then row :: sorted
      else row' :: insertByCapturedAt row rest
  end.

Definition loadSessionSnapshots (sessionId : string) (db : Persistence)
  : list Snapshot :=
  fold_left (λ sorted row, insertByCapturedAt row sorted)
    (map snd
       (List.filter (λ row, String.eqb row.1 sessionId) (snapshotsTable db)))
    [].

(** [hydrateSessionSnapshots] pushes every stored row of the session. *)
Definition hydrateSessionSnapshots (session : Session) (db : Persistence)
  : Session :=
  {| session_id := session_id session;
     session_createdAt := session_createdAt session;
     session_metadata := session_metadata session;
     snapshots :=
       snapshots session ++ loadSessionSnapshots (session_id session) db;
     summary := summary session |}.

(** ** The manager *)

Record Manager := {
  maxDepth : Z;
  maxSnapshots : Z;
  sessions : gmap string Session;
  persistence : option Persistence
}.

Definition newManager (optMaxDepth optMaxSnapshots : option Z)
  (optPersistence : option Persistence) : Manager :=
  {| maxDepth := default 6 optMaxDepth;
     maxSnapshots := default 20 optMaxSnapshots;
     sessions := ∅;
     persistence := optPersistence |}.

Definition setSnapshots (snaps : list Snapshot) (session : Session)
  : Session :=
  {| session_id := session_id session;
     session_createdAt := session_createdAt session;
     session_metadata := session_metadata session;
     snapshots := snaps;
     summary := summary session |}.

Definition setSummary (sm : Summary) (session : Session) : Session :=
  {| session_id := session_id session;
     session_createdAt := session_createdAt session;
     session_metadata := session_metadata session;
     snapshots := snapshots session;
     summary := sm |}.

Definition _updateSummary (session : Session) : Session :=
  let totals :=
    fold_left
      (λ (acc : nat * nat * nat) snap,
         let '(totalVO, totalRel, sheets) := acc in
         ((totalVO + metrics_virtualObjects (snap_metrics snap))%nat,
          (totalRel + metrics_relationships (snap_metrics snap))%nat,
          (sheets + metrics_domSheets (snap_metrics snap))%nat))
      (snapshots session) (0%nat, 0%nat, 0%nat) in
  let '(totalVO, totalRel, sheets) := totals in
  setSummary
    {| totalVirtualObjects := totalVO;
       totalRelationships := totalRel;
       summary_domSheets := sheets;
       driftEvents := driftEvents (summary session) |}
    session.

Definition _detectDrift (session : Session) : Session :=
  let len := length (snapshots session) in
  if (len <? 2)%nat then session
  else
    match snapshots session !! (len - 1)%nat,
          snapshots session !! (len - 2)%nat with
    | Some latest, Some prev =>
        let voDelta :=
          Z.abs (Z.of_nat (metrics_virtualObjects (snap_metrics latest))
                 - Z.of_nat (metrics_virtualObjects (snap_metrics prev))) in
        let relDelta :=
          Z.abs (Z.of_nat (metrics_relationships (snap_metrics latest))
                 - Z.of_nat (metrics_relationships (snap_metrics prev))) in
        let driftScore := voDelta + relDelta in
        if 0 <? driftScore then
          setSummary
            {| totalVirtualObjects := totalVirtualObjects (summary session);
               totalRelationships := totalRelationships (summary session);
               summary_domSheets := summary_domSheets (summary session);
               driftEvents := (driftEvents (summary session) + 1)%nat |}
            session
        else session
    | _, _ => session
    end.

(** A parameter with a default value: the default replaces an omitted or
    [undefined] argument. *)
Definition withDefault (default_ argument : JValue) : JValue :=
  match argument with
  | JUndefined => default_
  | _ => argument
  end.

(** [startSession(sessionId, metadata = {})]; [now] is the reading of
    [new Date().toISOString()]. *)
Definition startSession (sessionId : string) (metadata : JValue)
  (now : string) (mgr : Manager) : Manager * Session :=
  match sessions mgr !! sessionId with
  | Some session => (mgr, session)
  | None =>
      let session :=
        {| session_id := sessionId;
           session_createdAt := now;
           session_metadata := withDefault (JObj []) metadata;
           snapshots := [];
           summary := {| totalVirtualObjects := 0; totalRelationships := 0;
                         summary_domSheets := 0; driftEvents := 0 |} |} in
      let (session, db) :=
        match persistence mgr with
        | Some db =>
            let db := saveSession session db in
            (_updateSummary (hydrateSessionSnapshots session db), Some db)
        | None => (session, None)
        end in
      ({| maxDepth := maxDepth mgr; maxSnapshots := maxSnapshots mgr;
          sessions := <[sessionId := session]> (sessions mgr);
          persistence := db |}, session)
  end.

(** The snapshot [addSnapshot] builds for a session. *)
Definition newSnapshot (sessionId : string) (session : Session)
  (excavationResult : ExcavationResult) (label now : string) : Snapshot :=
  {| snap_id := sessionId +:+ ":" +:+ pretty (length (snapshots session));
     snap_label := label;
     snap_capturedAt := now;
     snap_metrics :=
       {| metrics_virtualObjects := length (virtualObjects excavationResult);
          metrics_relationships := length (relationships excavationResult);
          metrics_domSheets :=
            match domSheets excavationResult with
            | Some sheets => length sheets
            | None => 0
            end |};
     snap_result := excavationResult |}.

(** [session.snapshots.push(snapshot)], then one [shift()] when the log is
    longer than [maxSnapshots]. *)
Definition pushSnapshot (maxSnapshots : Z) (snapshot : Snapshot)
  (session : Session) : Session :=
  let pushed := snapshots session ++ [snapshot] in
  setSnapshots
    (if maxSnapshots <? Z.of_nat (length pushed) then tail pushed else pushed)
    session.

(** [addSnapshot(sessionId, excavationResult, label = "default")]; [now] is the
    reading of [new Date().toISOString()].  The call throws on an unknown
    session before it changes anything, and lets a failure of
    [persistence.saveSnapshot] through after the session has been updated. *)
Definition addSnapshot (sessionId : string)
  (excavationResult : ExcavationResult) (label : option string)
  (now : string) (mgr : Manager) : Manager * Outcome Snapshot :=
  match sessions mgr !! sessionId with
  | None => (mgr, Thrown ("Unknown excavation session: " +:+ sessionId))
  | Some session =>
      let snapshot :=
        newSnapshot sessionId session excavationResult
          (default "default" label) now in
      let session :=
        _detectDrift
          (_updateSummary (pushSnapshot (maxSnapshots mgr) snapshot session)) in
      let updated := <[sessionId := session]> (sessions mgr) in
      match persistence mgr with
      | None =>
          ({| maxDepth := maxDepth mgr; maxSnapshots := maxSnapshots mgr;
              sessions := updated; persistence := None |},
           Returned snapshot)
      | Some db =>
          match saveSnapshot (session_id session) snapshot db with
          | Returned db' =>
              ({| maxDepth := maxDepth mgr; maxSnapshots := maxSnapshots mgr;
                  sessions := updated; persistence := Some db' |},
               Returned snapshot)
          | Thrown message =>
              ({| maxDepth := maxDepth mgr; maxSnapshots := maxSnapshots mgr;
                  sessions := updated; persistence := Some db |},
               Thrown message)
          end
      end
  end.

(** One argument list of [addSnapshot]. *)
Record AddCall := {
  add_result : ExcavationResult;
  add_label : option string;
  add_now : string
}.

(** A sequence of [addSnapshot] calls on one session, each made on the
    manager the previous one left. *)
Definition addSnapshots (sessionId : string) (adds : list AddCall)
  (mgr : Manager) : Manager :=
  fold_left
    (λ mgr a,
       (addSnapshot sessionId (add_result a) (add_label a) (add_now a) mgr).1)
    adds mgr.

(** [getSessionSummary(sessionId)]: the session without the results of its
    snapshots. *)
Record SnapshotInfo := {
  info_id : string;
  info_label : string;
  info_capturedAt : string;
  info_metrics : Metrics
}.

Record SessionSummary := {
  report_id : string;
  report_createdAt : string;
  report_metadata : JValue;
  report_summary : Summary;
  report_snapshots : list SnapshotInfo
}.

Definition getSessionSummary (sessionId : string) (mgr : Manager)
  : Outcome SessionSummary :=
  match sessions mgr !! sessionId with
  | None => Thrown ("Unknown excavation session: " +:+ sessionId)
  | Some session =>
      Returned
        {| report_id := session_id session;
           report_createdAt := session_createdAt session;
           report_metadata := session_metadata session;
           report_summary := summary session;
           report_snapshots :=
             map (λ snap,
                    {| info_id := snap_id snap;
                       info_label := snap_label snap;
                       info_capturedAt := snap_capturedAt snap;
                       info_metrics := snap_metrics snap |})
               (snapshots session) |}
  end.

(** *** Vocabulary for the properties of the ledger *)

(** A database with no row, and an excavation result with no entry. *)
Definition emptyDb : Persistence :=
  {| sessionsTable := []; snapshotsTable := [] |}.

Definition emptyResult : ExcavationResult :=
  {| virtualObjects := []; relationships := []; domSheets := Some [] |}.

(** Two results with the same counts and different contents. *)
Definition oneNumber : ExcavationResult :=
  {| virtualObjects := [Excavator.valueVO "vo_1" "#" "number" (JNum 1)];
     relationships := []; domSheets := Some [] |}.

Definition oneString : ExcavationResult :=
  {| virtualObjects := [Excavator.valueVO "vo_2" "#" "string" (JStr "x")];
     relationships := []; domSheets := Some [] |}.

Definition addAt (now : string) : AddCall :=
  {| add_result := emptyResult; add_label := None; add_now := now |}.

(** The last [k] elements of a list. *)
Definition lastn {A} (k : nat) (l : list A) : list A :=
  drop (length l - k) l.

(** What a snapshot was made from: its label, capture time and result. *)
Definition payload (snap : Snapshot) : string * string * ExcavationResult :=
  (snap_label snap, snap_capturedAt snap, snap_result snap).

Definition addPayload (a : AddCall) : string * string * ExcavationResult :=
  (default "default" (add_label a), add_now a, add_result a).

(** [driftScore] of [_detectDrift] for two snapshots. *)
Definition driftScore (latest prev : Snapshot) : Z :=
  Z.abs (Z.of_nat (metrics_virtualObjects (snap_metrics latest))
         - Z.of_nat (metrics_virtualObjects (snap_metrics prev)))
  + Z.abs (Z.of_nat (metrics_relationships (snap_metrics latest))
           - Z.of_nat (metrics_relationships (snap_metrics prev))).

(** The stored snapshots of a session, in the order of the table. *)
Definition storedSnapshots (sessionId : string) (db : Persistence)
  : list Snapshot :=
  map snd
    (List.filter (λ row, String.eqb row.1 sessionId) (snapshotsTable db)).

(** [a] is not captured after [b]: the text [captured_at_iso] of [b] is not
    less than that of [a]. *)
Definition notAfter (a b : Snapshot) : Prop :=
  String.ltb (snap_capturedAt b) (snap_capturedAt a) = false.

(** The calls a client makes that change the manager, and a sequence of them
    run on one manager. *)
Inductive Op : Type :=
| StartOp (sessionId : string) (metadata : JValue) (now : string)
| AddOp (sessionId : string) (excavationResult : ExcavationResult)
    (label : option string) (now : string).

Definition step (mgr : Manager) (op : Op) : Manager :=
  match op with
  | StartOp sessionId metadata now =>
      (startSession sessionId metadata now mgr).1
  | AddOp sessionId excavationResult label now =>
      (addSnapshot sessionId excavationResult label now mgr).1
  end.

Definition runOps (ops : list Op) (mgr : Manager) : Manager :=
  fold_left step ops mgr.

(** The additions to one session among the calls. *)
Definition isAddTo (sessionId : string) (op : Op) : bool :=
  match op with
  | AddOp sessionId' _ _ _ => String.eqb sessionId' sessionId
  | StartOp _ _ _ => false
  end.

Definition addsTo (sessionId : string) (ops : list Op) : list Op :=
  List.filter (isAddTo sessionId) ops.

(** The sums [_updateSummary] computes for a log. *)
Definition totalsOf (snaps : list Snapshot) : nat * nat * nat :=
  (sum_list (metrics_virtualObjects ∘ snap_metrics <$> snaps),
   sum_list (metrics_relationships ∘ snap_metrics <$> snaps),
   sum_list (metrics_domSheets ∘ snap_metrics <$> snaps)).

(** What holds of a session filed under [sessionId] after [events] additions
    to it; the log is capped at [k] when [bounded]. *)
Definition SessionInv (k : Z) (bounded : Prop) (events : nat)
  (sessionId : string) (session : Session) : Prop :=
  session_id session = sessionId ∧
  (totalVirtualObjects (summary session),
   totalRelationships (summary session),
   summary_domSheets (summary session)) = totalsOf (snapshots session) ∧
  (driftEvents (summary session) ≤ events)%nat ∧
  (bounded → Z.of_nat (length (snapshots session)) ≤ k).

End SessionManager.

(** * ScoreEngine *)

Module ScoreEngine.

(** ** JavaScript helpers *)

(** [a || b] on a possibly absent string: [undefined] and the empty string are
    falsy. *)
Definition orElse (a : option string) (b : string) : string :=
  match a with
  | Some "" | None => b
  | Some x => x
  end.

Definition quoteChar : ascii := ascii_of_nat 34.
Definition backslash : ascii := ascii_of_nat 92.

Definition hexDigit (d : nat) : ascii :=
  nth d (list_ascii_of_string "0123456789abcdef") "0"%char.

(** The escape of one character in [JSON.stringify] of a string. *)
Definition jsonEscape (c : ascii) : string :=
  let n := nat_of_ascii c in
  if (n =? 34)%nat then String backslash (String quoteChar "")
  else if (n =? 92)%nat then String backslash (String backslash "")
  else if (n =? 8)%nat then String backslash "b"
  else if (n =? 9)%nat then String backslash "t"
  else if (n =? 10)%nat then String backslash "n"
  else if (n =? 12)%nat then String backslash "f"
  else if (n =? 13)%nat then String backslash "r"
  else if (n <? 32)%nat then
    String backslash
      ("u00" +:+ String (hexDigit (n / 16)) (String (hexDigit (n mod 16)) ""))
  else String c "".

Fixpoint jsonQuoteBody (s : string) : string :=
  match s with
  | EmptyString => ""
  | String c rest => jsonEscape c +:+ jsonQuoteBody rest
  end.

Definition jsonQuote (s : string) : string :=
  String quoteChar (jsonQuoteBody s +:+ String quoteChar "").

(** [JSON.stringify] of a plain object whose values are strings. *)
Definition JSON_stringify (fields : list (string * string)) : string :=
  "{" +:+
  String.concat ","
    (map (λ kv, jsonQuote kv.1 +:+ ":" +:+ jsonQuote kv.2) fields)
  +:+ "}".

(** [toLowerCase] on ASCII letters. *)
Definition toLowerCaseChar (c : ascii) : ascii :=
  let n := nat_of_ascii c in
  if ((65 <=? n) && (n <=? 90))%nat then ascii_of_nat (n + 32) else c.

Fixpoint toLowerCase (s : string) : string :=
  match s with
  | EmptyString => ""
  | String c rest => String (toLowerCaseChar c) (toLowerCase rest)
  end.

Definition includes (s needle : string) : bool :=
  match String.index 0 needle s with
  | Some _ => true
  | None => false
  end.

(** ** The clock: the successive readings of [Date.now()] *)

Record Clock := {
  readings : nat → Z;
  reads : nat
}.

Definition Date_now (clock : Clock) : Z * Clock :=
  (readings clock (reads clock),
   {| readings := readings clock; reads := S (reads clock) |}).

(** ** The engine *)

Record Score := {
  score_id : string;
  score_category : string;
  stability : Q;
  novelty : Q;
  reuseHint : string
}.

Record Engine := {
  historyWindow : Z;
  objectHistory : gmap string (list Z)
}.

Definition newEngine (optHistoryWindow : option Z) : Engine :=
  {| historyWindow := default 10 optHistoryWindow; objectHistory := ∅ |}.

Definition _makeKey (vo : VirtualObject) : string :=
  let cat := orElse (vo_category vo) "unknown" in
  let sig :=
    match vo_signature vo with
    | Some signature => signature
    | None => JSON_stringify (default [] (vo_fields vo))
    end in
  cat +:+ ":" +:+ sig.

Definition _getHistory (key : string) (engine : Engine)
  : list Z * Engine :=
  match objectHistory engine !! key with
  | Some hist => (hist, engine)
  | None =>
      ([], {| historyWindow := historyWindow engine;
              objectHistory := <[key := []]> (objectHistory engine) |})
  end.

Definition _updateHistory (key : string) (st : Engine * Clock)
  : Engine * Clock :=
  let (engine, clock) := st in
  let (hist, engine) := _getHistory key engine in
  let (now, clock) := Date_now clock in
  let pushed := hist ++ [now] in
  let hist :=
    if historyWindow engine <? Z.of_nat (length pushed) then tail pushed
    else pushed in
  ({| historyWindow := historyWindow engine;
      objectHistory := <[key := hist]> (objectHistory engine) |}, clock).

(** [hist[i] - hist[i - 1]] for [i] from 1. *)
Fixpoint intervalsOf (hist : list Z) : list Z :=
  match hist with
  | previous :: (current :: _) as rest =>
      (current - previous) :: intervalsOf rest
  | _ => []
  end.

Definition _computeStability (hist : list Z) : Q :=
  if (length hist <? 2)%nat then (2 # 10)%Q
  else
    let intervals := intervalsOf hist in
    let avgInterval :=
      (inject_Z (fold_left Z.add intervals 0%Z)
       / inject_Z (Z.of_nat (length intervals)))%Q in
    Qmax 0 (Qmin 1 (avgInterval / inject_Z (24 * 60 * 60 * 1000))%Q).

Definition _computeNovelty (hist : list Z) (clock : Clock) : Q * Clock :=
  if (length hist =? 1)%nat then (1%Q, clock)
  else if (length hist =? 0)%nat then ((5 # 10)%Q, clock)
  else
    let lastSeen := default 0 (last hist) in
    let (now, clock) := Date_now clock in
    let ageMs := now - lastSeen in
    (Qmax 0 (Qmin 1 (inject_Z ageMs / inject_Z (7 * 24 * 60 * 60 * 1000))%Q),
     clock).

Definition _computeReuseHint (vo : VirtualObject) : string :=
  let name :=
    orElse (vo_selector vo) (orElse (vo_ctor vo)
                               (orElse (vo_category vo) "object")) in
  let lowered := toLowerCase name in
  if includes lowered "button" then "ui-action"
  else if bool_decide (vo_category vo = Some "dom-tag")
          || bool_decide (vo_category vo = Some "dom-motif")
  then "dom-structure"
  else if bool_decide (vo_category vo = Some "struct")
          || bool_decide (vo_category vo = Some "api-schema")
  then "api-schema"
  else "misc".

(** The body of the loop of [scoreSnapshot] for one virtual object. *)
Definition scoreOne (vo : VirtualObject) (st : Engine * Clock)
  : Score * (Engine * Clock) :=
  let (engine, clock) := st in
  let key := _makeKey vo in
  let (hist, engine) := _getHistory key engine in
  let stability := _computeStability hist in
  let (novelty, clock) := _computeNovelty hist clock in
  let reuseHint := _computeReuseHint vo in
  let st := _updateHistory key (engine, clock) in
  ({| score_id := vo_id vo;
      score_category := orElse (vo_category vo) "unknown";
      stability := stability;
      novelty := novelty;
      reuseHint := reuseHint |}, st).

Fixpoint scoreAll (vos : list VirtualObject) (st : Engine * Clock)
  : list Score * (Engine * Clock) :=
  match vos with
  | [] => ([], st)
  | vo :: rest =>
      let (score, st) := scoreOne vo st in
      let (scores, st) := scoreAll rest st in
      (score :: scores, st)
  end.

Definition scoreSnapshot (snapshot : SessionManager.Snapshot)
  (st : Engine * Clock) : list Score * (Engine * Clock) :=
  scoreAll (virtualObjects (SessionManager.snap_result snapshot)) st.

(** *** Vocabulary for the properties of the scores *)

(** The history [scoreSnapshot] passes to [_computeNovelty] for [vo]. *)
Definition historyAtNovelty (vo : VirtualObject) (engine : Engine) : list Z :=
  (_getHistory (_makeKey vo) engine).1.

(** Every recorded history holds at least one observation. *)
Definition observed (engine : Engine) : Prop :=
  ∀ key hist, objectHistory engine !! key = Some hist → hist ≠ [].


(** A clock that advances one second per reading. *)
Definition tickingClock : Clock :=
  {| readings := λ n, 1700000000000 + 1000 * Z.of_nat n; reads := 0 |}.

Definition snapshotOf (vos : list VirtualObject) : SessionManager.Snapshot :=
  {| SessionManager.snap_id := "s:0";
     SessionManager.snap_label := "default";
     SessionManager.snap_capturedAt := "t0";
     SessionManager.snap_metrics :=
       {| SessionManager.metrics_virtualObjects := length vos;
          SessionManager.metrics_relationships := 0;
          SessionManager.metrics_domSheets := 0 |};
     SessionManager.snap_result :=
       {| virtualObjects := vos; relationships := []; domSheets := Some [] |}
  |}.

(** Every recorded history fits the window. *)
Definition windowed (engine : Engine) : Prop :=
  ∀ key hist,
    objectHistory engine !! key = Some hist →
    Z.of_nat (length hist) ≤ historyWindow engine.

(** [hist.push(now)], then one [shift()] when the history is longer than the
    window. *)
Definition pushHistory (window : Z) (hist : list Z) (now : Z) : list Z :=
  let pushed := hist ++ [now] in
  if window <? Z.of_nat (length pushed) then tail pushed else pushed.

End ScoreEngine.

(** * MultiPassEngine *)

Module MultiPass.

Section Engine.

(** The engine is agnostic to what inputs, excavation results and regions
    are, and to the state its callbacks read and write. *)
Context {Input Result Region World : Type}.

(** A JavaScript function called in a world: it returns or throws, and leaves
    a world. *)
Definition Callback (A : Type) : Type := World → Outcome A * World.

(** The calls [run] makes, in order. *)
Inductive Event : Type :=
| ShallowCall (input : Input)
| SelectorCall (shallowResult : Result)
| DeepCall (input : Input) (region : Region).

Record RunState := {
  world : World;
  trace : list Event
}.

(** Computations of [run]: state passing, with a thrown error ending the
    computation. *)
Definition Run (A : Type) : Type := RunState → Outcome A * RunState.

#[local] Instance Run_ret : MRet Run := λ A a st, (Returned a, st).

#[local] Instance Run_bind : MBind Run := λ A B k m st,
  match m st with
  | (Returned a, st') => k a st'
  | (Thrown message, st') => (Thrown message, st')
  end.

Definition invoke {A} (event : Event) (f : Callback A) : Run A :=
  λ st,
    let (outcome, w) := f (world st) in
    (outcome, {| world := w; trace := trace st ++ [event] |}).

Record RunResult := {
  shallowResult : Result;
  deepResults : list (Region * Result)
}.

(** [for (const region of selectedRegions)], pushing to [deepResults]. *)
Fixpoint forEachRegion (deepFn : Input → Region → Callback Result)
  (input : Input) (selectedRegions : list Region)
  (deepResults : list (Region * Result)) : Run (list (Region * Result)) :=
  match selectedRegions with
  | [] => mret deepResults
  | region :: rest =>
      deep ← invoke (DeepCall input region) (deepFn input region);
      forEachRegion deepFn input rest (deepResults ++ [(region, deep)])
  end.

(** [run({ input, shallowFn, deepFn, regionSelector })]; [maxDeepRegions] is
    the field of the engine, set by the constructor to the number of its
    option, or to 16. *)
Definition run (maxDeepRegions : Z) (input : Input)
  (shallowFn : Input → Callback Result)
  (deepFn : Input → Region → Callback Result)
  (regionSelector : option (Result → Callback (list Region)))
  : Run RunResult :=
  shallowResult ← invoke (ShallowCall input) (shallowFn input);
  regions ←
    match regionSelector with
    | Some selector =>
        invoke (SelectorCall shallowResult) (selector shallowResult)
    | None => mret []
    end;
  let selectedRegions := slice0 maxDeepRegions regions in
  deepResults ← forEachRegion deepFn input selectedRegions [];
  mret {| shallowResult := shallowResult; deepResults := deepResults |}.

(** *** Vocabulary for the properties of a run *)

(** [deepFn(input, region)] called on each region in turn, each call in the
    world the previous one left, every call returning. *)
Inductive DeepCalls (deepFn : Input → Region → Callback Result)
  (input : Input)
  : World → list Region → list (Region * Result) → World → Prop :=
| DeepCalls_nil w : DeepCalls deepFn input w [] [] w
| DeepCalls_cons w region deep w1 regions results w2 :
    deepFn input region w = (Returned deep, w1) →
    DeepCalls deepFn input w1 regions results w2 →
    DeepCalls deepFn input w (region :: regions) ((region, deep) :: results)
      w2.

Definition isShallowCall (event : Event) : bool :=
  match event with
  | ShallowCall _ => true
  | _ => false
  end.

End Engine.

Arguments Event : clear implicits.
Arguments RunState : clear implicits.
Arguments RunResult : clear implicits.

End MultiPass.

(** * The inspect command (cli/inspect.js) *)

Module Inspect.
Import SessionManager.

(** A row of [virtual_object_scores]. *)
Record ScoreRow := {
  row_snapshot_id : string;
  row_score : ScoreEngine.Score;
  row_computed_at_iso : string
}.

(** The catalog file: the two tables the session manager reaches, and the
    table of scores. *)
Record Database := {
  catalog : Persistence;
  scoresTable : list ScoreRow
}.

(** [Persistence.saveScores]: one transaction of [INSERT INTO
    virtual_object_scores] statements.  A statement fails on a [snapshot_id]
    that is not in [snapshots] (foreign key), and a failed transaction inserts
    nothing; without scores no statement runs. *)
Definition saveScores (snapshotId : string) (scores : list ScoreEngine.Score)
  (nowIso : string) (db : Database) : Outcome Database :=
  match scores with
  | [] => Returned db
  | _ :: _ =>
      if existsb (λ row, String.eqb (snap_id row.2) snapshotId)
           (snapshotsTable (catalog db))
      then
        Returned
          {| catalog := catalog db;
             scoresTable :=
               scoresTable db ++
               map (λ s, {| row_snapshot_id := snapshotId;
                            row_score := s;
                            row_computed_at_iso := nowIso |}) scores |}
      else Thrown "FOREIGN KEY constraint failed"
  end.

Record Report := {
  report_session : SessionSummary;
  report_scores : list ScoreEngine.Score
}.

(** The readings of [new Date().toISOString()] that the calls of [main] take,
    in order. *)
Record Times := {
  startedAt : string;
  shallowAt : string;
  deepAt : string;
  scoredAt : string
}.

(** The database the manager's persistence collaborator holds; [main] and the
    manager share the one [Persistence] object. *)
Definition catalogOf (mgr : Manager) (db : Database) : Database :=
  {| catalog := default (catalog db) (persistence mgr);
     scoresTable := scoresTable db |}.

(** [{ value: data, domRoot: null }] *)
Definition payloadOf (data : JValue) : JValue :=
  JObj [("value", data); ("domRoot", JNull)].

(** [main()] from the point where the JSON file has been read to the report
    it writes: [data] is what [readJson(jsonFile)] returned, [baseName] is
    [path.basename(jsonFile)], [cwd] is [process.cwd()], [db] is the catalog
    that [new Persistence] opened, and [clock] gives the readings of
    [Date.now()].  The module counter of the excavator starts at 0 with the
    process.  An error thrown by a call ends [main]; the database keeps what
    was written before. *)
Definition main (jsonFile baseName cwd : string) (data : JValue)
  (times : Times) (clock : ScoreEngine.Clock) (db : Database)
  : Outcome Report * Database :=
  let sessionManager := newManager (Some 6) (Some 10) (Some (catalog db)) in
  let scorer := ScoreEngine.newEngine (Some 20) in
  let (sessionManager, session) :=
    startSession ("json:" +:+ baseName)
      (JObj [("source", JStr jsonFile); ("type", JStr "json-file");
             ("cwd", JStr cwd)])
      (startedAt times) sessionManager in
  let (shallow, walk) := Excavator.excavate 6 8 (payloadOf data) 0 in
  match addSnapshot (session_id session) shallow (Some "shallow")
          (shallowAt times) sessionManager with
  | (sessionManager, Thrown message) =>
      (Thrown message, catalogOf sessionManager db)
  | (sessionManager, Returned snap1) =>
      let (deep, walk) :=
        Excavator.excavate 6 8 (payloadOf data) (Excavator.nextId walk) in
      match addSnapshot (session_id session) deep (Some "deep")
              (deepAt times) sessionManager with
      | (sessionManager, Thrown message) =>
          (Thrown message, catalogOf sessionManager db)
      | (sessionManager, Returned snap2) =>
          let (scores, _) := ScoreEngine.scoreSnapshot snap2 (scorer, clock) in
          match saveScores (snap_id snap2) scores (scoredAt times)
                  (catalogOf sessionManager db) with
          | Thrown message => (Thrown message, catalogOf sessionManager db)
          | Returned db =>
              match getSessionSummary (session_id session) sessionManager with
              | Thrown message => (Thrown message, db)
              | Returned summary =>
                  (Returned {| report_session := summary;
                               report_scores := scores |}, db)
              end
          end
      end
  end.

(** *** Vocabulary for the properties of the command *)

Definition emptyDatabase : Database :=
  {| catalog := emptyDb; scoresTable := [] |}.

(** One run of the command on a file: what the file held, and the readings
    of the clock during that run. *)
Record Invocation := {
  inv_data : JValue;
  inv_times : Times;
  inv_clock : ScoreEngine.Clock
}.

Definition runMain (jsonFile baseName cwd : string) (inv : Invocation)
  (db : Database) : Outcome Report * Database :=
  main jsonFile baseName cwd (inv_data inv) (inv_times inv) (inv_clock inv)
    db.

(** The catalog after a sequence of runs on one file name, whatever their
    outcomes. *)
Definition catalogAfter (jsonFile baseName cwd : string)
  (earlier : list Invocation) (db : Database) : Database :=
  fold_left (λ db inv, (runMain jsonFile baseName cwd inv db).2) earlier db.

(** The catalog holds no snapshot of the session, and no snapshot id of the
    form the session's ids have. *)
Definition freshCatalog (sessionId : string) (db : Database) : Prop :=
  ∀ row, row ∈ snapshotsTable (catalog db) →
    row.1 ≠ sessionId ∧
    ∀ n : nat, snap_id row.2 ≠ sessionId +:+ ":" +:+ pretty n.

(** What [n] runs on a catalog that was fresh leave: [2 * n] snapshots of the
    session, and the later ids unused. *)
Definition afterRuns (sessionId : string) (n : nat) (db : Database) : Prop :=
  length (loadSessionSnapshots sessionId (catalog db)) = (2 * n)%nat ∧
  ∀ k : nat, (2 * n ≤ k)%nat →
    existsb (λ row, String.eqb (snap_id row.2)
                      (sessionId +:+ ":" +:+ pretty k))
      (snapshotsTable (catalog db)) = false.

End Inspect.

(** * The multi-mode inspect command (cli/inspect-multi.js), JSON mode *)

Module InspectMulti.
Import SessionManager.

(** [buildExcavationResult("json", input, excavator)] for the input
    [{ kind: "json", value: data }] that [loadInput] builds; the excavator of
    [main] samples 16 elements to depth 6. *)
Definition buildExcavationResult (data : JValue) (nextId0 : nat)
  : ExcavationResult * Excavator.WalkState :=
  Excavator.excavate 6 16 (Inspect.payloadOf data) nextId0.

(** [main()] with [--mode json], from the point where the input file has been
    read to the report it writes: [data] is what [readJson(inputFile)]
    returned and [baseName] is [path.basename(inputFile)].  The manager has no
    persistence collaborator, and the module counter of the excavator starts
    at 0 with the process. *)
Definition main (inputFile baseName : string) (data : JValue)
  (times : Inspect.Times) (clock : ScoreEngine.Clock)
  : Outcome Inspect.Report :=
  let sessionManager := newManager (Some 6) (Some 5) None in
  let scorer := ScoreEngine.newEngine (Some 20) in
  let sessionId := "json" +:+ ":" +:+ baseName in
  let (sessionManager, session) :=
    startSession sessionId
      (JObj [("source", JStr inputFile); ("mode", JStr "json")])
      (Inspect.startedAt times) sessionManager in
  let (shallowResult, walk) := buildExcavationResult data 0 in
  match addSnapshot (session_id session) shallowResult (Some "shallow")
          (Inspect.shallowAt times) sessionManager with
  | (sessionManager, Thrown message) => Thrown message
  | (sessionManager, Returned _) =>
      let (deepResult, walk) :=
        buildExcavationResult data (Excavator.nextId walk) in
      match addSnapshot (session_id session) deepResult (Some "deep")
              (Inspect.deepAt times) sessionManager with
      | (sessionManager, Thrown message) => Thrown message
      | (sessionManager, Returned deepSnapshot) =>
          let (scores, _) :=
            ScoreEngine.scoreSnapshot deepSnapshot (scorer, clock) in
          match getSessionSummary (session_id session) sessionManager with
          | Thrown message => Thrown message
          | Returned summary =>
              Returned {| Inspect.report_session := summary;
                          Inspect.report_scores := scores |}
          end
      end
  end.

End InspectMulti.

(** * Properties *)

(** The induction principle that reaches inside arrays and objects. *)
Lemma JValue_nested_ind (P : JValue → Prop) :
  P JUndefined → P JNull → (∀ b, P (JBool b)) → (∀ q, P (JNum q)) →
  (∀ s, P (JStr s)) →
  (∀ elems, Forall P elems → P (JArr elems)) →
  (∀ entries, Forall (λ kv, P kv.2) entries → P (JObj entries)) →
  ∀ v, P v.
Proof.
  intros Hu Hn Hb Hq Hs Ha Ho.
  fix IH 1. intros [| |b|q|s|elems|entries].
  - exact Hu.
  - exact Hn.
  - apply Hb.
  - apply Hq.
  - apply Hs.
  - apply Ha. induction elems as [|e elems IHe]; constructor.
    + apply IH.
    + exact IHe.
  - apply Ho. induction entries as [|[k e] entries IHe]; constructor.
    + apply IH.
    + exact IHe.
Qed.

(** ** Base-36 rendering is injective *)

Lemma digitValue36_digit36 d : (d < 36)%nat → digitValue36 (digit36 d) = d.
Proof.
  intros Hd.
  assert (Hall : forallb (λ d, digitValue36 (digit36 d) =? d)%nat (seq 0 36)
                 = true) by (vm_compute; reflexivity).
  rewrite forallb_forall in Hall.
  apply Nat.eqb_eq, Hall, in_seq. lia.
Qed.

Lemma digits36_value fuel n : (n < fuel)%nat → value36 (digits36 fuel n) = n.
Proof.
  revert n. induction fuel as [|fuel IH]; intros n Hn; [lia|].
  cbn [digits36].
  pose proof (Nat.div_mod_eq n 36) as Hdm.
  destruct (Nat.eqb_spec (n / 36) 0) as [Hz|Hnz].
  - rewrite Hz in Hdm. cbn [value36 fold_right]. lia.
  - cbn [value36 fold_right]. fold (value36 (digits36 fuel (n / 36))).
    assert (n / 36 < n)%nat by (apply Nat.div_lt; lia).
    rewrite IH by lia. lia.
Qed.

Lemma digits36_bound fuel n : Forall (λ d, d < 36)%nat (digits36 fuel n).
Proof.
  revert n. induction fuel as [|fuel IH]; intros n; cbn [digits36].
  - constructor.
  - constructor.
    + apply Nat.mod_upper_bound. lia.
    + destruct (n / 36 =? 0)%nat; [constructor | apply IH].
Qed.

Lemma map_digit36_inj ds1 ds2 :
  Forall (λ d, d < 36)%nat ds1 → Forall (λ d, d < 36)%nat ds2 →
  map digit36 ds1 = map digit36 ds2 → ds1 = ds2.
Proof.
  intros H1. revert ds2.
  induction H1 as [|d1 ds1 Hd1 _ IH]; intros [|d2 ds2] H2 Heq;
    try discriminate; [reflexivity|].
  inversion H2; subst. injection Heq as Hd Hds.
  f_equal; [|by apply IH].
  rewrite <- (digitValue36_digit36 d1), <- (digitValue36_digit36 d2) by done.
  by rewrite Hd.
Qed.

Lemma toString36_inj n m : toString36 n = toString36 m → n = m.
Proof.
  unfold toString36. intros Heq.
  apply (f_equal list_ascii_of_string) in Heq.
  rewrite !list_ascii_of_string_of_list_ascii in Heq.
  apply map_digit36_inj in Heq;
    [|apply Forall_rev, digits36_bound..].
  apply (f_equal (@rev nat)) in Heq. rewrite !rev_involutive in Heq.
  rewrite <- (digits36_value (S n) n), <- (digits36_value (S m) m) by lia.
  by rewrite Heq.
Qed.

(** ** Slices *)

Lemma slice0_nonneg {A} (k : Z) (arr : list A) :
  0 ≤ k → slice0 k arr = firstn (Z.to_nat k) arr.
Proof.
  intros Hk. unfold slice0.
  destruct (Z.ltb_spec k 0) as [?|_]; [lia|].
  destruct (Z.le_gt_cases k (Z.of_nat (length arr))) as [Hle|Hgt].
  - by rewrite Z.min_l.
  - rewrite Z.min_r, Nat2Z.id by lia.
    rewrite !firstn_all2; [done| lia | lia].
Qed.

Lemma slice0_prefix {A} (k : Z) (arr : list A) :
  slice0 k arr = firstn (length (slice0 k arr)) arr.
Proof.
  unfold slice0. set (n := Z.to_nat _). clearbody n.
  rewrite length_firstn.
  destruct (Nat.le_ge_cases n (length arr)).
  - by rewrite Nat.min_l.
  - rewrite Nat.min_r by done. by rewrite !firstn_all2.
Qed.

(** ** The excavation walk *)

Module ExcavatorFacts.
Import Excavator.

Lemma idOf_inj n m : idOf n = idOf m → n = m.
Proof.
  unfold idOf. cbn [String.append]. intros Heq.
  apply toString36_inj. by injection Heq.
Qed.

Section WalkFacts.

Variables maxDepth maxArraySample : Z.

Lemma walkFields_kids walk id path depth entries st :
  walkFields walk id path depth entries st
  = walkKids walk depth (fieldKids id path entries) st.
Proof.
  revert st. induction entries as [|[k v] rest IH]; intros st; [done|].
  cbn. apply IH.
Qed.

Lemma elementKids_cons id path idx0 el rest :
  elementKids id path idx0 (el :: rest)
  = {| kid_rel := λ childId, elementRel id childId idx0;
       kid_path := path +:+ "[" +:+ pretty idx0 +:+ "]";
       kid_value := el |} :: elementKids id path (S idx0) rest.
Proof.
  unfold elementKids. cbn [imap]. rewrite Nat.add_0_r. f_equal.
  apply imap_ext. intros i x _. cbn.
  by replace (idx0 + S i)%nat with (S (idx0 + i)) by lia.
Qed.

Lemma walkElements_kids walk id path depth n elems idx st :
  walkElements walk id path depth n elems idx st
  = walkKids walk depth
      (elementKids id path idx (firstn (n - idx) elems)) st.
Proof.
  revert idx st. induction elems as [|el rest IH]; intros idx st.
  - by rewrite firstn_nil.
  - cbn [walkElements]. destruct (Nat.ltb_spec idx n) as [Hlt|Hge].
    + replace (n - idx)%nat with (S (n - S idx)) by lia.
      rewrite firstn_cons, elementKids_cons. cbn. apply IH.
    + by replace (n - idx)%nat with 0%nat by lia.
Qed.

(** The array loop is the iteration over [sampled] with its indices. *)
Lemma walkElements_sampled walk id path depth elems st :
  let sampled := slice0 maxArraySample elems in
  walkElements walk id path depth (length sampled) elems 0 st
  = walkKids walk depth (elementKids id path 0 sampled) st.
Proof.
  intros sampled. subst sampled. rewrite walkElements_kids, Nat.sub_0_r.
  by rewrite <- slice0_prefix.
Qed.

Lemma genId_vo st :
  genId "vo" st
  = (idOf (S (nextId st)),
     {| nextId := S (nextId st); vList := vList st; relList := relList st;
        calls := calls st |}).
Proof. reflexivity. Qed.

Lemma seq_split a b c :
  (S a ≤ b)%nat → (b ≤ c)%nat →
  seq (S a) (c - a) = seq (S a) (S b - S a) ++ seq (S b) (c - b).
Proof.
  intros Hab Hbc.
  replace (c - a)%nat with ((S b - S a) + (c - b))%nat by lia.
  rewrite seq_app. do 2 f_equal. lia.
Qed.

Lemma call_id_number (C : list Call) a len c :
  call_id <$> C = idOf <$> seq a len → c ∈ C →
  ∃ m, (a ≤ m < a + len)%nat ∧ call_id c = idOf m.
Proof.
  intros Hids Hc.
  assert (Hin : call_id c ∈ idOf <$> seq a len).
  { rewrite <- Hids. by apply list_elem_of_fmap_2. }
  apply list_elem_of_fmap in Hin as (m & -> & Hm).
  apply elem_of_seq in Hm. eauto.
Qed.

Lemma filter_from_none (R : list Relationship) id :
  Forall (λ r, rel_from r ≠ id) R → filter (λ r, rel_from r = id) R = [].
Proof.
  induction 1 as [|r R Hr _ IH]; [done|].
  by rewrite filter_cons_False.
Qed.

Lemma outgoing_frame pre R post c :
  outgoing maxDepth maxArraySample R c →
  Forall (λ r, rel_from r ≠ call_id c) pre →
  Forall (λ r, rel_from r ≠ call_id c) post →
  outgoing maxDepth maxArraySample (pre ++ R ++ post) c.
Proof.
  intros (childIds & Hlen & Hf) Hpre Hpost. exists childIds. split; [done|].
  rewrite !filter_app, (filter_from_none pre), (filter_from_none post) by done.
  by rewrite app_nil_r.
Qed.

(** Ids with different counter values are different. *)
Ltac id_neq :=
  let Heq := fresh in
  intros Heq;
  repeat match type of Heq with
    | context [rel_from ?r] =>
        match goal with H : rel_from r = idOf _ |- _ =>
          tryif constr_eq H Heq then fail else rewrite H in Heq end
    | context [call_id ?c] =>
        match goal with H : call_id c = idOf _ |- _ =>
          tryif constr_eq H Heq then fail else rewrite H in Heq end
    end;
  apply idOf_inj in Heq;
  repeat match goal with x := _ |- _ => clearbody x end; lia.

Lemma walkKids_block walk depth m0 kids :
  Forall (λ k, WalkOK maxDepth maxArraySample walk (kid_value k)) kids →
  Forall (λ k, ∀ childId, rel_from (kid_rel k childId) = idOf m0 ∧
                          rel_to (kid_rel k childId) = childId) kids →
  ∀ n, (m0 ≤ n)%nat →
    ∃ n' V R C,
      (∀ st, nextId st = n →
         walkKids walk depth kids st = appended st n' V R C) ∧
      LoopBlock maxDepth maxArraySample m0 n n' kids C V R.
Proof.
  induction kids as [|k rest IH]; intros Hok Hrel n Hm0.
  - exists n, [], [], []. split.
    + intros [] <-. unfold appended. cbn. by rewrite !app_nil_r.
    + constructor; rewrite ?Nat.sub_diag; try done.
      by exists [].
  - inversion Hok as [|? ? Hk Hrest]; subst.
    inversion Hrel as [|? ? Hrk Hrrest]; subst.
    destruct (Hk (kid_path k) (depth + 1) (S n))
      as (n1 & V1 & R1 & C1 & Hwalk1 & B1).
    set (c1 := mkCall (kid_value k) (idOf (S n)) (kid_path k) (depth + 1))
      in *.
    destruct B1 as [Hle1 Hids1 Hvos1 Htos1 Hfroms1 Hout1].
    destruct (IH Hrest Hrrest n1 ltac:(lia))
      as (n' & V2 & R2 & C2 & Hwalk2 & B2).
    destruct B2 as [Hle2 Hids2 Hvos2 Htos2 Hfroms2 Hown2 Hout2].
    set (r := kid_rel k (idOf (S n))).
    destruct (Hrk (idOf (S n))) as [Hrfrom Hrto]. fold r in Hrfrom, Hrto.
    exists n', (V1 ++ V2), (r :: R1 ++ R2), ((c1 :: C1) ++ C2). split.
    + intros st <-. cbn [walkKids]. rewrite genId_vo. fold r.
      rewrite Hwalk1 by done. rewrite Hwalk2 by done.
      unfold appended, pushRel. cbn [nextId vList relList calls].
      by rewrite <- !app_assoc.
    + clearbody c1.
      pose proof (seq_split n n1 n' Hle1 Hle2) as Hsplit.
      constructor.
      * lia.
      * by rewrite fmap_app, Hids1, Hids2, Hsplit, fmap_app.
      * by rewrite filter_app, fmap_app, Hvos1, Hvos2.
      * rewrite fmap_cons, fmap_app, Htos1, Htos2, Hrto, Hsplit.
        replace (S n1 - S n)%nat with (S (n1 - S n)) by lia.
        by rewrite fmap_app.
      * constructor; [by left|]. apply Forall_app. split.
        -- eapply Forall_impl; [exact Hfroms1|].
           intros r' (m & Hm & Hr'). right. exists m. split; [lia|done].
        -- eapply Forall_impl; [exact Hfroms2|].
           intros r' [Hr'|(m & Hm & Hr')]; [by left|].
           right. exists m. split; [lia|done].
      * destruct Hown2 as (ids2 & Hlen2 & Hf2).
        exists (idOf (S n) :: ids2). split; [cbn; lia|].
        rewrite filter_cons_True by done.
        rewrite filter_app, Hf2, (filter_from_none R1); [done|].
        eapply Forall_impl; [exact Hfroms1|].
        intros r' (m & Hm & Hr'). id_neq.
      * apply Forall_app. split.
        -- apply Forall_forall. intros c Hc.
           destruct (call_id_number _ _ _ _ Hids1 Hc) as (mc & Hmc & Hidc).
           rewrite Forall_forall in Hout1.
           apply (outgoing_frame [r] R1 R2); [by apply Hout1| |].
           ++ constructor; [|done]. id_neq.
           ++ eapply Forall_impl; [exact Hfroms2|].
              intros r' [Hr'|(m & Hm & Hr')]; id_neq.
        -- apply Forall_forall. intros c Hc.
           destruct (call_id_number _ _ _ _ Hids2 Hc) as (mc & Hmc & Hidc).
           rewrite Forall_forall in Hout2.
           replace (r :: R1 ++ R2) with ((r :: R1) ++ R2 ++ []); last first.
           { by rewrite app_nil_r. }
           apply outgoing_frame; [by apply Hout2| |done].
           constructor; [id_neq|].
           eapply Forall_impl; [exact Hfroms1|].
           intros r' (m & Hm & Hr'). id_neq.
Qed.

Local Abbreviation walkValue := (_walkValue maxDepth maxArraySample).
Local Abbreviation kidsOf := (kidsOf maxDepth maxArraySample).
Local Abbreviation within := (within maxDepth).
Local Abbreviation emittedVO := (emittedVO maxArraySample).

Lemma walkValue_beyond v id path depth st :
  within (mkCall v id path depth) = false →
  walkValue v id path depth st = logCall (mkCall v id path depth) st.
Proof.
  unfold Excavator.within, mkCall. cbn [call_depth]. intros Hw.
  apply negb_false_iff in Hw. destruct v; cbn [_walkValue]; by rewrite Hw.
Qed.

Lemma walkValue_within v id path depth st :
  let c := mkCall v id path depth in
  within c = true →
  walkValue v id path depth st
  = walkKids walkValue depth (kidsOf c) (pushVO (emittedVO c) (logCall c st)).
Proof.
  intros c Hw. unfold Excavator.kidsOf. rewrite Hw. subst c.
  unfold Excavator.within, mkCall in Hw. cbn [call_depth] in Hw.
  apply negb_true_iff in Hw. unfold Excavator.emittedVO, mkCall.
  cbn [call_value call_id call_path].
  destruct v; cbn [_walkValue]; rewrite Hw; try reflexivity.
  - apply walkElements_sampled.
  - apply walkFields_kids.
Qed.

Lemma kidsOf_rels c :
  Forall (λ k, ∀ childId, rel_from (kid_rel k childId) = call_id c ∧
                          rel_to (kid_rel k childId) = childId) (kidsOf c).
Proof.
  apply Forall_forall. intros k. unfold Excavator.kidsOf.
  destruct (within c); [|by intros ?%elem_of_nil].
  destruct (call_value c); try by intros ?%elem_of_nil.
  - unfold elementKids. intros (i & el & -> & _)%elem_of_lookup_imap_1.
    done.
  - unfold fieldKids. intros (kv & -> & _)%list_elem_of_fmap. done.
Qed.

Lemma walkOK_step v :
  (∀ id path depth,
     Forall (λ k, WalkOK maxDepth maxArraySample walkValue (kid_value k))
       (kidsOf (mkCall v id path depth))) →
  WalkOK maxDepth maxArraySample walkValue v.
Proof.
  intros Hkids path depth a.
  set (c := mkCall v (idOf a) path depth).
  destruct (within c) eqn:Hw.
  - destruct (walkKids_block walkValue depth a (kidsOf c) (Hkids _ _ _)
                (kidsOf_rels c) a (Nat.le_refl _))
      as (n' & V & R & C & Hwalk &
          [Hle Hids Hvos Htos Hfroms Hown Hout]).
    exists n', (emittedVO c :: V), R, C. split.
    + intros st Hst. rewrite walkValue_within by done. fold c.
      rewrite Hwalk by done.
      unfold appended, pushVO, logCall. cbn [nextId vList relList calls].
      by rewrite <- !app_assoc.
    + constructor.
      * done.
      * replace (S n' - a)%nat with (S (n' - a)) by lia.
        by rewrite fmap_cons, Hids.
      * rewrite filter_cons_True by done. by rewrite fmap_cons, Hvos.
      * done.
      * eapply Forall_impl; [exact Hfroms|].
        intros r [Hr|(m & Hm & Hr)]; [exists a|exists m]; split; done || lia.
      * constructor; [|done]. destruct Hown as (childIds & Hlen & Hf).
        by exists childIds.
  - exists a, [], [], []. split.
    + intros st Hst. rewrite walkValue_beyond by done. fold c.
      unfold appended, logCall. rewrite !app_nil_r. by rewrite Hst.
    + constructor.
      * done.
      * replace (S a - a)%nat with 1%nat by lia. done.
      * by rewrite filter_cons_False by (rewrite Hw; done).
      * by rewrite Nat.sub_diag.
      * done.
      * constructor; [|done]. exists []. unfold Excavator.kidsOf.
        by rewrite Hw.
Qed.

Lemma walkValue_ok v : WalkOK maxDepth maxArraySample walkValue v.
Proof.
  induction v as [| | | | |elems IH|entries IH] using JValue_nested_ind;
    apply walkOK_step; intros id path depth; unfold Excavator.kidsOf;
    destruct (within _); cbn [call_value]; try done.
  - apply Forall_forall. unfold elementKids.
    intros k (i & el & -> & Hel)%elem_of_lookup_imap_1. cbn.
    rewrite Forall_forall in IH. apply IH.
    unfold slice0 in Hel. apply list_elem_of_lookup_2 in Hel.
    by eapply subseteq_take.
  - apply Forall_forall. unfold fieldKids.
    intros k (kv & -> & Hkv)%list_elem_of_fmap. cbn.
    rewrite Forall_forall in IH. by apply IH.
Qed.

Lemma emittedVO_id c : vo_id (emittedVO c) = call_id c.
Proof. unfold Excavator.emittedVO. by destruct (call_value c). Qed.

Lemma kidsOf_within c k : k ∈ kidsOf c → within c = true.
Proof.
  unfold Excavator.kidsOf. destruct (within c); [done|].
  by intros ?%elem_of_nil.
Qed.


Section BlockFacts.

Context {a b : nat} {C : list Call} {V : list VirtualObject}
  {R : list Relationship}.
Hypothesis HB : Block maxDepth maxArraySample a b C V R.

Lemma block_ids_inj c c' :
  c ∈ C → c' ∈ C → call_id c = call_id c' → c = c'.
Proof.
  assert (Hnd : NoDup (call_id <$> C)).
  { rewrite (blk_ids _ _ _ _ _ _ _ HB).
    apply NoDup_fmap_2; [intros ??; apply idOf_inj | apply NoDup_seq]. }
  clear HB. induction C as [|c0 C' IH]; [by intros ?%elem_of_nil|].
  rewrite fmap_cons in Hnd. apply NoDup_cons in Hnd as [Hnotin Hnd].
  intros [->|Hc]%elem_of_cons [->|Hc']%elem_of_cons Heq; auto.
  - exfalso. apply Hnotin. rewrite Heq. by apply list_elem_of_fmap_2.
  - exfalso. apply Hnotin. rewrite <- Heq. by apply list_elem_of_fmap_2.
Qed.


Lemma block_vo_unique c vo :
  c ∈ C → vo ∈ V → vo_id vo = call_id c → vo = emittedVO c.
Proof.
  intros Hc Hvo Hid. rewrite (blk_vos _ _ _ _ _ _ _ HB) in Hvo.
  apply list_elem_of_fmap in Hvo as (c' & -> & Hc').
  apply list_elem_of_filter in Hc' as [_ Hc'].
  rewrite emittedVO_id in Hid. by rewrite (block_ids_inj c' c Hc' Hc Hid).
Qed.

Lemma block_rel_origin r :
  r ∈ R →
  ∃ c k childId, c ∈ C ∧ k ∈ kidsOf c ∧ r = kid_rel k childId.
Proof.
  intros Hr.
  pose proof (blk_froms _ _ _ _ _ _ _ HB) as Hfroms.
  rewrite Forall_forall in Hfroms.
  destruct (Hfroms r Hr) as (m & Hm & Hfrom).
  assert (Hin : idOf m ∈ call_id <$> C).
  { rewrite (blk_ids _ _ _ _ _ _ _ HB). apply list_elem_of_fmap_2.
    apply elem_of_seq. lia. }
  apply list_elem_of_fmap in Hin as (c & Hidc & Hc).
  pose proof (blk_out _ _ _ _ _ _ _ HB) as Hout.
  rewrite Forall_forall in Hout.
  destruct (Hout c Hc) as (childIds & _ & Hf).
  assert (Hrf : r ∈ filter (λ r, rel_from r = call_id c) R).
  { apply list_elem_of_filter. split; [congruence|done]. }
  rewrite Hf in Hrf.
  apply elem_of_zip_with in Hrf as (k & childId & -> & Hk & _).
  by exists c, k, childId.
Qed.


Lemma block_incoming c0 C' c :
  C = c0 :: C' → c ∈ C' → ∃ r, r ∈ R ∧ rel_to r = call_id c.
Proof.
  intros -> Hc.
  pose proof (blk_ids _ _ _ _ _ _ _ HB) as Hids.
  pose proof (blk_le _ _ _ _ _ _ _ HB) as Hle.
  replace (S b - a)%nat with (S (b - a)) in Hids by lia.
  rewrite fmap_cons in Hids. cbn [seq fmap list_fmap] in Hids.
  injection Hids as _ Hids.
  rewrite <- (blk_tos _ _ _ _ _ _ _ HB) in Hids.
  assert (Hin : call_id c ∈ rel_to <$> R).
  { rewrite <- Hids. by apply list_elem_of_fmap_2. }
  apply list_elem_of_fmap in Hin as (r & Hto & Hr). by exists r.
Qed.

End BlockFacts.

Lemma excavate_block input n0 :
  ∃ root n' V R C,
    excavate maxDepth maxArraySample input n0
    = ({| virtualObjects := V; relationships := R; domSheets := Some [] |},
       {| nextId := n'; vList := V; relList := R;
          calls := mkCall root (idOf (S n0)) "#" 0 :: C |}) ∧
    Block maxDepth maxArraySample (S n0) n'
      (mkCall root (idOf (S n0)) "#" 0 :: C) V R.
Proof.
  unfold excavate. rewrite genId_vo.
  set (root := match input with JObj _ => _ | _ => _ end).
  destruct (walkValue_ok root "#" 0 (S n0)) as (n' & V & R & C & Hwalk & HB).
  exists root, n', V, R, C. split; [|done].
  by rewrite Hwalk.
Qed.

(** Whatever the arrays hold, a loop over the children of a call appends the
    same things. *)
Lemma walkKids_kidsOf c depth n :
  call_id c = idOf n →
  ∃ n' V R C,
    ∀ st, nextId st = n →
      walkKids walkValue depth (kidsOf c) st = appended st n' V R C.
Proof.
  intros Hid.
  destruct (walkKids_block walkValue depth n (kidsOf c)) with (n := n)
    as (n' & V & R & C & Hwalk & _).
  - apply Forall_forall. intros k _. apply walkValue_ok.
  - rewrite <- Hid. apply kidsOf_rels.
  - done.
  - by exists n', V, R, C.
Qed.

End WalkFacts.



Lemma zip_with_elementKids_from id path idx0 (sampled : list JValue)
  (childIds : list string) :
  length childIds = length sampled →
  zip_with kid_rel (elementKids id path idx0 sampled) childIds
  = imap (λ i childId, elementRel id childId (idx0 + i)) childIds.
Proof.
  revert childIds idx0. induction sampled as [|el rest IH];
    intros [|cid childIds] idx0 Hlen; try done.
  rewrite elementKids_cons. cbn [imap zip_with kid_rel].
  rewrite Nat.add_0_r. f_equal. injection Hlen as Hlen.
  rewrite IH by done. apply imap_ext. intros i x _. cbn.
  by replace (idx0 + S i)%nat with (S (idx0 + i)) by lia.
Qed.

Lemma zip_with_elementKids id path (sampled : list JValue)
  (childIds : list string) :
  length childIds = length sampled →
  zip_with kid_rel (elementKids id path 0 sampled) childIds
  = imap (λ i childId, elementRel id childId i) childIds.
Proof. apply zip_with_elementKids_from. Qed.

(** C7, as the code has it: array sampling for a sample size
    [maxArraySample >= 0].  For every array node the walk reaches within [maxDepth], the struct object pushed
    for it carries the histogram of the first [maxArraySample] elements only,
    and the relationships that start at the node are exactly
    [min(length, maxArraySample)] element relationships with the indices
    0, 1, ... in order.  Elements beyond the sample are never walked: walking
    the array and walking its sample append the same objects, relationships
    and child calls and leave the same counter.  With [maxArraySample = 2] the
    input [[1,2,3,4]] yields an array object with [elementTypes = {number: 2}]
    and the two element relationships of indices 0 and 1. *)
Theorem excavate_array_sampling :
  (∀ (maxDepth maxArraySample : Z) (input : JValue) (n0 : nat)
     (c : Call) (elems : list JValue),
     0 ≤ maxArraySample →
     let out := excavate maxDepth maxArraySample input n0 in
     let sampled := take (Z.to_nat maxArraySample) elems in
     c ∈ calls out.2 → call_value c = JArr elems →
     call_depth c ≤ maxDepth →
     structArrayVO (call_id c) (call_path c) (histogram sampled)
       ∈ virtualObjects out.1 ∧
     (∀ vo, vo ∈ virtualObjects out.1 → vo_id vo = call_id c →
            vo = structArrayVO (call_id c) (call_path c) (histogram sampled)) ∧
     ∃ childIds : list string,
       length childIds = (length elems `min` Z.to_nat maxArraySample)%nat ∧
       filter (λ r, rel_from r = call_id c) (relationships out.1)
       = imap (λ i childId, elementRel (call_id c) childId i) childIds) ∧
  (∀ (maxDepth maxArraySample : Z) (elems : list JValue) (path : string)
     (depth : Z) (n : nat),
     0 ≤ maxArraySample →
     let sampled := take (Z.to_nat maxArraySample) elems in
     ∃ n' V R C,
       ∀ st, nextId st = n →
         _walkValue maxDepth maxArraySample (JArr elems) (idOf n) path depth st
         = appended st n' V R (mkCall (JArr elems) (idOf n) path depth :: C) ∧
         _walkValue maxDepth maxArraySample (JArr sampled) (idOf n) path depth
           st
         = appended st n' V R
             (mkCall (JArr sampled) (idOf n) path depth :: C)) ∧
  (∀ n0 : nat,
     let rootId := idOf (S n0) in
     let id0 := idOf (S (S n0)) in
     let id1 := idOf (S (S (S n0))) in
     (excavate 6 2 (JArr [JNum 1; JNum 2; JNum 3; JNum 4]) n0).1
     = {| virtualObjects :=
            [structArrayVO rootId "#" [("number", 2%nat)];
             valueVO id0 "#[0]" "number" (JNum 1);
             valueVO id1 "#[1]" "number" (JNum 2)];
          relationships :=
            [elementRel rootId id0 0; elementRel rootId id1 1];
          domSheets := Some [] |}).
Proof.
  split; [|split].
  - intros maxDepth maxArraySample input n0 c elems Hk out sampled.
    subst out sampled.
    destruct (excavate_block maxDepth maxArraySample input n0)
      as (root & n' & V & R & C & -> & HB).
    cbn [fst snd virtualObjects relationships calls].
    intros Hc Hval Hdepth.
    assert (Hw : within maxDepth c = true).
    { unfold within. rewrite negb_true_iff, Z.ltb_ge. done. }
    assert (Hvo : emittedVO maxArraySample c
                  = structArrayVO (call_id c) (call_path c)
                      (histogram (take (Z.to_nat maxArraySample) elems))).
    { unfold emittedVO. rewrite Hval. by rewrite slice0_nonneg. }
    rewrite <- Hvo. split_and!.
    + rewrite (blk_vos _ _ _ _ _ _ _ HB). apply list_elem_of_fmap_2.
      by apply list_elem_of_filter.
    + intros vo Hin Hid. by apply (block_vo_unique _ _ HB).
    + pose proof (blk_out _ _ _ _ _ _ _ HB) as Hout.
      rewrite Forall_forall in Hout.
      destruct (Hout c Hc) as (childIds & Hlen & Hf).
      unfold kidsOf in Hlen, Hf. rewrite Hw, Hval in Hlen, Hf.
      unfold elementKids in Hlen. rewrite length_imap in Hlen.
      rewrite slice0_nonneg in Hlen, Hf by done.
      exists childIds. split.
      * rewrite Hlen, length_take. lia.
      * rewrite Hf. by apply zip_with_elementKids.
  - intros maxDepth maxArraySample elems path depth n Hk sampled.
    set (c := mkCall (JArr elems) (idOf n) path depth).
    set (c' := mkCall (JArr sampled) (idOf n) path depth).
    assert (Hs : slice0 maxArraySample sampled = slice0 maxArraySample elems).
    { subst sampled. rewrite !slice0_nonneg by done. by rewrite take_take, Nat.min_id. }
    assert (Hkids : kidsOf maxDepth maxArraySample c'
                    = kidsOf maxDepth maxArraySample c).
    { unfold kidsOf, within. cbn. by rewrite Hs. }
    assert (Hvo : emittedVO maxArraySample c' = emittedVO maxArraySample c).
    { unfold emittedVO. cbn. by rewrite Hs. }
    destruct (within maxDepth c) eqn:Hw.
    + destruct (walkKids_kidsOf maxDepth maxArraySample c depth n eq_refl)
        as (n' & V & R & C & Hwalk).
      exists n', (emittedVO maxArraySample c :: V), R, C. intros st Hst.
      rewrite !walkValue_within by done. fold c c'. rewrite Hkids, Hvo.
      rewrite !Hwalk by done.
      unfold appended, pushVO, logCall. cbn [nextId vList relList calls].
      by rewrite <- !app_assoc.
    + exists n, [], [], []. intros st Hst.
      rewrite !walkValue_beyond by done. fold c c'.
      unfold appended, logCall. rewrite !app_nil_r. by rewrite Hst.
  - intros n0. reflexivity.
Qed.

Lemma excavate_array_sampling_witness :
  ∃ childIds : list string,
    length childIds = 2%nat ∧
    filter (λ r, rel_from r = "vo_1")
      (relationships
         (excavate 6 2 (JArr [JNum 1; JNum 2; JNum 3; JNum 4]) 0).1)
    = imap (λ i childId, elementRel "vo_1" childId i) childIds.
Proof.
  apply (proj1 excavate_array_sampling 6 2
           (JArr [JNum 1; JNum 2; JNum 3; JNum 4]) 0%nat
           (mkCall (JArr [JNum 1; JNum 2; JNum 3; JNum 4]) "vo_1" "#" 0)
           [JNum 1; JNum 2; JNum 3; JNum 4]).
  - lia.
  - vm_compute. left.
  - reflexivity.
  - vm_compute. discriminate.
Defined.

(** C7, as the specification states it, fails for a negative sample size.
    [slice(0, maxArraySample)] counts a negative end from the end of the
    array: with [maxArraySample = -1] the input [[1,2,3,4]] yields an array
    object with [elementTypes = {number: 3}] and three element relationships
    of indices 0, 1 and 2, where the claim counts the first [maxArraySample]
    elements and [min(4, -1)] relationships. *)
Lemma array_sampling_counterexample :
  let input := JArr [JNum 1; JNum 2; JNum 3; JNum 4] in
  let out := (excavate 6 (-1) input 0).1 in
  virtualObjects out !! 0%nat
  = Some (structArrayVO "vo_1" "#" [("number", 3%nat)]) ∧
  rel_index <$> filter (λ r, rel_from r = "vo_1") (relationships out)
  = [Some 0%nat; Some 1%nat; Some 2%nat] ∧
  ¬ (∀ (maxDepth maxArraySample : Z) (input : JValue) (n0 : nat)
       (c : Call) (elems : list JValue),
       let out := excavate maxDepth maxArraySample input n0 in
       c ∈ calls out.2 → call_value c = JArr elems →
       call_depth c ≤ maxDepth →
       Z.of_nat
         (length (filter (λ r, rel_from r = call_id c)
                    (relationships out.1)))
       = Z.of_nat (length elems) `min` maxArraySample).
Proof.
  cbv zeta. split_and!; [vm_compute; reflexivity..|].
  intros Hclaim.
  specialize (Hclaim 6 (-1) (JArr [JNum 1; JNum 2; JNum 3; JNum 4]) 0%nat
                (mkCall (JArr [JNum 1; JNum 2; JNum 3; JNum 4]) "vo_1" "#" 0)
                [JNum 1; JNum 2; JNum 3; JNum 4]).
  cbv zeta in Hclaim.
  assert (Hcount : (3 : Z) = -1); [|discriminate Hcount].
  apply Hclaim.
  - vm_compute. left.
  - reflexivity.
  - vm_compute. discriminate.
Qed.

(** C10.  Unwrapping of [value].  When the input is an object with an own
    property named [value], the walk starts at [input.value]: the wrapping
    object is not a node of the walk.  [excavate({"value": 5})] produces the
    single value object of 5 and no struct object, so a payload whose top
    level has a [value] key is not excavated as it stands. *)
Theorem excavate_unwraps_value :
  (∀ (maxDepth maxArraySample : Z) (entries : list (string * JValue))
     (v : JValue) (n0 : nat),
     obj_get "value" entries = Some v →
     let out := excavate maxDepth maxArraySample (JObj entries) n0 in
     out.2 = _walkValue maxDepth maxArraySample v (idOf (S n0)) "#" 0
               (initState (S n0)) ∧
     virtualObjects out.1 = vList out.2 ∧
     relationships out.1 = relList out.2 ∧
     ∃ rest, calls out.2 = mkCall v (idOf (S n0)) "#" 0 :: rest) ∧
  (∀ (maxDepth maxArraySample : Z) (n0 : nat),
     0 ≤ maxDepth →
     (excavate maxDepth maxArraySample (JObj [("value", JNum 5)]) n0).1
     = {| virtualObjects := [valueVO (idOf (S n0)) "#" "number" (JNum 5)];
          relationships := [];
          domSheets := Some [] |}).
Proof.
  split.
  - intros maxDepth maxArraySample entries v n0 Hget out. subst out.
    unfold excavate. rewrite Hget, genId_vo.
    cbn [fst snd virtualObjects relationships]. split_and!; try done.
    destruct (walkValue_ok maxDepth maxArraySample v "#" 0 (S n0))
      as (n' & V & R & C & Hwalk & _).
    rewrite Hwalk by done. by exists C.
  - intros maxDepth maxArraySample n0 Hd. unfold excavate.
    cbn [obj_get String.eqb Ascii.eqb Bool.eqb]. rewrite genId_vo.
    cbn [_walkValue]. destruct (Z.ltb_spec maxDepth 0); [lia|]. reflexivity.
Qed.

Lemma excavate_unwraps_value_witness :
  (excavate 6 8 (JObj [("value", JNum 5)]) 0).1
  = {| virtualObjects := [valueVO "vo_1" "#" "number" (JNum 5)];
       relationships := [];
       domSheets := Some [] |}.
Proof.
  apply (proj2 excavate_unwraps_value 6 8 0%nat). lia.
Defined.

End ExcavatorFacts.

(** ** The session ledger *)

Module SessionManagerFacts.
Import SessionManager.

Lemma lastn_lastn_app {A} (k : nat) (X Y : list A) :
  lastn k (lastn k X ++ Y) = lastn k (X ++ Y).
Proof.
  unfold lastn. destruct (Nat.le_gt_cases (length X) k) as [Hle|Hgt].
  - by replace (length X - k)%nat with 0%nat by lia.
  - rewrite !length_app, length_drop.
    replace (length X - (length X - k) + length Y - k)%nat
      with (length Y) by lia.
    replace (length X + length Y - k)%nat
      with ((length X - k) + length Y)%nat by lia.
    rewrite <- drop_drop. f_equal.
    rewrite drop_app_le by lia. done.
Qed.

Lemma fmap_lastn {A B} (f : A → B) (k : nat) (l : list A) :
  f <$> lastn k l = lastn k (f <$> l).
Proof. unfold lastn. by rewrite fmap_drop, length_fmap. Qed.

Lemma updateSummary_totals session :
  let s' := _updateSummary session in
  snapshots s' = snapshots session ∧
  driftEvents (summary s') = driftEvents (summary session) ∧
  totalVirtualObjects (summary s')
  = sum_list (metrics_virtualObjects ∘ snap_metrics <$> snapshots session) ∧
  totalRelationships (summary s')
  = sum_list (metrics_relationships ∘ snap_metrics <$> snapshots session) ∧
  summary_domSheets (summary s')
  = sum_list (metrics_domSheets ∘ snap_metrics <$> snapshots session).
Proof.
  unfold _updateSummary.
  assert (Hfold : ∀ l a b c,
    fold_left
      (λ (acc : nat * nat * nat) snap,
         let '(totalVO, totalRel, sheets) := acc in
         ((totalVO + metrics_virtualObjects (snap_metrics snap))%nat,
          (totalRel + metrics_relationships (snap_metrics snap))%nat,
          (sheets + metrics_domSheets (snap_metrics snap))%nat)) l (a, b, c)
    = ((a + sum_list (metrics_virtualObjects ∘ snap_metrics <$> l))%nat,
       (b + sum_list (metrics_relationships ∘ snap_metrics <$> l))%nat,
       (c + sum_list (metrics_domSheets ∘ snap_metrics <$> l))%nat)).
  { induction l as [|snap l IH]; intros a b c; cbn.
    - by rewrite !Nat.add_0_r.
    - rewrite IH. f_equal; [f_equal|]; unfold compose; lia. }
  rewrite Hfold. cbn. done.
Qed.

Lemma detectDrift_frame session :
  let s' := _detectDrift session in
  snapshots s' = snapshots session ∧
  totalVirtualObjects (summary s') = totalVirtualObjects (summary session) ∧
  totalRelationships (summary s') = totalRelationships (summary session) ∧
  summary_domSheets (summary s') = summary_domSheets (summary session).
Proof.
  unfold _detectDrift.
  destruct (_ <? 2)%nat; [done|].
  destruct (_ !! _); [|done]. destruct (_ !! _); [|done].
  by destruct (0 <? _).
Qed.

Lemma detectDrift_short session :
  (length (snapshots session) < 2)%nat → _detectDrift session = session.
Proof.
  intros Hlen. unfold _detectDrift.
  by destruct (Nat.ltb_spec (length (snapshots session)) 2); [|lia].
Qed.

Lemma detectDrift_events session pre prev latest :
  snapshots session = pre ++ [prev; latest] →
  driftEvents (summary (_detectDrift session))
  = (driftEvents (summary session)
     + if (0 <? driftScore latest prev)%Z then 1 else 0)%nat.
Proof.
  intros Hsnaps. unfold _detectDrift. rewrite Hsnaps.
  rewrite length_app. cbn [length].
  destruct (Nat.ltb_spec (length pre + 2) 2) as [?|_]; [lia|].
  replace (length pre + 2 - 1)%nat with (length pre + 1)%nat by lia.
  replace (length pre + 2 - 2)%nat with (length pre + 0)%nat by lia.
  rewrite !lookup_app_r by lia.
  replace (length pre + 1 - length pre)%nat with 1%nat by lia.
  replace (length pre + 0 - length pre)%nat with 0%nat by lia.
  cbn [lookup list_lookup]. fold (driftScore latest prev).
  destruct (0 <? driftScore latest prev); cbn; lia.
Qed.

(** The session [addSnapshot] leaves in the map. *)
Lemma addSnapshot_session sessionId excavationResult label now mgr session :
  sessions mgr !! sessionId = Some session →
  let mgr' := (addSnapshot sessionId excavationResult label now mgr).1 in
  maxSnapshots mgr' = maxSnapshots mgr ∧
  sessions mgr' !! sessionId
  = Some (_detectDrift
            (_updateSummary
               (pushSnapshot (maxSnapshots mgr)
                  (newSnapshot sessionId session excavationResult
                     (default "default" label) now) session))).
Proof.
  intros Hs. unfold addSnapshot. rewrite Hs.
  destruct (persistence mgr) as [db|]; [destruct (saveSnapshot _ _ db)|];
    cbn; by rewrite lookup_insert_eq.
Qed.

Lemma pushSnapshot_window k snapshot session :
  0 ≤ k → Z.of_nat (length (snapshots session)) ≤ k →
  snapshots (pushSnapshot k snapshot session)
  = lastn (Z.to_nat k) (snapshots session ++ [snapshot]) ∧
  Z.of_nat (length (snapshots (pushSnapshot k snapshot session))) ≤ k.
Proof.
  intros Hk Hlen. unfold pushSnapshot, lastn. cbn [setSnapshots snapshots].
  rewrite length_app. cbn [length].
  destruct (Z.ltb_spec k (Z.of_nat (length (snapshots session) + 1))).
  - replace (length (snapshots session) + 1 - Z.to_nat k)%nat with 1%nat
      by lia.
    split; [by destruct (snapshots session)|].
    destruct (snapshots session); cbn in *; [lia|].
    rewrite length_app. cbn. lia.
  - replace (length (snapshots session) + 1 - Z.to_nat k)%nat with 0%nat
      by lia.
    split; [done|]. rewrite length_app. cbn. lia.
Qed.

Lemma added_snapshots k snapshot session :
  snapshots (_detectDrift (_updateSummary (pushSnapshot k snapshot session)))
  = snapshots (pushSnapshot k snapshot session).
Proof.
  destruct (detectDrift_frame
              (_updateSummary (pushSnapshot k snapshot session))) as [-> _].
  by destruct (updateSummary_totals (pushSnapshot k snapshot session))
    as [-> _].
Qed.

Lemma addSnapshots_cons sessionId a adds mgr :
  addSnapshots sessionId (a :: adds) mgr
  = addSnapshots sessionId adds
      (addSnapshot sessionId (add_result a) (add_label a) (add_now a) mgr).1.
Proof. reflexivity. Qed.

(** An invariant of the session that every [addSnapshot] keeps holds after
    any sequence of them. *)
Lemma addSnapshots_invariant sessionId k (I : Session → Prop) :
  (∀ session snapshot,
     I session →
     I (_detectDrift (_updateSummary (pushSnapshot k snapshot session)))) →
  ∀ adds mgr session,
    maxSnapshots mgr = k → sessions mgr !! sessionId = Some session →
    I session →
    ∃ session',
      sessions (addSnapshots sessionId adds mgr) !! sessionId = Some session' ∧
      I session' ∧ maxSnapshots (addSnapshots sessionId adds mgr) = k.
Proof.
  intros Hstep. induction adds as [|a adds IH]; intros mgr session Hk Hs HI.
  - by exists session.
  - rewrite addSnapshots_cons.
    destruct (addSnapshot_session sessionId (add_result a) (add_label a)
                (add_now a) mgr session Hs) as [Hk' Hs'].
    cbv zeta in *. eapply IH; [congruence|exact Hs'|].
    rewrite Hk. by apply Hstep.
Qed.

(** C2, where the code keeps the cap.  For a session whose log holds at most
    [maxSnapshots] entries (every session started without a persistence
    collaborator: its log starts empty) and [maxSnapshots >= 0]: after any
    sequence of [addSnapshot] calls the log holds at most [maxSnapshots]
    entries, namely the most recent ones, made from the latest call arguments,
    in insertion order.  With [maxSnapshots = 2], three additions to a new
    session leave exactly the second and the third snapshot, and the summary
    sums these two only. *)
Theorem addSnapshots_window :
  (∀ (mgr : Manager) (sessionId : string) (session : Session)
     (adds : list AddCall),
     sessions mgr !! sessionId = Some session →
     0 ≤ maxSnapshots mgr →
     Z.of_nat (length (snapshots session)) ≤ maxSnapshots mgr →
     ∃ session',
       sessions (addSnapshots sessionId adds mgr) !! sessionId
       = Some session' ∧
       Z.of_nat (length (snapshots session')) ≤ maxSnapshots mgr ∧
       payload <$> snapshots session'
       = lastn (Z.to_nat (maxSnapshots mgr))
           ((payload <$> snapshots session) ++ (addPayload <$> adds))) ∧
  (∀ (mgr : Manager) (sessionId : string) (metadata : JValue) (now : string),
     persistence mgr = None → sessions mgr !! sessionId = None →
     let started := startSession sessionId metadata now mgr in
     sessions started.1 !! sessionId = Some started.2 ∧
     snapshots started.2 = [] ∧
     maxSnapshots started.1 = maxSnapshots mgr) ∧
  (∀ r1 r2 r3 : ExcavationResult,
     let mgr0 := newManager None (Some 2) None in
     let mgr1 := (startSession "s" (JObj []) "t0" mgr0).1 in
     let mgr3 :=
       addSnapshots "s"
         [ {| add_result := r1; add_label := None; add_now := "t1" |};
           {| add_result := r2; add_label := None; add_now := "t2" |};
           {| add_result := r3; add_label := None; add_now := "t3" |} ]
         mgr1 in
     ∃ session',
       sessions mgr3 !! "s" = Some session' ∧
       snapshots session'
       = [ {| snap_id := "s:1"; snap_label := "default";
              snap_capturedAt := "t2";
              snap_metrics :=
                {| metrics_virtualObjects := length (virtualObjects r2);
                   metrics_relationships := length (relationships r2);
                   metrics_domSheets :=
                     match domSheets r2 with
                     | Some sheets => length sheets
                     | None => 0
                     end |};
              snap_result := r2 |};
           {| snap_id := "s:2"; snap_label := "default";
              snap_capturedAt := "t3";
              snap_metrics :=
                {| metrics_virtualObjects := length (virtualObjects r3);
                   metrics_relationships := length (relationships r3);
                   metrics_domSheets :=
                     match domSheets r3 with
                     | Some sheets => length sheets
                     | None => 0
                     end |};
              snap_result := r3 |} ] ∧
       snap_id <$> snapshots session' = ["s:1"; "s:2"] ∧
       snap_result <$> snapshots session' = [r2; r3] ∧
       totalVirtualObjects (summary session')
       = (length (virtualObjects r2) + length (virtualObjects r3))%nat ∧
       totalRelationships (summary session')
       = (length (relationships r2) + length (relationships r3))%nat).
Proof.
  split_and!.
  - intros mgr sessionId session adds. revert mgr session.
    induction adds as [|a adds IH]; intros mgr session Hs Hk Hlen.
    + exists session. split_and!; [done..|].
      cbn [fmap list_fmap]. rewrite app_nil_r. unfold lastn.
      rewrite length_fmap.
      by replace (length (snapshots session) - Z.to_nat (maxSnapshots mgr))%nat
        with 0%nat by lia.
    + rewrite addSnapshots_cons.
      destruct (addSnapshot_session sessionId (add_result a) (add_label a)
                  (add_now a) mgr session Hs) as [Hk' Hs'].
      cbv zeta in *.
      set (snap := newSnapshot sessionId session (add_result a)
                     (default "default" (add_label a)) (add_now a)) in *.
      destruct (pushSnapshot_window (maxSnapshots mgr) snap session Hk Hlen)
        as [Hwin Hlen'].
      rewrite <- added_snapshots in Hwin, Hlen'.
      destruct (IH _ _ Hs') as (session' & Hs'' & Hlen'' & Hpay).
      * by rewrite Hk'.
      * by rewrite Hk'.
      * exists session'. rewrite Hk' in *. split_and!; [done..|].
        rewrite Hpay, Hwin, fmap_lastn, fmap_app, lastn_lastn_app.
        by rewrite <- app_assoc.
  - intros mgr sessionId metadata now Hnone Hfresh. cbv zeta.
    unfold startSession. rewrite Hfresh, Hnone. cbn.
    by rewrite lookup_insert_eq.
  - intros r1 r2 r3. cbv zeta.
    set (mgr1 := (startSession "s" (JObj []) "t0" _).1).
    assert (Hk1 : maxSnapshots mgr1 = 2) by reflexivity.
    assert (Hs0 : ∃ s0, sessions mgr1 !! "s" = Some s0 ∧ snapshots s0 = []).
    { eexists. split; [vm_compute; reflexivity|reflexivity]. }
    destruct Hs0 as (s0 & Hs0 & Hsnaps0). clearbody mgr1.
    unfold addSnapshots. cbn [fold_left add_result add_label add_now].
    destruct (addSnapshot_session "s" r1 None "t1" mgr1 s0 Hs0) as [Hk2 Hs1].
    cbv zeta in Hk2, Hs1. rewrite Hk1 in Hk2, Hs1.
    set (mgr2 := (addSnapshot "s" r1 None "t1" mgr1).1) in *.
    set (s1 := _detectDrift _) in Hs1.
    assert (Hsnaps1 : snapshots s1 = [newSnapshot "s" s0 r1 "default" "t1"]).
    { subst s1. rewrite added_snapshots. unfold pushSnapshot.
      rewrite Hsnaps0. reflexivity. }
    clearbody s1 mgr2.
    destruct (addSnapshot_session "s" r2 None "t2" mgr2 s1 Hs1) as [Hk3 Hs2].
    cbv zeta in Hk3, Hs2. rewrite Hk2 in Hk3, Hs2.
    set (mgr3 := (addSnapshot "s" r2 None "t2" mgr2).1) in *.
    set (s2 := _detectDrift _) in Hs2.
    assert (Hsnaps2 : snapshots s2 = [newSnapshot "s" s0 r1 "default" "t1";
                                      newSnapshot "s" s1 r2 "default" "t2"]).
    { subst s2. rewrite added_snapshots. unfold pushSnapshot.
      rewrite Hsnaps1. reflexivity. }
    clearbody s2 mgr3.
    destruct (addSnapshot_session "s" r3 None "t3" mgr3 s2 Hs2) as [_ Hs3].
    cbv zeta in Hs3. rewrite Hk3 in Hs3.
    set (s3 := _detectDrift _) in Hs3.
    assert (Hsnaps3 : snapshots s3 = [newSnapshot "s" s1 r2 "default" "t2";
                                      newSnapshot "s" s2 r3 "default" "t3"]).
    { subst s3. rewrite added_snapshots. unfold pushSnapshot.
      rewrite Hsnaps2. reflexivity. }
    exists s3. split; [exact Hs3|].
    assert (Hsum : totalVirtualObjects (summary s3)
                   = sum_list (metrics_virtualObjects ∘ snap_metrics
                               <$> snapshots s3) ∧
                   totalRelationships (summary s3)
                   = sum_list (metrics_relationships ∘ snap_metrics
                               <$> snapshots s3)).
    { subst s3. set (pushed := pushSnapshot _ _ _).
      destruct (detectDrift_frame (_updateSummary pushed))
        as (-> & -> & -> & _).
      by destruct (updateSummary_totals pushed) as (-> & _ & -> & -> & _). }
    destruct Hsum as [-> ->]. rewrite Hsnaps3. unfold newSnapshot.
    rewrite Hsnaps1, Hsnaps2. cbn. split_and!; try reflexivity; lia.
Qed.

Lemma addSnapshots_window_witness :
  ∃ session',
    sessions
      (addSnapshots "s" [addAt "t1"; addAt "t2"; addAt "t3"]
         (startSession "s" (JObj []) "t0" (newManager None (Some 2) None)).1)
      !! "s" = Some session' ∧
    Z.of_nat (length (snapshots session')) ≤ 2 ∧
    payload <$> snapshots session'
    = [("default", "t2", emptyResult); ("default", "t3", emptyResult)].
Proof.
  apply (proj1 addSnapshots_window
           (startSession "s" (JObj []) "t0" (newManager None (Some 2) None)).1
           "s"
           {| session_id := "s"; session_createdAt := "t0";
              session_metadata := JObj []; snapshots := [];
              summary := {| totalVirtualObjects := 0; totalRelationships := 0;
                            summary_domSheets := 0; driftEvents := 0 |} |}
           [addAt "t1"; addAt "t2"; addAt "t3"]).
  - vm_compute. reflexivity.
  - vm_compute. discriminate.
  - vm_compute. discriminate.
Defined.

(** C2: the code misses the cap on a hydrated session.  A first
    process with [maxSnapshots = 2] and a persistence collaborator adds three
    snapshots: all three are stored.  A second process starts the same session
    with the same cap: [hydrateSessionSnapshots] pushes the three stored rows,
    and every later [addSnapshot] pushes one and shifts one, so the log stays
    at three entries, above [maxSnapshots]. *)
Lemma snapshot_cap_counterexample :
  let first :=
    addSnapshots "s"
      [addAt "2026-01-01T00:00:01.000Z"; addAt "2026-01-01T00:00:02.000Z";
       addAt "2026-01-01T00:00:03.000Z"]
      (startSession "s" (JObj []) "2026-01-01T00:00:00.000Z"
         (newManager None (Some 2) (Some emptyDb))).1 in
  let second :=
    (startSession "s" (JObj []) "2026-01-02T00:00:00.000Z"
       (newManager None (Some 2) (persistence first))).1 in
  let final := addSnapshots "s" [addAt "2026-01-02T00:00:01.000Z"] second in
  maxSnapshots final = 2 ∧
  (λ session, snap_id <$> snapshots session) <$> sessions second !! "s"
  = Some ["s:0"; "s:1"; "s:2"] ∧
  (λ session, snap_id <$> snapshots session) <$> sessions final !! "s"
  = Some ["s:1"; "s:2"; "s:3"] ∧
  ¬ (∀ session,
       sessions final !! "s" = Some session →
       Z.of_nat (length (snapshots session)) ≤ maxSnapshots final).
Proof.
  cbv zeta. split_and!; [reflexivity|vm_compute; reflexivity..|].
  intros Hcap.
  match type of Hcap with
  | ∀ session, ?m !! _ = _ → _ =>
      destruct (m !! "s") as [session|] eqn:Hs; [|by vm_compute in Hs]
  end.
  specialize (Hcap session eq_refl).
  vm_compute in Hs. injection Hs as <-. vm_compute in Hcap. by apply Hcap.
Qed.

(** C3.  After every [addSnapshot] the three totals of the summary are the
    sums of the metrics of the snapshots the log holds at that moment (the
    window left by the push and the eviction); nothing of the summary before
    the call, and so nothing of an evicted snapshot, enters them. *)
Theorem addSnapshot_summary (mgr : Manager) (sessionId : string)
  (session : Session) (excavationResult : ExcavationResult)
  (label : option string) (now : string) :
  sessions mgr !! sessionId = Some session →
  ∃ session',
    sessions (addSnapshot sessionId excavationResult label now mgr).1
      !! sessionId = Some session' ∧
    snapshots session'
    = snapshots
        (pushSnapshot (maxSnapshots mgr)
           (newSnapshot sessionId session excavationResult
              (default "default" label) now) session) ∧
    totalVirtualObjects (summary session')
    = sum_list (metrics_virtualObjects ∘ snap_metrics <$> snapshots session') ∧
    totalRelationships (summary session')
    = sum_list (metrics_relationships ∘ snap_metrics <$> snapshots session') ∧
    summary_domSheets (summary session')
    = sum_list (metrics_domSheets ∘ snap_metrics <$> snapshots session').
Proof.
  intros Hs.
  destruct (addSnapshot_session sessionId excavationResult label now mgr
              session Hs) as [_ Hs'].
  cbv zeta in Hs'. eexists. split; [exact Hs'|].
  set (pushed := pushSnapshot _ _ _).
  destruct (detectDrift_frame (_updateSummary pushed))
    as (-> & -> & -> & ->).
  destruct (updateSummary_totals pushed) as (-> & _ & -> & -> & ->).
  done.
Qed.

Lemma addSnapshot_summary_witness :
  ∃ session',
    sessions
      (addSnapshot "s"
         {| virtualObjects := []; relationships := [];
            domSheets := Some [JNull] |} None "t1"
         (startSession "s" (JObj []) "t0" (newManager None (Some 2) None)).1).1
      !! "s" = Some session' ∧
    summary_domSheets (summary session') = 1%nat.
Proof.
  destruct (addSnapshot_summary
              (startSession "s" (JObj []) "t0"
                 (newManager None (Some 2) None)).1
              "s"
              {| session_id := "s"; session_createdAt := "t0";
                 session_metadata := JObj []; snapshots := [];
                 summary :=
                   {| totalVirtualObjects := 0; totalRelationships := 0;
                      summary_domSheets := 0; driftEvents := 0 |} |}
              {| virtualObjects := []; relationships := [];
                 domSheets := Some [JNull] |} None "t1")
    as (session' & Hs & Hsnaps & _ & _ & Hsheets).
  - vm_compute. reflexivity.
  - exists session'. split; [exact Hs|].
    rewrite Hsheets, Hsnaps. reflexivity.
Defined.

(** C4.  Drift detection looks at the two most recent snapshots of the log
    as the eviction left it.  With fewer than two snapshots there is no check
    and [driftEvents] keeps its value; otherwise [driftEvents] grows by exactly
    one if and only if [|delta virtualObjects| + |delta relationships|] of
    these two is positive, and keeps its value when that score is 0.  So two
    consecutive snapshots with the same two counts never count as drift,
    whatever their results contain. *)
Theorem addSnapshot_drift (mgr : Manager) (sessionId : string)
  (session : Session) (excavationResult : ExcavationResult)
  (label : option string) (now : string) :
  sessions mgr !! sessionId = Some session →
  ∃ session',
    sessions (addSnapshot sessionId excavationResult label now mgr).1
      !! sessionId = Some session' ∧
    ((length (snapshots session') < 2)%nat →
     driftEvents (summary session') = driftEvents (summary session)) ∧
    (∀ pre prev latest,
       snapshots session' = pre ++ [prev; latest] →
       (driftEvents (summary session') = S (driftEvents (summary session))
        ↔ 0 < driftScore latest prev) ∧
       (driftEvents (summary session') = driftEvents (summary session)
        ↔ driftScore latest prev = 0) ∧
       (metrics_virtualObjects (snap_metrics latest)
        = metrics_virtualObjects (snap_metrics prev) →
        metrics_relationships (snap_metrics latest)
        = metrics_relationships (snap_metrics prev) →
        driftEvents (summary session') = driftEvents (summary session))).
Proof.
  intros Hs.
  destruct (addSnapshot_session sessionId excavationResult label now mgr
              session Hs) as [_ Hs'].
  cbv zeta in Hs'. eexists. split; [exact Hs'|].
  set (pushed := pushSnapshot _ _ _).
  assert (Hevents : driftEvents (summary (_updateSummary pushed))
                    = driftEvents (summary session)).
  { by destruct (updateSummary_totals pushed) as (_ & -> & _). }
  destruct (detectDrift_frame (_updateSummary pushed)) as (Hsnaps & _).
  cbv zeta in Hsnaps. split.
  - intros Hlen. rewrite Hsnaps in Hlen.
    by rewrite detectDrift_short.
  - intros pre prev latest Hpre. rewrite Hsnaps in Hpre.
    rewrite (detectDrift_events _ pre prev latest Hpre), Hevents.
    assert (Hnonneg : 0 ≤ driftScore latest prev) by (unfold driftScore; lia).
    destruct (Z.ltb_spec 0 (driftScore latest prev)); split_and!; try lia.
    all: intros Hvo Hrel; unfold driftScore in *; rewrite Hvo, Hrel in *; lia.
Qed.

Lemma addSnapshot_drift_witness :
  ∃ session',
    sessions
      (addSnapshot "s" oneString None "t2"
         (addSnapshot "s" oneNumber None "t1"
            (startSession "s" (JObj []) "t0"
               (newManager None None None)).1).1).1 !! "s"
    = Some session' ∧
    snap_result <$> snapshots session' = [oneNumber; oneString] ∧
    driftEvents (summary session') = 0%nat.
Proof.
  set (mgrA := (addSnapshot "s" oneNumber None "t1" _).1).
  destruct (sessions mgrA !! "s") as [session|] eqn:Hs;
    [|by vm_compute in Hs].
  destruct (addSnapshot_drift mgrA "s" session oneString None "t2" Hs)
    as (session' & Hs' & _ & Hdrift).
  vm_compute in Hs. injection Hs as <-.
  exists session'. split; [exact Hs'|].
  vm_compute in Hs'. injection Hs' as <-.
  split; [reflexivity|].
  apply (Hdrift [] _ _ eq_refl); reflexivity.
Defined.

Lemma addSnapshot_returned sessionId excavationResult label now mgr session
  snapshot :
  sessions mgr !! sessionId = Some session →
  (addSnapshot sessionId excavationResult label now mgr).2
  = Returned snapshot →
  snapshot
  = newSnapshot sessionId session excavationResult (default "default" label)
      now.
Proof.
  intros Hs. unfold addSnapshot. rewrite Hs.
  destruct (persistence mgr) as [db|]; [destruct (saveSnapshot _ _ db)|];
    cbn; congruence.
Qed.

(** C9, as the code has it.  [addSnapshot] gives the new snapshot the id
    [sessionId + ":" + n], where [n] is the length of the session's log just
    before the push.  A log that holds [n >= maxSnapshots] entries keeps its
    length under [addSnapshot], so every later [addSnapshot] that returns,
    returns a snapshot with the one id [sessionId + ":" + n]: ids repeat
    within a session as soon as eviction has begun.  When the log holds
    exactly [maxSnapshots] entries, that id is
    [sessionId + ":" + maxSnapshots].  (Without a persistence collaborator
    every call on a started session returns.) *)
Theorem addSnapshot_id :
  (∀ (mgr : Manager) (sessionId : string) (session : Session)
     (excavationResult : ExcavationResult) (label : option string)
     (now : string) (snapshot : Snapshot),
     sessions mgr !! sessionId = Some session →
     (addSnapshot sessionId excavationResult label now mgr).2
     = Returned snapshot →
     snap_id snapshot
     = sessionId +:+ ":" +:+ pretty (length (snapshots session))) ∧
  (∀ (mgr : Manager) (sessionId : string) (session : Session)
     (adds : list AddCall) (excavationResult : ExcavationResult)
     (label : option string) (now : string) (snapshot : Snapshot),
     sessions mgr !! sessionId = Some session →
     maxSnapshots mgr ≤ Z.of_nat (length (snapshots session)) →
     (addSnapshot sessionId excavationResult label now
        (addSnapshots sessionId adds mgr)).2 = Returned snapshot →
     snap_id snapshot
     = sessionId +:+ ":" +:+ pretty (length (snapshots session))) ∧
  (∀ (mgr : Manager) (sessionId : string) (session : Session)
     (adds : list AddCall) (excavationResult : ExcavationResult)
     (label : option string) (now : string) (snapshot : Snapshot),
     sessions mgr !! sessionId = Some session →
     Z.of_nat (length (snapshots session)) = maxSnapshots mgr →
     (addSnapshot sessionId excavationResult label now
        (addSnapshots sessionId adds mgr)).2 = Returned snapshot →
     snap_id snapshot
     = sessionId +:+ ":" +:+ pretty (Z.to_nat (maxSnapshots mgr))) ∧
  (∀ (mgr : Manager) (sessionId : string) (session : Session)
     (excavationResult : ExcavationResult) (label : option string)
     (now : string),
     sessions mgr !! sessionId = Some session →
     persistence mgr = None →
     (addSnapshot sessionId excavationResult label now mgr).2
     = Returned (newSnapshot sessionId session excavationResult
                   (default "default" label) now)).
Proof.
  assert (Hkeeps : ∀ (mgr : Manager) (sessionId : string) (session : Session)
            (adds : list AddCall) (excavationResult : ExcavationResult)
            (label : option string) (now : string) (snapshot : Snapshot),
            sessions mgr !! sessionId = Some session →
            maxSnapshots mgr ≤ Z.of_nat (length (snapshots session)) →
            (addSnapshot sessionId excavationResult label now
               (addSnapshots sessionId adds mgr)).2 = Returned snapshot →
            snap_id snapshot
            = sessionId +:+ ":" +:+ pretty (length (snapshots session))).
  { intros mgr sessionId session adds excavationResult label now snapshot
      Hs Hfull Hret.
    destruct (addSnapshots_invariant sessionId (maxSnapshots mgr)
                (λ s, length (snapshots s) = length (snapshots session)))
      with (adds := adds) (mgr := mgr) (session := session)
      as (session' & Hs' & Hfull' & _); try done.
    - intros s snap Hlen. rewrite added_snapshots.
      unfold pushSnapshot. cbn [setSnapshots snapshots].
      rewrite length_app. cbn [length].
      destruct (Z.ltb_spec (maxSnapshots mgr)
                  (Z.of_nat (length (snapshots s) + 1))); [|lia].
      destruct (snapshots s); cbn in *; [lia|].
      rewrite length_app. cbn. lia.
    - rewrite (addSnapshot_returned _ _ _ _ _ _ _ Hs' Hret).
      cbn [newSnapshot snap_id]. by rewrite Hfull'. }
  split_and!.
  - intros mgr sessionId session excavationResult label now snapshot Hs Hret.
    by rewrite (addSnapshot_returned _ _ _ _ _ _ _ Hs Hret).
  - exact Hkeeps.
  - intros mgr sessionId session adds excavationResult label now snapshot
      Hs Hfull Hret.
    rewrite <- Hfull, Nat2Z.id. eapply Hkeeps; [done|lia|done].
  - intros mgr sessionId session excavationResult label now Hs Hnone.
    unfold addSnapshot. by rewrite Hs, Hnone.
Qed.

Lemma addSnapshot_id_witness :
  let mgr :=
    addSnapshots "s" [addAt "t1"; addAt "t2"]
      (startSession "s" (JObj []) "t0" (newManager None (Some 2) None)).1 in
  let third :=
    (addSnapshot "s" emptyResult None "t3" mgr).2 in
  let fifth :=
    (addSnapshot "s" emptyResult None "t5"
       (addSnapshots "s" [addAt "t3"; addAt "t4"] mgr)).2 in
  (snap_id <$> match third with Returned snap => Some snap | _ => None end)
  = Some "s:2" ∧
  (snap_id <$> match fifth with Returned snap => Some snap | _ => None end)
  = Some "s:2".
Proof.
  cbv zeta.
  set (mgr := addSnapshots "s" [addAt "t1"; addAt "t2"] _).
  destruct (sessions mgr !! "s") as [session|] eqn:Hs;
    [|by vm_compute in Hs].
  assert (Hfull : Z.of_nat (length (snapshots session)) = maxSnapshots mgr).
  { vm_compute in Hs. injection Hs as <-. reflexivity. }
  split.
  - destruct (addSnapshot "s" emptyResult None "t3" mgr).2 as [snap|]
      eqn:Hret; [|by vm_compute in Hret].
    cbn [fmap option_fmap option_map]. f_equal.
    apply (proj1 (proj2 (proj2 addSnapshot_id)) mgr "s" session [] emptyResult
             None "t3" snap Hs Hfull Hret).
  - destruct (addSnapshot "s" emptyResult None "t5" _).2 as [snap|]
      eqn:Hret; [|by vm_compute in Hret].
    cbn [fmap option_fmap option_map]. f_equal.
    apply (proj1 (proj2 (proj2 addSnapshot_id)) mgr "s" session
             [addAt "t3"; addAt "t4"] emptyResult None "t5" snap Hs Hfull
             Hret).
Defined.

(** C9, as the specification states it, fails where the log holds more than
    [maxSnapshots] entries, and for a negative [maxSnapshots].  A manager with
    [maxSnapshots = 2] that starts a session of which three snapshots are
    stored holds a log of three entries (it has reached [maxSnapshots]), and
    the next [addSnapshot] returns the id [s:3], not [s:2].  A manager with
    [maxSnapshots = -1] and no persistence collaborator keeps the log of a new
    session empty, and every [addSnapshot] returns the id [s:0], not
    [s:-1]. *)
Lemma snapshot_id_counterexample :
  let stored :=
    persistence
      (addSnapshots "s" [addAt "t1"; addAt "t2"; addAt "t3"]
         (startSession "s" (JObj []) "t0"
            (newManager None (Some 2) (Some emptyDb))).1) in
  let hydrated :=
    (startSession "s" (JObj []) "t4" (newManager None (Some 2) stored)).1 in
  let negative :=
    (startSession "s" (JObj []) "t0" (newManager None (Some (-1)) None)).1 in
  let idOf := λ (out : Outcome Snapshot),
    snap_id <$> match out with Returned snap => Some snap | _ => None end in
  maxSnapshots hydrated = 2 ∧
  (λ session, length (snapshots session)) <$> sessions hydrated !! "s"
  = Some 3%nat ∧
  idOf (addSnapshot "s" emptyResult None "t5" hydrated).2 = Some "s:3" ∧
  maxSnapshots negative = -1 ∧
  (λ session, length (snapshots session)) <$> sessions negative !! "s"
  = Some 0%nat ∧
  idOf (addSnapshot "s" emptyResult None "t1" negative).2 = Some "s:0" ∧
  idOf (addSnapshot "s" emptyResult None "t2"
          (addSnapshot "s" emptyResult None "t1" negative).1).2
  = Some "s:0" ∧
  ¬ (∀ (mgr : Manager) (sessionId : string) (session : Session)
       (excavationResult : ExcavationResult) (label : option string)
       (now : string) (snapshot : Snapshot),
       sessions mgr !! sessionId = Some session →
       maxSnapshots mgr ≤ Z.of_nat (length (snapshots session)) →
       (addSnapshot sessionId excavationResult label now mgr).2
       = Returned snapshot →
       snap_id snapshot = sessionId +:+ ":" +:+ pretty (maxSnapshots mgr)).
Proof.
  cbv zeta. split_and!; [reflexivity|vm_compute; reflexivity..|].
  intros Hclaim.
  set (negative :=
         (startSession "s" (JObj []) "t0"
            (newManager None (Some (-1)) None)).1).
  destruct (sessions negative !! "s") as [session|] eqn:Hs;
    [|by vm_compute in Hs].
  destruct (addSnapshot "s" emptyResult None "t1" negative).2 as [snap|]
    eqn:Hret; [|by vm_compute in Hret].
  assert (Hreached :
            maxSnapshots negative ≤ Z.of_nat (length (snapshots session))).
  { change (maxSnapshots negative) with (-1). lia. }
  specialize (Hclaim negative "s" session emptyResult None "t1" snap Hs
                Hreached Hret).
  vm_compute in Hret. injection Hret as <-.
  vm_compute in Hclaim. discriminate Hclaim.
Qed.

End SessionManagerFacts.

(** ** The score engine *)

Module ScoreEngineFacts.
Import ScoreEngine.

Local Open Scope Q_scope.




Lemma scoreOne_scores vo engine clock :
  stability (scoreOne vo (engine, clock)).1
  = _computeStability (historyAtNovelty vo engine) ∧
  novelty (scoreOne vo (engine, clock)).1
  = (_computeNovelty (historyAtNovelty vo engine) clock).1.
Proof.
  unfold scoreOne, historyAtNovelty.
  destruct (_getHistory (_makeKey vo) engine) as [hist engine'].
  destruct (_computeNovelty hist clock) as [nov clock'] eqn:Hnov.
  destruct (_updateHistory _ _). cbn. rewrite ?Hnov. by split.
Qed.


Local Close Scope Q_scope.

Lemma getHistory_spec key engine :
  let hist := default [] (objectHistory engine !! key) in
  _getHistory key engine
  = (hist, {| historyWindow := historyWindow engine;
              objectHistory := <[key := hist]> (objectHistory engine) |}).
Proof.
  unfold _getHistory. destruct (objectHistory engine !! key) as [hist|] eqn:Hk.
  - cbn. rewrite insert_id by done. by destruct engine.
  - done.
Qed.

Lemma updateHistory_spec key engine clock :
  let st' := _updateHistory key (engine, clock) in
  historyWindow st'.1 = historyWindow engine ∧
  ∃ hist',
    objectHistory st'.1 = <[key := hist']> (objectHistory engine) ∧
    (1 ≤ historyWindow engine → hist' ≠ []).
Proof.
  unfold _updateHistory. rewrite getHistory_spec. cbn.
  split; [done|]. eexists. split; [apply insert_insert_eq|].
  intros Hw.
  destruct (default [] (objectHistory engine !! key)) as [|t hist]; cbn.
  - by destruct (Z.ltb_spec (historyWindow engine) (Z.of_nat 1)); [lia|].
  - destruct (_ <? _); [|done]. by destruct hist.
Qed.

Lemma scoreOne_spec vo engine clock :
  let st' := (scoreOne vo (engine, clock)).2 in
  historyWindow st'.1 = historyWindow engine ∧
  ∃ hist',
    objectHistory st'.1 = <[_makeKey vo := hist']> (objectHistory engine) ∧
    (1 ≤ historyWindow engine → hist' ≠ []).
Proof.
  unfold scoreOne. rewrite getHistory_spec.
  destruct (_computeNovelty _ clock) as [nov clock'].
  set (engine' := {| historyWindow := historyWindow engine |}).
  destruct (updateHistory_spec (_makeKey vo) engine' clock')
    as (Hw & hist' & Hh & Hne).
  destruct (_updateHistory _ _) as [engine'' clock'']. cbn in *.
  split; [done|]. exists hist'. split; [|done].
  rewrite Hh. apply insert_insert_eq.
Qed.

Lemma scoreAll_cons vo vos st :
  scoreAll (vo :: vos) st
  = ((scoreOne vo st).1 :: (scoreAll vos (scoreOne vo st).2).1,
     (scoreAll vos (scoreOne vo st).2).2).
Proof.
  cbn [scoreAll]. destruct (scoreOne vo st) as [score st']. cbn [fst snd].
  by destruct (scoreAll vos st').
Qed.

Lemma scoreAll_spec pre engine clock :
  1 ≤ historyWindow engine → observed engine →
  let st' := (scoreAll pre (engine, clock)).2 in
  historyWindow st'.1 = historyWindow engine ∧
  observed st'.1 ∧
  ∀ key, objectHistory st'.1 !! key = None
         ↔ objectHistory engine !! key = None ∧ key ∉ _makeKey <$> pre.
Proof.
  revert engine clock. induction pre as [|vo pre IH];
    intros engine clock Hw Hobs.
  - cbn. split_and!; [done..|]. intros key. split; [|by intros []].
    intros Hk. split; [done|]. by intros ?%elem_of_nil.
  - rewrite scoreAll_cons. cbn [snd].
    destruct (scoreOne_spec vo engine clock) as (Hw' & hist' & Hh & Hne).
    destruct (scoreOne vo (engine, clock)).2 as [engine' clock'] eqn:Hst.
    cbn [fst] in *.
    assert (Hobs' : observed engine').
    { intros key hist. rewrite Hh.
      destruct (decide (key = _makeKey vo)) as [->|Hneq].
      - rewrite lookup_insert_eq. intros [= <-]. by apply Hne.
      - rewrite lookup_insert_ne by done. apply Hobs. }
    destruct (IH engine' clock' ltac:(lia) Hobs') as (Hw'' & Hobs'' & Hkeys).
    split_and!; [congruence|done|].
    intros key. rewrite Hkeys, Hh, fmap_cons, not_elem_of_cons.
    destruct (decide (key = _makeKey vo)) as [->|Hneq].
    + rewrite lookup_insert_eq. intuition congruence.
    + rewrite lookup_insert_ne by done. intuition congruence.
Qed.

Lemma historyAtNovelty_empty vo engine :
  observed engine →
  historyAtNovelty vo engine = []
  ↔ objectHistory engine !! _makeKey vo = None.
Proof.
  intros Hobs. unfold historyAtNovelty. rewrite getHistory_spec. cbn.
  destruct (objectHistory engine !! _makeKey vo) as [hist|] eqn:Hk; cbn.
  - split; [|done]. intros ->. by destruct (Hobs _ _ Hk).
  - done.
Qed.

(** C5, as the code has it.  The empty-history branch of [_computeNovelty] is
    reached: [_getHistory] creates an empty history for a key it has not seen,
    and novelty is computed from it before the observation is appended.  For
    an engine with [historyWindow >= 1] whose recorded histories are all
    non-empty (a new engine has none, and scoring keeps this), the history
    passed to [_computeNovelty] for a virtual object is empty exactly when its
    identity key has never been scored before, by an earlier call or earlier
    in this snapshot; its novelty is then 0.5. *)
Theorem novelty_empty_history_on_first_sighting
  (engine : Engine) (clock : Clock) (pre post : list VirtualObject)
  (vo : VirtualObject) :
  1 ≤ historyWindow engine → observed engine →
  let st := (scoreAll pre (engine, clock)).2 in
  (scoreAll (pre ++ vo :: post) (engine, clock)).1 !! length pre
  = Some (scoreOne vo st).1 ∧
  novelty (scoreOne vo st).1
  = (_computeNovelty (historyAtNovelty vo st.1) st.2).1 ∧
  (historyAtNovelty vo st.1 = []
   ↔ objectHistory engine !! _makeKey vo = None ∧
     _makeKey vo ∉ _makeKey <$> pre) ∧
  (historyAtNovelty vo st.1 = [] → novelty (scoreOne vo st).1 = (5 # 10)%Q) ∧
  observed (scoreAll (pre ++ vo :: post) (engine, clock)).2.1.
Proof.
  intros Hw Hobs st.
  destruct (scoreAll_spec pre engine clock Hw Hobs) as (Hw' & Hobs' & Hkeys).
  fold st in Hw', Hobs', Hkeys.
  assert (Hnov : novelty (scoreOne vo st).1
                 = (_computeNovelty (historyAtNovelty vo st.1) st.2).1).
  { destruct st as [engine' clock']. apply scoreOne_scores. }
  split_and!.
  - clear. subst st. revert engine clock.
    induction pre as [|vo' pre IH]; intros engine clock.
    + cbn [app length]. by rewrite scoreAll_cons.
    + cbn [app length]. rewrite !scoreAll_cons. cbn [lookup list_lookup snd].
      destruct (scoreOne vo' (engine, clock)).2 as [engine' clock'].
      apply IH.
  - exact Hnov.
  - rewrite historyAtNovelty_empty by done. apply Hkeys.
  - intros Hempty. by rewrite Hnov, Hempty.
  - by destruct (scoreAll_spec (pre ++ vo :: post) engine clock Hw Hobs)
      as (_ & ? & _).
Qed.

Lemma observed_newEngine optHistoryWindow :
  observed (newEngine optHistoryWindow).
Proof. intros key hist Hk. cbn in Hk. by rewrite lookup_empty in Hk. Qed.

Lemma novelty_empty_history_on_first_sighting_witness :
  let vo := Excavator.valueVO "vo_1" "#" "number" (JNum 5) in
  (scoreAll [vo; vo] (newEngine None, tickingClock)).1 !! 0%nat
  = Some (scoreOne vo (newEngine None, tickingClock)).1 ∧
  novelty (scoreOne vo (newEngine None, tickingClock)).1 = (5 # 10)%Q.
Proof.
  cbv zeta.
  destruct (novelty_empty_history_on_first_sighting (newEngine None)
              tickingClock []
              [Excavator.valueVO "vo_1" "#" "number" (JNum 5)]
              (Excavator.valueVO "vo_1" "#" "number" (JNum 5)))
    as (Hscore & _ & _ & Hhalf & _).
  - vm_compute. discriminate.
  - apply observed_newEngine.
  - split; [exact Hscore|]. apply Hhalf. vm_compute. reflexivity.
Defined.

(** C5, as the specification states it, fails.  A new engine scores the
    result of [excavate({"value": 5})]: the history of the key of its one
    virtual object is empty when novelty is computed, and the score carries
    the novelty 0.5 of the empty-history branch; scored again, the same object
    gets 1.0, the novelty of a history of length one. *)
Lemma novelty_empty_history_counterexample :
  let vos :=
    virtualObjects (Excavator.excavate 6 8 (JObj [("value", JNum 5)]) 0).1 in
  let first := scoreSnapshot (snapshotOf vos) (newEngine None, tickingClock) in
  let second := scoreSnapshot (snapshotOf vos) first.2 in
  (λ vo, historyAtNovelty vo (newEngine None)) <$> vos = [[]] ∧
  novelty <$> first.1 = [(5 # 10)%Q] ∧
  novelty <$> second.1 = [1%Q] ∧
  ¬ (∀ (engine : Engine) (clock : Clock) (pre : list VirtualObject)
       (vo : VirtualObject),
       historyAtNovelty vo (scoreAll pre (engine, clock)).2.1 ≠ []).
Proof.
  cbv zeta. split_and!; [vm_compute; reflexivity..|].
  intros Hclaim.
  apply (Hclaim (newEngine None) tickingClock []
           (Excavator.valueVO "vo_1" "#" "number" (JNum 5))).
  vm_compute. reflexivity.
Qed.

End ScoreEngineFacts.

(** ** The two-pass engine *)

Module MultiPassFacts.
Import MultiPass.

Section RunFacts.

Context {Input Result Region World : Type}.

Local Abbreviation Callback := (@Callback World).
Local Abbreviation Run := (@Run Input Result Region World).
Local Abbreviation RunState := (RunState Input Result Region World).

Implicit Types (st : RunState) (input : Input) (region : Region).

Lemma bind_returned {A B} (m : Run A) (k : A → Run B) st b st' :
  Run_bind A B k m st = (Returned b, st') →
  ∃ a st1, m st = (Returned a, st1) ∧ k a st1 = (Returned b, st').
Proof.
  unfold Run_bind. destruct (m st) as [[a|message] st1]; [|done].
  intros Hk. by exists a, st1.
Qed.

Lemma invoke_returned {A} event (f : Callback A) st a st1 :
  invoke event f st = (Returned a, st1) →
  f (world st) = (Returned a, world st1) ∧ trace st1 = trace st ++ [event].
Proof.
  unfold invoke. destruct (f (world st)) as [outcome w].
  intros [= -> <-]. done.
Qed.

Lemma forEachRegion_returned
  (deepFn : Input → Region → Callback Result) input regions acc st res st' :
  forEachRegion deepFn input regions acc st = (Returned res, st') →
  ∃ results,
    res = acc ++ results ∧
    results.*1 = regions ∧
    DeepCalls deepFn input (world st) regions results (world st') ∧
    trace st' = trace st ++ (DeepCall input <$> regions).
Proof.
  revert acc st. induction regions as [|region rest IH]; intros acc st.
  - cbn. intros [= <- <-]. exists []. rewrite !app_nil_r.
    split_and!; [done..|constructor|done].
  - cbn [forEachRegion]. intros Hrun.
    apply bind_returned in Hrun as (deep & st1 & Hdeep & Hrest).
    apply invoke_returned in Hdeep as [Hdeep Htrace].
    apply IH in Hrest as (results & -> & Hfst & Hcalls & Htrace').
    exists ((region, deep) :: results). split_and!.
    + by rewrite <- app_assoc.
    + cbn. by rewrite Hfst.
    + by econstructor.
    + rewrite Htrace', Htrace. cbn. by rewrite <- app_assoc.
Qed.

Lemma forEachRegion_total
  (deepFn : Input → Region → Callback Result) input regions acc st :
  (∀ region w, ∃ deep w', deepFn input region w = (Returned deep, w')) →
  ∃ res st', forEachRegion deepFn input regions acc st = (Returned res, st').
Proof.
  intros Htotal. revert acc st.
  induction regions as [|region rest IH]; intros acc st.
  - by eexists _, _.
  - cbn [forEachRegion]. unfold mbind, Run_bind, invoke.
    destruct (Htotal region (world st)) as (deep & w' & ->). apply IH.
Qed.

Lemma shallow_calls_once input (middle : list (Event Input Result Region))
  (regions : list Region) :
  Forall (λ event, isShallowCall event = false) middle →
  length (filter (λ event, isShallowCall event = true)
            ([ShallowCall input] ++ middle ++ (DeepCall input <$> regions)))
  = 1%nat.
Proof.
  intros Hmiddle. cbn [app]. rewrite filter_cons_True by done.
  rewrite filter_app. cbn [length]. f_equal.
  rewrite length_app.
  assert (Hnone : ∀ l : list (Event Input Result Region),
            Forall (λ event, isShallowCall event = false) l →
            filter (λ event, isShallowCall event = true) l = []).
  { induction 1 as [|event l Hevent _ IHl]; [done|].
    rewrite filter_cons_False by congruence. done. }
  rewrite !Hnone; [done| |done].
  apply Forall_fmap. by apply Forall_true.
Qed.

(** C8, as the code has it: the region cap for [maxDeepRegions >= 0].  A
    run that returns has called [shallowFn(input)] exactly once, first; when the selector
    returned [n] regions, [deepResults] has [min(n, maxDeepRegions)] entries,
    one per region of the first [maxDeepRegions], in the selector's order, each
    pairing the region with what [deepFn(input, region)] returned, the calls
    made in that order; later regions are dropped, and without a selector
    [deepResults] is empty.  A run whose callbacks all return, returns.  With
    [maxDeepRegions = 1] and a selector returning three regions, [deepResults]
    is the one entry of the first region. *)
Theorem run_region_cap :
  (∀ (maxDeepRegions : Z) (input : Input)
     (shallowFn : Input → Callback Result)
     (deepFn : Input → Region → Callback Result)
     (regionSelector : option (Result → Callback (list Region)))
     (st st' : RunState) (res : RunResult Result Region),
     0 ≤ maxDeepRegions →
     run maxDeepRegions input shallowFn deepFn regionSelector st
     = (Returned res, st') →
     ∃ (w1 w2 : World) (regions : list Region),
       shallowFn input (world st) = (Returned (shallowResult res), w1) ∧
       match regionSelector with
       | Some selector =>
           selector (shallowResult res) w1 = (Returned regions, w2)
       | None => regions = [] ∧ w2 = w1
       end ∧
       let kept := take (Z.to_nat maxDeepRegions) regions in
       length (deepResults res)
       = (length regions `min` Z.to_nat maxDeepRegions)%nat ∧
       (deepResults res).*1 = kept ∧
       DeepCalls deepFn input w2 kept (deepResults res) (world st') ∧
       ∃ new,
         trace st' = trace st ++ new ∧
         new = [ShallowCall input]
               ++ match regionSelector with
                  | Some _ => [SelectorCall (shallowResult res)]
                  | None => []
                  end
               ++ (DeepCall input <$> kept) ∧
         length (filter (λ event, isShallowCall event = true) new) = 1%nat) ∧
  (∀ (maxDeepRegions : Z) (input : Input)
     (shallowFn : Input → Callback Result)
     (deepFn : Input → Region → Callback Result)
     (regionSelector : option (Result → Callback (list Region)))
     (st : RunState),
     (∀ w, ∃ shallow w', shallowFn input w = (Returned shallow, w')) →
     (∀ region w, ∃ deep w', deepFn input region w = (Returned deep, w')) →
     (∀ selector shallow w,
        regionSelector = Some selector →
        ∃ regions w', selector shallow w = (Returned regions, w')) →
     ∃ res st',
       run maxDeepRegions input shallowFn deepFn regionSelector st
       = (Returned res, st')) ∧
  (∀ (input : Input)
     (shallowFn : Input → Callback Result)
     (deepFn : Input → Region → Callback Result)
     (selector : Result → Callback (list Region))
     (st : RunState) (shallow deepA : Result) (regionA regionB regionC : Region)
     (w1 w2 w3 : World),
     shallowFn input (world st) = (Returned shallow, w1) →
     selector shallow w1 = (Returned [regionA; regionB; regionC], w2) →
     deepFn input regionA w2 = (Returned deepA, w3) →
     run 1 input shallowFn deepFn (Some selector) st
     = (Returned {| shallowResult := shallow;
                    deepResults := [(regionA, deepA)] |},
        {| world := w3;
           trace := trace st ++ [ShallowCall input; SelectorCall shallow;
                                 DeepCall input regionA] |})).
Proof.
  split_and!.
  - intros maxDeepRegions input shallowFn deepFn regionSelector st st' res
      Hcap Hrun.
    unfold run in Hrun.
    apply bind_returned in Hrun as (shallow & st1 & Hshallow & Hrun).
    apply invoke_returned in Hshallow as [Hshallow Htrace1].
    apply bind_returned in Hrun as (regions & st2 & Hregions & Hrun).
    cbv zeta in Hrun.
    apply bind_returned in Hrun as (deeps & st3 & Hdeeps & Hret).
    injection Hret as <- <-.
    apply forEachRegion_returned in Hdeeps
      as (results & -> & Hfst & Hcalls & Htrace3).
    rewrite slice0_nonneg in Hfst, Hcalls, Htrace3 by done.
    cbn [shallowResult deepResults app].
    exists (world st1), (world st2), regions. split; [done|].
    assert (Hsel : match regionSelector with
                   | Some selector =>
                       selector shallow (world st1)
                       = (Returned regions, world st2)
                   | None => regions = [] ∧ world st2 = world st1
                   end ∧
                   trace st2
                   = trace st1 ++ match regionSelector with
                                  | Some _ => [SelectorCall shallow]
                                  | None => []
                                  end).
    { destruct regionSelector as [selector|].
      - by apply invoke_returned in Hregions.
      - injection Hregions as <- <-. by rewrite app_nil_r. }
    destruct Hsel as [Hsel Htrace2]. split; [done|]. split_and!.
    + rewrite <- (length_fmap fst), Hfst, length_take. lia.
    + done.
    + done.
    + eexists. split_and!; [|reflexivity|].
      * rewrite Htrace3, Htrace2, Htrace1. by rewrite <- !app_assoc.
      * apply shallow_calls_once. by destruct regionSelector; repeat constructor.
  - intros maxDeepRegions input shallowFn deepFn regionSelector st
      Hshallow Hdeep Hselector.
    unfold run.
    destruct regionSelector as [selector|];
      unfold mbind, mret, Run_bind, Run_ret, invoke;
      destruct (Hshallow (world st)) as (shallow & w1 & ->);
      cbn [world trace].
    + destruct (Hselector selector shallow w1 eq_refl)
        as (regions & w2 & ->).
      match goal with
      | |- context [forEachRegion deepFn input ?rs [] ?st2] =>
          destruct (forEachRegion_total deepFn input rs [] st2 Hdeep)
            as (deeps & st3 & ->)
      end.
      by eexists _, _.
    + match goal with
      | |- context [forEachRegion deepFn input ?rs [] ?st2] =>
          destruct (forEachRegion_total deepFn input rs [] st2 Hdeep)
            as (deeps & st3 & ->)
      end.
      by eexists _, _.
  - intros input shallowFn deepFn selector st shallow deepA
      regionA regionB regionC w1 w2 w3 Hshallow Hselector Hdeep.
    unfold run, mbind, Run_bind, invoke. rewrite Hshallow. cbn [world trace].
    rewrite Hselector. cbn [world trace].
    change (slice0 1 [regionA; regionB; regionC]) with [regionA].
    cbn [forEachRegion]. unfold mbind, mret, Run_bind, Run_ret, invoke.
    cbn [world trace]. rewrite Hdeep. cbn [app].
    by rewrite <- !app_assoc.
Qed.

End RunFacts.

(** A run over the excavator: the world is the id counter, the shallow pass
    excavates to depth 1, the selector names three regions, and the deep pass
    excavates to depth 6. *)
Lemma run_region_cap_witness :
  ∃ (res : RunResult ExcavationResult string)
    (st' : RunState JValue ExcavationResult string nat),
    run 1 (JObj [("a", JNum 1)])
      (λ input n,
         let out := Excavator.excavate 1 8 input n in
         (Returned out.1, Excavator.nextId out.2))
      (λ input region n,
         let out := Excavator.excavate 6 8 input n in
         (Returned out.1, Excavator.nextId out.2))
      (Some (λ shallow n, (Returned ["#.a"; "#.b"; "#.c"], n)))
      {| world := 0%nat; trace := [] |}
    = (Returned res, st') ∧
    length (deepResults res) = 1%nat ∧
    (deepResults res).*1 = ["#.a"].
Proof.
  set (shallowFn := λ (input : JValue) (n : nat),
         let out := Excavator.excavate 1 8 input n in
         (Returned out.1, Excavator.nextId out.2)).
  set (deepFn := λ (input : JValue) (region : string) (n : nat),
         let out := Excavator.excavate 6 8 input n in
         (Returned out.1, Excavator.nextId out.2)).
  set (selector := λ (shallow : ExcavationResult) (n : nat),
         (Returned ["#.a"; "#.b"; "#.c"], n)).
  destruct (run 1 (JObj [("a", JNum 1)]) shallowFn deepFn (Some selector)
              {| world := 0%nat; trace := [] |}) as [[res|message] st']
    eqn:Hrun; [|by vm_compute in Hrun].
  exists res, st'. split; [done|].
  destruct (proj1 run_region_cap 1 (JObj [("a", JNum 1)]) shallowFn deepFn
              (Some selector) _ _ _ ltac:(lia) Hrun)
    as (w1 & w2 & regions & _ & Hsel & Hlen & Hfst & _).
  injection Hsel as <- _. split; [exact Hlen|exact Hfst].
Defined.

(** C8, as the specification states it, fails for a negative cap.
    [slice(0, maxDeepRegions)] counts a negative end from the end of the
    list: with [maxDeepRegions = -1] and a selector returning three regions
    the run makes two deep calls and [deepResults] has the two entries of the
    first two regions, where the claim has [min(3, -1)] entries. *)
Lemma region_cap_counterexample :
  let shallowFn := λ (input : JValue) (n : nat),
    (Returned (JStr "shallow"), S n) in
  let deepFn := λ (input : JValue) (region : string) (n : nat),
    (Returned (JStr region), S n) in
  let selector := λ (shallow : JValue) (n : nat),
    (Returned ["#.a"; "#.b"; "#.c"], n) in
  let start := {| world := 0%nat; trace := [] |} in
  run (-1) JNull shallowFn deepFn (Some selector) start
  = (Returned {| shallowResult := JStr "shallow";
                 deepResults := [("#.a", JStr "#.a"); ("#.b", JStr "#.b")] |},
     {| world := 3%nat;
        trace := [ShallowCall JNull; SelectorCall (JStr "shallow");
                  DeepCall JNull "#.a"; DeepCall JNull "#.b"] |}) ∧
  ¬ (∀ (maxDeepRegions : Z) (input : JValue)
       (shallowFn : JValue → @Callback nat JValue)
       (deepFn : JValue → string → @Callback nat JValue)
       (selector : JValue → @Callback nat (list string))
       (st st' : RunState JValue JValue string nat)
       (res : RunResult JValue string) (regions : list string)
       (w1 w2 : nat),
       run maxDeepRegions input shallowFn deepFn (Some selector) st
       = (Returned res, st') →
       shallowFn input (world st) = (Returned (shallowResult res), w1) →
       selector (shallowResult res) w1 = (Returned regions, w2) →
       Z.of_nat (length (deepResults res))
       = Z.of_nat (length regions) `min` maxDeepRegions).
Proof.
  cbv zeta. split; [vm_compute; reflexivity|].
  intros Hclaim.
  specialize (Hclaim (-1) JNull
                (λ input n, (Returned (JStr "shallow"), S n))
                (λ input region n, (Returned (JStr region), S n))
                (λ shallow n, (Returned ["#.a"; "#.b"; "#.c"], n))
                {| world := 0%nat; trace := [] |} _ _
                ["#.a"; "#.b"; "#.c"] 1%nat 1%nat eq_refl eq_refl eq_refl).
  vm_compute in Hclaim. discriminate Hclaim.
Qed.

End MultiPassFacts.

(** * Further properties of the code *)

(** ** The excavator *)

(** [slice(0, end)] with a negative [end] leaves out the last [-end]
    elements. *)
Lemma slice0_neg {A} (k : Z) (arr : list A) :
  k < 0 → slice0 k arr = take (length arr - Z.to_nat (- k)) arr.
Proof.
  intros Hk. unfold slice0.
  destruct (Z.ltb_spec k 0) as [_|?]; [|lia].
  f_equal. lia.
Qed.

Module ExcavatorExtras.
Import Excavator ExcavatorFacts.

Lemma length_substring0 (n : nat) (s : string) :
  String.length (String.substring 0 n s) = (n `min` String.length s)%nat.
Proof.
  revert s. induction n as [|n IH]; intros [|c s]; simpl; try done.
  by f_equal.
Qed.

Lemma length_append (s1 s2 : string) :
  String.length (s1 +:+ s2) = (String.length s1 + String.length s2)%nat.
Proof. induction s1 as [|c s1 IH]; simpl; [done|]. by f_equal. Qed.

Lemma substring0_append (n : nat) (s1 s2 : string) :
  String.length s1 = n → String.substring 0 n (s1 +:+ s2) = s1.
Proof.
  revert n. induction s1 as [|c s1 IH]; intros [|n] Hlen; simpl in *;
    try done.
  - by destruct s2.
  - f_equal. apply IH. lia.
Qed.

Lemma substring_append_rest (n m : nat) (s1 s2 : string) :
  String.length s1 = n → String.length s2 = m →
  String.substring n m (s1 +:+ s2) = s2.
Proof.
  revert n. induction s1 as [|c s1 IH]; intros [|n] Hlen Hm; simpl in *;
    try done.
  - subst m. clear. induction s2 as [|c s2 IH]; simpl; [done|]. by f_equal.
  - apply IH; [lia|done].
Qed.

(** X1.  The preview of a value is the value itself for null, numbers and
    booleans and null for everything that is not a string; the preview of a
    string is a string of at most 64 characters: the string itself when it has
    at most 64, and otherwise its first 61 characters followed by three
    dots. *)
Theorem preview_bounded :
  (∀ v : JValue,
     match v with
     | JNull | JNum _ | JBool _ => _preview v = v
     | JStr _ => True
     | _ => _preview v = JNull
     end) ∧
  (∀ s : string,
     ∃ p : string,
       _preview (JStr s) = JStr p ∧
       (String.length p ≤ 64)%nat ∧
       ((String.length s ≤ 64)%nat → p = s) ∧
       ((64 < String.length s)%nat →
        String.length p = 64%nat ∧
        String.substring 0 61 p = String.substring 0 61 s ∧
        String.substring 61 3 p = "...")).
Proof.
  split.
  - by intros [].
  - intros s. cbn [_preview].
    destruct (Nat.leb_spec (String.length s) 64) as [Hle|Hgt].
    + exists s. split_and!; [done..|lia].
    + eexists. split; [done|].
      assert (Hlen : String.length (String.substring 0 61 s) = 61%nat).
      { rewrite length_substring0. lia. }
      split_and!.
      * rewrite length_append, Hlen. cbn. lia.
      * lia.
      * intros _. split_and!.
        -- rewrite length_append, Hlen. done.
        -- by apply substring0_append.
        -- by apply substring_append_rest.
Qed.

Lemma obj_get_set_eq {A} (k : string) (x : A) (o : list (string * A)) :
  obj_get k (obj_set k x o) = Some x.
Proof.
  induction o as [|[k' x'] o IH]; cbn.
  - by rewrite String.eqb_refl.
  - destruct (String.eqb_spec k k') as [->|Hne]; cbn.
    + by rewrite String.eqb_refl.
    + by destruct (String.eqb_spec k k').
Qed.

Lemma obj_get_set_ne {A} (k k' : string) (x : A) (o : list (string * A)) :
  k' ≠ k → obj_get k' (obj_set k x o) = obj_get k' o.
Proof.
  intros Hne. induction o as [|[k0 x0] o IH]; cbn.
  - by destruct (String.eqb_spec k' k).
  - destruct (String.eqb_spec k k0) as [->|Hne0]; cbn.
    + by destruct (String.eqb_spec k' k0).
    + by rewrite IH.
Qed.

Lemma obj_get_None {A} (k : string) (o : list (string * A)) :
  obj_get k o = None ↔ k ∉ o.*1.
Proof.
  induction o as [|[k' x'] o IH]; cbn.
  - split; [intros _ ?%elem_of_nil|]; done.
  - rewrite not_elem_of_cons.
    destruct (String.eqb_spec k k') as [->|Hne]; [|rewrite IH]; split;
      try done; try tauto.
Qed.

Lemma obj_set_fresh {A} (k : string) (x : A) (o : list (string * A)) :
  k ∉ o.*1 → obj_set k x o = o ++ [(k, x)].
Proof.
  induction o as [|[k' x'] o IH]; cbn; [done|].
  rewrite not_elem_of_cons. intros [Hne Hnotin].
  destruct (String.eqb_spec k k'); [done|]. by rewrite IH.
Qed.

Lemma obj_set_keys {A} (k : string) (x : A) (o : list (string * A)) :
  (obj_set k x o).*1 = if decide (k ∈ o.*1) then o.*1 else o.*1 ++ [k].
Proof.
  induction o as [|[k' x'] o IH]; cbn.
  - by rewrite decide_False by apply not_elem_of_nil.
  - destruct (String.eqb_spec k k') as [->|Hne]; cbn.
    + by rewrite decide_True by left.
    + rewrite IH. destruct (decide (k ∈ o.*1)).
      * by rewrite decide_True by by right.
      * rewrite decide_False; [done|]. by apply not_elem_of_cons.
Qed.

Lemma obj_set_sum (k : string) (o : list (string * nat)) :
  sum_list (obj_set k (default 0 (obj_get k o) + 1)%nat o).*2
  = S (sum_list o.*2).
Proof.
  induction o as [|[k' x'] o IH]; cbn; [done|].
  destruct (String.eqb_spec k k'); cbn; [lia|]. rewrite IH. lia.
Qed.

Lemma histogram_step (sampled : list JValue) (acc : list (string * nat)) :
  let h :=
    fold_left
      (λ elementTypes el,
         let et := _typeOf el in
         obj_set et (default 0 (obj_get et elementTypes) + 1)%nat
           elementTypes)
      sampled acc in
  (∀ t, default 0%nat (obj_get t h)
        = (default 0 (obj_get t acc)
           + length (filter (λ el, _typeOf el = t) sampled))%nat) ∧
  sum_list h.*2 = (sum_list acc.*2 + length sampled)%nat ∧
  (NoDup acc.*1 → NoDup h.*1).
Proof.
  revert acc.
  induction sampled as [|el sampled IH]; intros acc; cbn [fold_left];
    cbv zeta.
  - cbn. split_and!; [intros t; lia|lia|done].
  - specialize (IH (obj_set (_typeOf el)
                      (default 0 (obj_get (_typeOf el) acc) + 1)%nat acc)).
    cbv zeta in IH. destruct IH as (Hget & Hsum & Hnd).
    split_and!.
    + intros t. rewrite Hget. rewrite filter_cons.
      destruct (decide (_typeOf el = t)) as [<-|Hne].
      * rewrite obj_get_set_eq. cbn. lia.
      * rewrite obj_get_set_ne by done. lia.
    + rewrite Hsum, obj_set_sum. cbn. lia.
    + intros Hacc. apply Hnd. rewrite obj_set_keys.
      destruct (decide _) as [|Hnotin]; [done|].
      apply NoDup_app. split_and!; [done| |apply NoDup_singleton].
      intros t Ht ->%list_elem_of_singleton. done.
Qed.

(** X2.  The [elementTypes] histogram of an array node gives, for every type
    name, the number of sampled elements of that type (an absent name counting
    for 0); its names are pairwise distinct and its counts add up to the size
    of the sample. *)
Theorem histogram_counts (sampled : list JValue) :
  (∀ t : string,
     default 0%nat (obj_get t (histogram sampled))
     = length (filter (λ el, _typeOf el = t) sampled)) ∧
  NoDup (histogram sampled).*1 ∧
  sum_list (histogram sampled).*2 = length sampled.
Proof.
  destruct (histogram_step sampled []) as (Hget & Hsum & Hnd).
  split_and!.
  - intros t. apply Hget.
  - apply Hnd. constructor.
  - apply Hsum.
Qed.

Lemma fieldTypes_step (entries : list (string * JValue))
  (acc : list (string * string)) :
  NoDup (acc.*1 ++ entries.*1) →
  fold_left
    (λ fields kv,
       if String.eqb kv.1 "__proto__" then fields
       else obj_set kv.1 (_typeOf kv.2) fields)
    entries acc
  = acc ++ ((λ kv, (kv.1, _typeOf kv.2))
            <$> filter (λ kv, kv.1 ≠ "__proto__") entries).
Proof.
  revert acc.
  induction entries as [|[k v] entries IH]; intros acc Hnd; cbn [fold_left].
  - cbn. by rewrite app_nil_r.
  - apply NoDup_app in Hnd as (Hacc & Hdisj & Hent).
    rewrite fmap_cons in Hent, Hdisj. apply NoDup_cons in Hent as [Hk Hent].
    rewrite filter_cons. cbn.
    destruct (String.eqb_spec k "__proto__") as [->|Hne].
    + rewrite decide_False by (intros ?; done). apply IH.
      apply NoDup_app. split_and!; [done| |done].
      intros x Hx Hx'. apply (Hdisj x Hx). by right.
    + rewrite decide_True by done. rewrite fmap_cons. cbn.
      rewrite obj_set_fresh.
      * rewrite IH; [by rewrite <- app_assoc|].
        rewrite fmap_app. cbn. rewrite <- app_assoc. cbn.
        apply NoDup_app. split_and!; [done| |by apply NoDup_cons].
        intros x Hx Hx'. by apply (Hdisj x Hx).
      * intros Hin. apply (Hdisj k Hin). left.
Qed.

(** X3.  The [fields] map of an object node never has the key [__proto__];
    for an object (its keys are pairwise distinct) it maps every other key, in
    the order of the entries, to the type name of the key's own value. *)
Theorem fieldTypes_of_entries :
  (∀ entries : list (string * JValue),
     "__proto__" ∉ (fieldTypes entries).*1) ∧
  (∀ entries : list (string * JValue),
     NoDup entries.*1 →
     fieldTypes entries
     = (λ kv, (kv.1, _typeOf kv.2))
       <$> filter (λ kv, kv.1 ≠ "__proto__") entries).
Proof.
  split.
  - intros entries. unfold fieldTypes.
    assert (Hgen : ∀ acc : list (string * string),
              "__proto__" ∉ acc.*1 →
              "__proto__" ∉
                (fold_left
                   (λ fields kv,
                      if String.eqb kv.1 "__proto__" then fields
                      else obj_set kv.1 (_typeOf kv.2) fields)
                   entries acc).*1).
    { induction entries as [|[k v] entries IH]; intros acc Hacc; cbn;
        [done|].
      destruct (String.eqb_spec k "__proto__") as [->|Hne]; [by apply IH|].
      apply IH. rewrite obj_set_keys.
      destruct (decide _); [done|].
      rewrite elem_of_app, list_elem_of_singleton.
      intros [Hin|Heq]; [by apply Hacc|by apply Hne]. }
    apply Hgen, not_elem_of_nil.
  - intros entries Hnd. unfold fieldTypes.
    by rewrite fieldTypes_step.
Qed.

Lemma fieldTypes_of_entries_witness :
  fieldTypes [("a", JNum 1); ("__proto__", JStr "x"); ("b", JArr [])]
  = [("a", "number"); ("b", "array")].
Proof.
  apply (proj2 fieldTypes_of_entries
           [("a", JNum 1); ("__proto__", JStr "x"); ("b", JArr [])]).
  cbn. repeat constructor; rewrite ?not_elem_of_cons;
    split_and?; try done; apply not_elem_of_nil.
Defined.

Lemma block_vo_ids maxDepth maxArraySample a b C V R :
  Block maxDepth maxArraySample a b C V R →
  vo_id <$> V
  = call_id <$> filter (λ c, within maxDepth c = true) C.
Proof.
  intros HB. rewrite (blk_vos _ _ _ _ _ _ _ HB).
  rewrite <- list_fmap_compose. apply list_fmap_ext.
  intros i c _. apply emittedVO_id.
Qed.

Lemma block_vo_range maxDepth maxArraySample a b C V R vo :
  Block maxDepth maxArraySample a b C V R → vo ∈ V →
  ∃ m, (a ≤ m ≤ b)%nat ∧ vo_id vo = idOf m.
Proof.
  intros HB Hvo.
  assert (Hin : vo_id vo ∈ vo_id <$> V) by by apply list_elem_of_fmap_2.
  rewrite (block_vo_ids _ _ _ _ _ _ _ HB) in Hin.
  apply list_elem_of_fmap in Hin as (c & -> & Hc).
  apply list_elem_of_filter in Hc as [_ Hc].
  destruct (call_id_number _ _ _ _ (blk_ids _ _ _ _ _ _ _ HB) Hc)
    as (m & Hm & Hid).
  exists m. pose proof (blk_le _ _ _ _ _ _ _ HB). split; [lia|done].
Qed.

Lemma block_rel_count maxDepth maxArraySample a b C V R :
  Block maxDepth maxArraySample a b C V R → b = (a + length R)%nat.
Proof.
  intros HB. pose proof (blk_le _ _ _ _ _ _ _ HB) as Hle.
  pose proof (f_equal length (blk_tos _ _ _ _ _ _ _ HB)) as Hlen.
  rewrite !length_fmap, length_seq in Hlen. lia.
Qed.

(** X4.  The ids of one excavation are fresh: the virtual objects of a result
    have pairwise distinct ids, the targets of its relationships are the ids
    generated after the root's, one per relationship and in order, the module
    counter advances by one plus the number of relationships, and no object of
    a later excavation (of any excavator, which shares the counter) has the id
    of an object of this one. *)
Theorem excavate_ids_fresh (maxDepth maxArraySample : Z) (input : JValue)
  (n0 : nat) :
  let out := excavate maxDepth maxArraySample input n0 in
  NoDup (vo_id <$> virtualObjects out.1) ∧
  rel_to <$> relationships out.1
  = idOf <$> seq (S (S n0)) (length (relationships out.1)) ∧
  nextId out.2 = (S n0 + length (relationships out.1))%nat ∧
  (∀ vo, vo ∈ virtualObjects out.1 →
     ∃ m, (n0 < m ≤ nextId out.2)%nat ∧ vo_id vo = idOf m) ∧
  (∀ (maxDepth' maxArraySample' : Z) (input' : JValue) (n1 : nat) vo vo',
     (nextId out.2 ≤ n1)%nat →
     vo ∈ virtualObjects out.1 →
     vo' ∈ virtualObjects (excavate maxDepth' maxArraySample' input' n1).1 →
     vo_id vo ≠ vo_id vo').
Proof.
  intros out. subst out.
  destruct (excavate_block maxDepth maxArraySample input n0)
    as (root & n' & V & R & C & -> & HB).
  cbn [fst snd virtualObjects relationships nextId].
  pose proof (block_rel_count _ _ _ _ _ _ _ HB) as Hn'.
  split_and!.
  - rewrite (block_vo_ids _ _ _ _ _ _ _ HB).
    eapply sublist_NoDup; last first.
    + apply fmap_sublist, sublist_filter.
    + rewrite (blk_ids _ _ _ _ _ _ _ HB).
      apply NoDup_fmap_2; [intros ??; apply idOf_inj | apply NoDup_seq].
  - rewrite (blk_tos _ _ _ _ _ _ _ HB). do 2 f_equal. lia.
  - done.
  - intros vo Hvo.
    destruct (block_vo_range _ _ _ _ _ _ _ vo HB Hvo) as (m & Hm & Hid).
    exists m. split; [lia|done].
  - intros maxDepth' maxArraySample' input' n1 vo vo' Hn1 Hvo Hvo'.
    destruct (block_vo_range _ _ _ _ _ _ _ vo HB Hvo) as (m & Hm & Hid).
    destruct (excavate_block maxDepth' maxArraySample' input' n1)
      as (root' & n'' & V' & R' & C' & Hex & HB').
    rewrite Hex in Hvo'. cbn [fst virtualObjects] in Hvo'.
    destruct (block_vo_range _ _ _ _ _ _ _ vo' HB' Hvo')
      as (m' & Hm' & Hid').
    rewrite Hid, Hid'. intros Heq%idOf_inj. lia.
Qed.

Lemma fieldTypes_keys (entries : list (string * JValue)) (k : string) :
  k ∈ entries.*1 → k ≠ "__proto__" → k ∈ (fieldTypes entries).*1.
Proof.
  intros Hk Hne. unfold fieldTypes.
  assert (Hgen : ∀ acc : list (string * string),
            k ∈ acc.*1 ∨ k ∈ entries.*1 →
            k ∈ (fold_left
                   (λ fields kv,
                      if String.eqb kv.1 "__proto__" then fields
                      else obj_set kv.1 (_typeOf kv.2) fields)
                   entries acc).*1).
  { clear Hk. induction entries as [|[k' v] entries IH]; intros acc.
    - intros [Hacc|Hnil%elem_of_nil]; done.
    - intros Hin. cbn [fold_left fst snd]. apply IH.
      rewrite fmap_cons, elem_of_cons in Hin. cbn [fst] in Hin.
      destruct Hin as [Hacc|[->|Hrest]]; [| |by right].
      + left. destruct (String.eqb_spec k' "__proto__"); [done|].
        rewrite obj_set_keys. destruct (decide _); [done|].
        apply elem_of_app. by left.
      + left. destruct (String.eqb_spec k' "__proto__"); [done|].
        rewrite obj_set_keys. destruct (decide _); [done|].
        apply elem_of_app. right. by apply list_elem_of_singleton. }
  apply Hgen. by right.
Qed.

(** The virtual object a node pushes is the start of each relationship of its
    child visits, and describes it. *)
Lemma kidsOf_parent maxDepth maxArraySample c k childId :
  k ∈ kidsOf maxDepth maxArraySample c →
  let r := kid_rel k childId in
  let parent := emittedVO maxArraySample c in
  vo_category parent = Some "struct" ∧
  ((rel_kind r = "field" ∧ rel_index r = None ∧
    ∃ name fields,
      rel_name r = Some name ∧ vo_type parent = Some "object" ∧
      vo_fields parent = Some fields ∧
      (name = "__proto__" ∨ name ∈ fields.*1)) ∨
   (rel_kind r = "element" ∧ rel_name r = None ∧
    ∃ idx elementTypes,
      rel_index r = Some idx ∧ vo_type parent = Some "array" ∧
      vo_elementTypes parent = Some elementTypes ∧
      (idx < sum_list elementTypes.*2)%nat)).
Proof.
  unfold kidsOf, emittedVO. destruct (within maxDepth c);
    [|by intros ?%elem_of_nil].
  destruct (call_value c) as [| | | | |elems|entries];
    try by intros ?%elem_of_nil.
  - unfold elementKids. intros (i & el & -> & Hel)%elem_of_lookup_imap_1.
    cbn. split; [done|]. right. split_and!; [done..|].
    exists i, (histogram (slice0 maxArraySample elems)).
    split_and!; [done..|].
    destruct (histogram_step (slice0 maxArraySample elems) [])
      as (_ & Hsum & _).
    change (sum_list (histogram (slice0 maxArraySample elems)).*2
            = (0 + length (slice0 maxArraySample elems))%nat) in Hsum.
    apply lookup_lt_Some in Hel. lia.
  - unfold fieldKids. intros (kv & -> & Hkv)%list_elem_of_fmap.
    cbn. split; [done|]. left. split_and!; [done..|].
    exists kv.1, (fieldTypes entries). split_and!; [done..|].
    destruct (decide (kv.1 = "__proto__")) as [|Hne]; [by left|].
    right. apply fieldTypes_keys; [by apply list_elem_of_fmap_2|done].
Qed.

(** X5.  The relationships of a result form a forest over its nodes: every
    relationship starts at a struct object of the same result, a field
    relationship at an object node that lists the field's name (unless the
    name is [__proto__]) and an element relationship at an array node whose
    histogram counts more elements than the index; the root is the target of
    no relationship, no id is the target of two, and every virtual object but
    the root's is the target of one. *)
Theorem excavate_relationship_ends (maxDepth maxArraySample : Z)
  (input : JValue) (n0 : nat) :
  let out := excavate maxDepth maxArraySample input n0 in
  (∀ r, r ∈ relationships out.1 →
     ∃ parent,
       parent ∈ virtualObjects out.1 ∧ vo_id parent = rel_from r ∧
       vo_category parent = Some "struct" ∧
       ((rel_kind r = "field" ∧ rel_index r = None ∧
         ∃ name fields,
           rel_name r = Some name ∧ vo_type parent = Some "object" ∧
           vo_fields parent = Some fields ∧
           (name = "__proto__" ∨ name ∈ fields.*1)) ∨
        (rel_kind r = "element" ∧ rel_name r = None ∧
         ∃ idx elementTypes,
           rel_index r = Some idx ∧ vo_type parent = Some "array" ∧
           vo_elementTypes parent = Some elementTypes ∧
           (idx < sum_list elementTypes.*2)%nat))) ∧
  (∀ r, r ∈ relationships out.1 → rel_to r ≠ idOf (S n0)) ∧
  NoDup (rel_to <$> relationships out.1) ∧
  (∀ vo, vo ∈ virtualObjects out.1 →
     vo_id vo = idOf (S n0) ∨
     ∃ r, r ∈ relationships out.1 ∧ rel_to r = vo_id vo).
Proof.
  intros out. subst out.
  destruct (excavate_block maxDepth maxArraySample input n0)
    as (root & n' & V & R & C & -> & HB).
  cbn [fst snd virtualObjects relationships].
  split_and!.
  - intros r Hr.
    destruct (block_rel_origin _ _ HB r Hr) as (c & k & childId & Hc & Hk & ->).
    exists (emittedVO maxArraySample c). split_and!.
    + rewrite (blk_vos _ _ _ _ _ _ _ HB). apply list_elem_of_fmap_2.
      apply list_elem_of_filter. split; [|done].
      by eapply kidsOf_within.
    + rewrite emittedVO_id. symmetry.
      pose proof (kidsOf_rels maxDepth maxArraySample c) as Hrels.
      rewrite Forall_forall in Hrels. by apply Hrels.
    + by apply (kidsOf_parent _ _ _ _ childId Hk).
    + by apply (kidsOf_parent _ _ _ _ childId Hk).
  - intros r Hr Hto.
    assert (Hin : rel_to r ∈ rel_to <$> R) by by apply list_elem_of_fmap_2.
    rewrite (blk_tos _ _ _ _ _ _ _ HB), Hto in Hin.
    apply list_elem_of_fmap in Hin as (m & Hm%idOf_inj & Hseq).
    apply elem_of_seq in Hseq. lia.
  - rewrite (blk_tos _ _ _ _ _ _ _ HB).
    apply NoDup_fmap_2; [intros ??; apply idOf_inj | apply NoDup_seq].
  - intros vo Hvo. rewrite (blk_vos _ _ _ _ _ _ _ HB) in Hvo.
    apply list_elem_of_fmap in Hvo as (c & -> & Hc).
    apply list_elem_of_filter in Hc as [_ Hc]. rewrite emittedVO_id.
    apply elem_of_cons in Hc as [->|Hc]; [by left|]. right.
    destruct (block_incoming _ _ HB _ _ c eq_refl Hc) as (r & Hr & Hto).
    by exists r.
Qed.

Section Templates.

Variables maxDepth maxArraySample : Z.

Local Abbreviation walkValue := (_walkValue maxDepth maxArraySample).

Lemma instVO_shift base d t :
  instVO (S (base + d)) t = instVO base (shiftVO (S d) t).
Proof.
  unfold instVO, shiftVO. cbn [fst snd]. do 2 f_equal. lia.
Qed.

Lemma instRel_shift base d t :
  instRel (S (base + d)) t = instRel base (shiftRel (S d) t).
Proof.
  unfold instRel, shiftRel. cbn [fst snd]. f_equal; f_equal; lia.
Qed.

Lemma walkKids_template walk depth kts :
  Forall (λ kt, WalkT walk (kt_value kt)) kts →
  ∀ d, ∃ (k : nat) Vt Rt,
    Forall (λ t, (d < t.1 ≤ d + k)%nat) Vt ∧
    Forall (λ t, (t.1.1 < t.1.2 ≤ d + k)%nat) Rt ∧
    ∀ base st, nextId st = (base + d)%nat →
      let st' := walkKids walk depth (instKid (idOf base) <$> kts) st in
      nextId st' = (base + d + k)%nat ∧
      vList st' = vList st ++ (instVO base <$> Vt) ∧
      relList st' = relList st ++ (instRel base <$> Rt).
Proof.
  induction kts as [|kt rest IH]; intros Hok d.
  - exists 0%nat, [], []. split_and!; [done..|].
    intros base st Hst. cbn. rewrite !app_nil_r. split_and!; [lia|done..].
  - inversion Hok as [|? ? Hk Hrest]; subst.
    destruct (Hk (kt_path kt) (depth + 1))
      as (k1 & Vt1 & Rt1 & HV1 & HR1 & Hwalk1).
    destruct (IH Hrest (S d + k1)%nat)
      as (k2 & Vt2 & Rt2 & HV2 & HR2 & Hwalk2).
    exists (S k1 + k2)%nat, ((shiftVO (S d) <$> Vt1) ++ Vt2),
      ((0%nat, S d, kt_rel kt) :: (shiftRel (S d) <$> Rt1) ++ Rt2).
    split_and!.
    + apply Forall_app. split.
      * apply Forall_fmap. eapply Forall_impl; [exact HV1|].
        intros t Ht. cbn in *. lia.
      * eapply Forall_impl; [exact HV2|]. intros t Ht. cbn in *. lia.
    + constructor; [cbn; lia|]. apply Forall_app. split.
      * apply Forall_fmap. eapply Forall_impl; [exact HR1|].
        intros t Ht. cbn in *. lia.
      * eapply Forall_impl; [exact HR2|]. intros t Ht. cbn in *. lia.
    + intros base st Hst. rewrite fmap_cons. cbn [walkKids].
      rewrite genId_vo, Hst.
      cbn [instKid kid_rel kid_path kid_value].
      set (st2 := pushRel _ _).
      destruct (Hwalk1 (S (base + d)) st2 eq_refl) as (Hn1 & Hv1 & Hr1).
      cbv zeta in Hwalk2.
      destruct (Hwalk2 base
                  (walk (kt_value kt) (idOf (S (base + d))) (kt_path kt)
                     (depth + 1) st2))
        as (Hn2 & Hv2 & Hr2); [rewrite Hn1; lia|].
      cbv zeta. rewrite Hn2, Hv2, Hr2, Hv1, Hr1. subst st2.
      cbn [pushRel vList relList].
      split_and!.
      * lia.
      * rewrite fmap_app, <- list_fmap_compose, <- app_assoc.
        do 2 f_equal. apply list_fmap_ext. intros i t _.
        apply instVO_shift.
      * rewrite fmap_cons, fmap_app, <- list_fmap_compose, <- !app_assoc.
        cbn [app]. f_equal. f_equal.
        { unfold instRel. cbn [fst snd]. do 2 f_equal; lia. }
        f_equal. apply list_fmap_ext. intros i t _. apply instRel_shift.
Qed.

Lemma kidsOf_instKid v base path depth :
  kidsOf maxDepth maxArraySample (mkCall v (idOf base) path depth)
  = instKid (idOf base) <$> kidTsOf maxDepth maxArraySample v path depth.
Proof.
  unfold kidsOf, kidTsOf, within, mkCall. cbn [call_depth call_value
    call_id call_path].
  destruct (maxDepth <? depth); cbn [negb]; [done|].
  destruct v as [| | | | |elems|entries]; try done.
  - unfold elementKids. rewrite fmap_imap. apply imap_ext. intros i el _.
    reflexivity.
  - unfold fieldKids. rewrite <- list_fmap_compose. apply list_fmap_ext.
    intros i kv _. reflexivity.
Qed.

Lemma emittedVO_setId v id path depth :
  emittedVO maxArraySample (mkCall v id path depth)
  = setId id (emittedVO maxArraySample (mkCall v "" path depth)).
Proof. unfold emittedVO, mkCall. cbn. by destruct v. Qed.

Lemma walkT_step v :
  (∀ path depth,
     Forall (λ kt, WalkT walkValue (kt_value kt))
       (kidTsOf maxDepth maxArraySample v path depth)) →
  WalkT walkValue v.
Proof.
  intros Hkids path depth.
  destruct (maxDepth <? depth) eqn:Hdepth.
  - exists 0%nat, [], []. split_and!; [done..|].
    intros base st Hst. cbv zeta.
    rewrite walkValue_beyond
      by (unfold within, mkCall; cbn; by rewrite Hdepth).
    cbn. rewrite !app_nil_r. split_and!; [lia|done..].
  - destruct (walkKids_template walkValue depth _ (Hkids path depth) 0%nat)
      as (k & Vt & Rt & HV & HR & Hwalk).
    exists k, ((0%nat, emittedVO maxArraySample (mkCall v "" path depth))
               :: Vt), Rt.
    split_and!.
    + constructor; [cbn; lia|]. eapply Forall_impl; [exact HV|].
      intros t Ht. cbn in *. lia.
    + eapply Forall_impl; [exact HR|]. intros t Ht. cbn in *. lia.
    + intros base st Hst. cbv zeta.
      rewrite walkValue_within
        by (unfold within, mkCall; cbn; by rewrite Hdepth).
      rewrite kidsOf_instKid.
      set (st1 := pushVO _ _).
      destruct (Hwalk base st1) as (Hn & Hv & Hr).
      { subst st1. cbn. lia. }
      rewrite Hn, Hv, Hr. subst st1. cbn [pushVO logCall vList relList].
      split_and!; [lia| |done].
      rewrite <- app_assoc, fmap_cons, emittedVO_setId. unfold instVO at 2.
      cbn [app fst snd]. by rewrite Nat.add_0_r.
Qed.

Lemma walkValue_template v : WalkT walkValue v.
Proof.
  induction v as [| | | | |elems IH|entries IH] using JValue_nested_ind;
    apply walkT_step; intros path depth; unfold kidTsOf;
    destruct (maxDepth <? depth); try done.
  - apply Forall_forall.
    intros kt (i & el & -> & Hel)%elem_of_lookup_imap_1. cbn.
    rewrite Forall_forall in IH. apply IH.
    unfold slice0 in Hel. apply list_elem_of_lookup_2 in Hel.
    by eapply subseteq_take.
  - apply Forall_forall.
    intros kt (kv & -> & Hkv)%list_elem_of_fmap. cbn.
    rewrite Forall_forall in IH. by apply IH.
Qed.

(** One excavation of [input] at each value of the counter is the instance of
    one template. *)
Lemma excavate_instance input :
  ∃ (k : nat) Vt Rt,
    Forall (λ t : nat * VirtualObject, (t.1 ≤ k)%nat) Vt ∧
    Forall (λ t : nat * nat * Relationship, (t.1.1 < t.1.2 ≤ k)%nat) Rt ∧
    ∀ n0,
      let out := excavate maxDepth maxArraySample input n0 in
      virtualObjects out.1 = instVO (S n0) <$> Vt ∧
      relationships out.1 = instRel (S n0) <$> Rt ∧
      domSheets out.1 = Some [] ∧
      nextId out.2 = (S n0 + k)%nat.
Proof.
  set (root := match input with
               | JObj entries =>
                   match obj_get "value" entries with
                   | Some v => v
                   | None => input
                   end
               | _ => input
               end).
  destruct (walkValue_template root "#" 0)
    as (k & Vt & Rt & HV & HR & Hwalk).
  exists k, Vt, Rt. split_and!; [done..|].
  intros n0.
  destruct (Hwalk (S n0)
              {| nextId := S n0; vList := []; relList := []; calls := [] |}
              eq_refl) as (Hn & Hv & Hr).
  split_and!; [exact Hv|exact Hr|done|exact Hn].
Qed.

End Templates.

(** X6.  The module counter enters a result only through the ids: for every
    input there is one template of objects and relationships, with the ids
    named by their offset from the counter, whose instance at the counter's
    value every excavation of that input returns, and the counter advances by
    the same number each time.  Two excavations of one input therefore return
    results that differ in their ids only, and a relationship always leads
    from an id to one generated later. *)
Theorem excavate_counter_independent (maxDepth maxArraySample : Z)
  (input : JValue) :
  (∃ (k : nat) Vt Rt,
     ∀ n0 : nat,
       let out := excavate maxDepth maxArraySample input n0 in
       out.1 = {| virtualObjects := instVO (S n0) <$> Vt;
                  relationships := instRel (S n0) <$> Rt;
                  domSheets := Some [] |} ∧
       nextId out.2 = (S n0 + k)%nat) ∧
  (∀ n0 n1 : nat,
     let r0 := (excavate maxDepth maxArraySample input n0).1 in
     let r1 := (excavate maxDepth maxArraySample input n1).1 in
     setId "" <$> virtualObjects r0 = setId "" <$> virtualObjects r1 ∧
     setEnds "" "" <$> relationships r0
     = setEnds "" "" <$> relationships r1) ∧
  (∀ (n0 : nat) r,
     r ∈ relationships (excavate maxDepth maxArraySample input n0).1 →
     ∃ m m', (n0 < m < m')%nat ∧
             rel_from r = idOf m ∧ rel_to r = idOf m').
Proof.
  destruct (excavate_instance maxDepth maxArraySample input)
    as (k & Vt & Rt & HV & HR & Hex).
  split_and!.
  - exists k, Vt, Rt. intros n0. cbv zeta.
    destruct (Hex n0) as (Hv & Hr & Hd & Hn). split; [|done].
    destruct (excavate _ _ _ _).1. cbn in *. by subst.
  - intros n0 n1. cbv zeta.
    destruct (Hex n0) as (-> & -> & _). destruct (Hex n1) as (-> & -> & _).
    rewrite <- !list_fmap_compose. split; by apply list_fmap_ext.
  - intros n0 r. destruct (Hex n0) as (_ & -> & _).
    intros (t & -> & Ht)%list_elem_of_fmap.
    rewrite Forall_forall in HR. specialize (HR t Ht).
    exists (S n0 + t.1.1)%nat, (S n0 + t.1.2)%nat. split; [lia|done].
Qed.

(** X7.  A negative [maxArraySample] does not switch sampling off: with
    [maxArraySample = -k] every array node within [maxDepth] is sampled without
    its last [k] elements.  Its struct object carries the histogram of the
    array without them, and the relationships that start at the node are the
    element relationships of the remaining indices 0, 1, ... in order. *)
Theorem excavate_negative_sample (maxDepth maxArraySample : Z)
  (input : JValue) (n0 : nat) (c : Call) (elems : list JValue) :
  maxArraySample < 0 →
  let out := excavate maxDepth maxArraySample input n0 in
  let kept := (length elems - Z.to_nat (- maxArraySample))%nat in
  c ∈ calls out.2 → call_value c = JArr elems → call_depth c ≤ maxDepth →
  structArrayVO (call_id c) (call_path c) (histogram (take kept elems))
    ∈ virtualObjects out.1 ∧
  ∃ childIds : list string,
    length childIds = kept ∧
    filter (λ r, rel_from r = call_id c) (relationships out.1)
    = imap (λ i childId, elementRel (call_id c) childId i) childIds.
Proof.
  intros Hk out kept. subst out kept.
  destruct (excavate_block maxDepth maxArraySample input n0)
    as (root & n' & V & R & C & -> & HB).
  cbn [fst snd virtualObjects relationships calls].
  intros Hc Hval Hdepth.
  assert (Hw : within maxDepth c = true).
  { unfold within. rewrite negb_true_iff, Z.ltb_ge. done. }
  split.
  - rewrite (blk_vos _ _ _ _ _ _ _ HB).
    replace (structArrayVO _ _ _) with (emittedVO maxArraySample c).
    + apply list_elem_of_fmap_2. by apply list_elem_of_filter.
    + unfold emittedVO. rewrite Hval. by rewrite slice0_neg.
  - pose proof (blk_out _ _ _ _ _ _ _ HB) as Hout.
    rewrite Forall_forall in Hout.
    destruct (Hout c Hc) as (childIds & Hlen & Hf).
    unfold kidsOf in Hlen, Hf. rewrite Hw, Hval in Hlen, Hf.
    unfold elementKids in Hlen. rewrite length_imap in Hlen.
    rewrite slice0_neg in Hlen, Hf by done.
    exists childIds. split.
    + rewrite Hlen, length_take. lia.
    + rewrite Hf. apply zip_with_elementKids.
      rewrite Hlen. done.
Qed.

Lemma excavate_negative_sample_witness :
  structArrayVO "vo_1" "#" (histogram (take 2 [JNum 1; JNum 2; JStr "x"]))
    ∈ virtualObjects (excavate 6 (-1) (JArr [JNum 1; JNum 2; JStr "x"]) 0).1 ∧
  ∃ childIds : list string,
    length childIds = 2%nat ∧
    filter (λ r, rel_from r = "vo_1")
      (relationships
         (excavate 6 (-1) (JArr [JNum 1; JNum 2; JStr "x"]) 0).1)
    = imap (λ i childId, elementRel "vo_1" childId i) childIds.
Proof.
  apply (excavate_negative_sample 6 (-1)
           (JArr [JNum 1; JNum 2; JStr "x"]) 0%nat
           (mkCall (JArr [JNum 1; JNum 2; JStr "x"]) "vo_1" "#" 0)
           [JNum 1; JNum 2; JStr "x"]).
  - lia.
  - vm_compute. left.
  - reflexivity.
  - vm_compute. discriminate.
Defined.

End ExcavatorExtras.

(** ** The session manager and its database *)

Module SessionManagerExtras.
Import SessionManager SessionManagerFacts.

(** X8.  [startSession] never replaces a session: a second call with the same
    id returns the session the first one returned and leaves the manager as it
    was, whatever metadata it is given; and a call changes no session with
    another id and none of the manager's limits. *)
Theorem startSession_idempotent (sessionId : string)
  (metadata metadata' : JValue) (now now' : string) (mgr : Manager) :
  let first := startSession sessionId metadata now mgr in
  startSession sessionId metadata' now' first.1 = first ∧
  sessions first.1 !! sessionId = Some first.2 ∧
  (∀ session, sessions mgr !! sessionId = Some session →
              first = (mgr, session)) ∧
  (∀ other, other ≠ sessionId →
            sessions first.1 !! other = sessions mgr !! other) ∧
  maxSnapshots first.1 = maxSnapshots mgr ∧
  maxDepth first.1 = maxDepth mgr.
Proof.
  cbv zeta.
  destruct (sessions mgr !! sessionId) as [session|] eqn:Hs.
  - assert (Hfirst : startSession sessionId metadata now mgr = (mgr, session)).
    { unfold startSession. by rewrite Hs. }
    rewrite Hfirst. cbn [fst snd]. split_and!; try done.
    + unfold startSession. by rewrite Hs.
    + by intros ? [= ->].
  - assert (Hfirst : ∃ session db,
              startSession sessionId metadata now mgr
              = ({| maxDepth := maxDepth mgr;
                    maxSnapshots := maxSnapshots mgr;
                    sessions := <[sessionId := session]> (sessions mgr);
                    persistence := db |}, session)).
    { unfold startSession. rewrite Hs.
      destruct (persistence mgr) as [db|]; eauto. }
    destruct Hfirst as (session & db & ->).
    cbn [fst snd sessions maxSnapshots maxDepth]. split_and!; try done.
    + unfold startSession. cbn [sessions]. by rewrite lookup_insert_eq.
    + by rewrite lookup_insert_eq.
    + intros other Hne. by rewrite lookup_insert_ne.
Qed.

(** X9.  [addSnapshot] on a session id the manager does not hold throws
    [Unknown excavation session: <id>] and leaves the manager as it was; on
    any id, it changes no other session and none of the manager's limits. *)
Theorem addSnapshot_unknown_session (sessionId : string)
  (excavationResult : ExcavationResult) (label : option string)
  (now : string) (mgr : Manager) :
  let out := addSnapshot sessionId excavationResult label now mgr in
  (sessions mgr !! sessionId = None →
   out = (mgr, Thrown ("Unknown excavation session: " +:+ sessionId))) ∧
  (∀ other, other ≠ sessionId →
            sessions out.1 !! other = sessions mgr !! other) ∧
  maxSnapshots out.1 = maxSnapshots mgr ∧
  maxDepth out.1 = maxDepth mgr.
Proof.
  cbv zeta. unfold addSnapshot.
  destruct (sessions mgr !! sessionId) as [session|] eqn:Hs.
  - destruct (persistence mgr) as [db|]; [destruct (saveSnapshot _ _ db)|];
      cbn [fst snd sessions maxSnapshots maxDepth];
      (split_and!; [done| |done|done]);
      intros other Hne; by rewrite lookup_insert_ne.
  - by split_and!.
Qed.

Lemma updateSummary_totalsOf session :
  let s' := _updateSummary session in
  session_id s' = session_id session ∧
  snapshots s' = snapshots session ∧
  driftEvents (summary s') = driftEvents (summary session) ∧
  (totalVirtualObjects (summary s'), totalRelationships (summary s'),
   summary_domSheets (summary s')) = totalsOf (snapshots session).
Proof.
  destruct (updateSummary_totals session) as (Hs & Hd & Hv & Hr & Hm).
  cbv zeta in *. unfold totalsOf. rewrite Hv, Hr, Hm. split_and!; try done.
  unfold _updateSummary. by destruct (fold_left _ _ _) as [[? ?] ?].
Qed.

Lemma detectDrift_step session :
  let s' := _detectDrift session in
  session_id s' = session_id session ∧
  (driftEvents (summary session) ≤ driftEvents (summary s')
   ≤ driftEvents (summary session) + 1)%nat.
Proof.
  unfold _detectDrift. destruct (_ <? 2)%nat; [split; [done|lia]|].
  destruct (_ !! _); [|split; [done|lia]].
  destruct (_ !! _); [|split; [done|lia]].
  destruct (0 <? _); (split; [done|cbn; lia]).
Qed.

Lemma added_session_inv k (bounded : Prop) events snapshot session :
  (bounded → 0 ≤ k) →
  SessionInv k bounded events (session_id session) session →
  SessionInv k bounded (S events) (session_id session)
    (_detectDrift (_updateSummary (pushSnapshot k snapshot session))).
Proof.
  intros Hk (_ & _ & Hdrift & Hcap).
  set (pushed := pushSnapshot k snapshot session).
  destruct (updateSummary_totalsOf pushed) as (Hid1 & Hs1 & Hd1 & Ht1).
  destruct (detectDrift_frame (_updateSummary pushed))
    as (Hs2 & Hv2 & Hr2 & Hm2).
  destruct (detectDrift_step (_updateSummary pushed)) as (Hid2 & Hd2).
  cbv zeta in *. split_and!.
  - by rewrite Hid2, Hid1.
  - by rewrite Hv2, Hr2, Hm2, Hs2, Hs1.
  - rewrite Hd1 in Hd2. change (summary pushed) with (summary session) in Hd2.
    lia.
  - intros Hb. rewrite Hs2, Hs1.
    by apply pushSnapshot_window; [apply Hk|apply Hcap].
Qed.

Lemma startSession_new sessionId metadata now mgr :
  sessions mgr !! sessionId = None →
  ∃ session db,
    startSession sessionId metadata now mgr
    = ({| maxDepth := maxDepth mgr; maxSnapshots := maxSnapshots mgr;
          sessions := <[sessionId := session]> (sessions mgr);
          persistence := db |}, session) ∧
    (persistence mgr = None ↔ db = None) ∧
    SessionInv (maxSnapshots mgr)
      (persistence mgr = None ∧ 0 ≤ maxSnapshots mgr) 0 sessionId session.
Proof.
  intros Hs. unfold startSession. rewrite Hs.
  destruct (persistence mgr) as [db|].
  - eexists _, _. split; [reflexivity|]. split; [done|].
    match goal with |- context [_updateSummary ?s] =>
      destruct (updateSummary_totalsOf s) as (Hid & Hsn & Hd & Ht) end.
    cbv zeta in *. split_and!; [by rewrite Hid| |by rewrite Hd|].
    + by rewrite Ht, Hsn.
    + by intros [? _].
  - eexists _, _. split; [reflexivity|]. split; [done|].
    split_and!; try done. cbn. intros [_ ?]. done.
Qed.

Lemma addSnapshot_other sessionId excavationResult label now mgr :
  let mgr' := (addSnapshot sessionId excavationResult label now mgr).1 in
  (∀ other, other ≠ sessionId →
            sessions mgr' !! other = sessions mgr !! other) ∧
  (sessions mgr !! sessionId = None → mgr' = mgr) ∧
  maxSnapshots mgr' = maxSnapshots mgr ∧
  maxDepth mgr' = maxDepth mgr ∧
  (persistence mgr = None ↔ persistence mgr' = None).
Proof.
  cbv zeta. unfold addSnapshot.
  destruct (sessions mgr !! sessionId) as [session|] eqn:Hs.
  - destruct (persistence mgr) as [db|]; [destruct (saveSnapshot _ _ db)|];
      cbn [fst snd sessions maxSnapshots maxDepth persistence];
      (split_and!; [|done..]);
      intros other Hne; by rewrite lookup_insert_ne.
  - by split_and!.
Qed.

Lemma runOps_snoc ops op mgr :
  runOps (ops ++ [op]) mgr = step (runOps ops mgr) op.
Proof. unfold runOps. by rewrite fold_left_app. Qed.

Lemma addsTo_snoc sessionId ops op :
  length (addsTo sessionId (ops ++ [op]))
  = (length (addsTo sessionId ops)
     + if isAddTo sessionId op then 1 else 0)%nat.
Proof.
  unfold addsTo. rewrite List.filter_app, length_app. cbn.
  by destruct (isAddTo sessionId op).
Qed.

Lemma sessionInv_mono k (bounded : Prop) events events' sessionId session :
  (events ≤ events')%nat →
  SessionInv k bounded events sessionId session →
  SessionInv k bounded events' sessionId session.
Proof. intros Hle (? & ? & ? & ?). split_and!; try done. lia. Qed.

Lemma runOps_invariants optMaxDepth optMaxSnapshots optPersistence ops :
  let mgr0 := newManager optMaxDepth optMaxSnapshots optPersistence in
  let mgr := runOps ops mgr0 in
  maxSnapshots mgr = maxSnapshots mgr0 ∧
  maxDepth mgr = maxDepth mgr0 ∧
  (optPersistence = None ↔ persistence mgr = None) ∧
  ∀ sessionId session,
    sessions mgr !! sessionId = Some session →
    SessionInv (maxSnapshots mgr0)
      (optPersistence = None ∧ 0 ≤ maxSnapshots mgr0)
      (length (addsTo sessionId ops)) sessionId session.
Proof.
  cbv zeta. set (mgr0 := newManager _ _ _).
  induction ops as [|op ops IH] using rev_ind.
  - by split_and!.
  - clearbody mgr0. rewrite runOps_snoc. destruct IH as (Hk & Hd & Hp & IH).
    set (mgr := runOps ops mgr0) in *.
    destruct op as [sid metadata now|sid excavationResult label now];
      cbn [step].
    + destruct (sessions mgr !! sid) as [existing|] eqn:Hs.
      * assert (Hfirst : startSession sid metadata now mgr = (mgr, existing)).
        { unfold startSession. by rewrite Hs. }
        rewrite Hfirst. cbn [fst]. split_and!; try done.
        intros sessionId session Hlook. rewrite addsTo_snoc. cbn.
        rewrite Nat.add_0_r. by apply IH.
      * destruct (startSession_new sid metadata now mgr Hs)
          as (new & db & -> & Hdb & Hnew).
        cbn [fst sessions maxSnapshots maxDepth persistence].
        split_and!; [done|done|by rewrite Hp|].
        intros sessionId session. rewrite addsTo_snoc. cbn.
        rewrite Nat.add_0_r.
        destruct (decide (sessionId = sid)) as [->|Hne].
        -- rewrite lookup_insert_eq. intros [= <-].
           apply (sessionInv_mono _ _ 0%nat); [lia|].
           destruct Hnew as (? & ? & ? & Hcap). split_and!; try done.
           intros [Hnone Hpos]. rewrite <- Hk. apply Hcap.
           split; [by apply Hp|by rewrite Hk].
        -- rewrite lookup_insert_ne by done. apply IH.
    + destruct (addSnapshot_other sid excavationResult label now mgr)
        as (Hother & Hunknown & Hk' & Hd' & Hp').
      cbv zeta in *. split_and!; [congruence|congruence|by rewrite Hp|].
      intros sessionId session. rewrite addsTo_snoc. cbn.
      destruct (String.eqb_spec sid sessionId) as [->|Hne].
      * destruct (sessions mgr !! sessionId) as [before|] eqn:Hs.
        -- destruct (addSnapshot_session sessionId excavationResult label now
                       mgr before Hs) as [_ ->].
           intros [= <-]. destruct (IH sessionId before Hs) as (Hid & HI).
           rewrite Nat.add_1_r, <- Hid, Hk.
           apply added_session_inv; [by intros [_ ?]|].
           rewrite Hid. by split.
        -- rewrite Hunknown by done. by rewrite Hs.
      * rewrite Hother by done. rewrite Nat.add_0_r. apply IH.
Qed.

(** X10.  In every state a manager can reach from its constructor by
    [startSession] and [addSnapshot] calls, a session is filed under its own
    id, its three totals are the sums of the metrics of the snapshots in its
    log, its count of drift events is at most the number of [addSnapshot]
    calls made on it, and without a persistence collaborator its log holds at
    most [maxSnapshots] entries (for [maxSnapshots >= 0]).  The report of
    [getSessionSummary] then lists one entry per snapshot of the log, and its
    totals are the sums of the metrics it lists. *)
Theorem manager_invariants (optMaxDepth optMaxSnapshots : option Z)
  (optPersistence : option Persistence) (ops : list Op)
  (sessionId : string) (session : Session) :
  let mgr :=
    runOps ops (newManager optMaxDepth optMaxSnapshots optPersistence) in
  sessions mgr !! sessionId = Some session →
  session_id session = sessionId ∧
  (totalVirtualObjects (summary session),
   totalRelationships (summary session),
   summary_domSheets (summary session)) = totalsOf (snapshots session) ∧
  (driftEvents (summary session) ≤ length (addsTo sessionId ops))%nat ∧
  (optPersistence = None → 0 ≤ default 20 optMaxSnapshots →
   Z.of_nat (length (snapshots session)) ≤ default 20 optMaxSnapshots) ∧
  ∃ report,
    getSessionSummary sessionId mgr = Returned report ∧
    report_id report = sessionId ∧
    snap_id <$> snapshots session = info_id <$> report_snapshots report ∧
    totalVirtualObjects (report_summary report)
    = sum_list (metrics_virtualObjects ∘ info_metrics
                  <$> report_snapshots report) ∧
    totalRelationships (report_summary report)
    = sum_list (metrics_relationships ∘ info_metrics
                  <$> report_snapshots report) ∧
    summary_domSheets (report_summary report)
    = sum_list (metrics_domSheets ∘ info_metrics
                  <$> report_snapshots report).
Proof.
  intros mgr Hs. subst mgr.
  destruct (runOps_invariants optMaxDepth optMaxSnapshots optPersistence ops)
    as (_ & _ & _ & Hinv).
  cbv zeta in Hinv.
  destruct (Hinv sessionId session Hs) as (Hid & Ht & Hd & Hcap).
  split_and!; try done.
  - intros Hnone Hpos. by apply Hcap.
  - unfold getSessionSummary. rewrite Hs. eexists. split; [reflexivity|].
    cbn [report_id report_summary report_snapshots].
    unfold totalsOf in Ht. injection Ht as -> -> ->.
    change (map ?f ?l) with (f <$> l).
    rewrite <- !list_fmap_compose. by split_and!.
Qed.

Lemma manager_invariants_witness :
  let mgr :=
    runOps [StartOp "s" JNull "t0"; AddOp "s" oneNumber None "t1";
            AddOp "s" emptyResult None "t2"]
      (newManager None (Some 1) None) in
  ∃ session,
    sessions mgr !! "s" = Some session ∧
    (driftEvents (summary session) ≤ 2)%nat ∧
    Z.of_nat (length (snapshots session)) ≤ 1.
Proof.
  cbv zeta.
  set (ops := [StartOp "s" JNull "t0"; AddOp "s" oneNumber None "t1";
               AddOp "s" emptyResult None "t2"]).
  destruct (sessions (runOps ops (newManager None (Some 1) None)) !! "s")
    as [session|] eqn:Hs; [|by vm_compute in Hs].
  exists session. split; [done|].
  destruct (manager_invariants None (Some 1) None ops "s" session Hs)
    as (_ & _ & Hd & Hcap & _).
  split; [exact Hd|]. by apply Hcap.
Defined.

Lemma pushSnapshot_full k snapshot session :
  k ≤ Z.of_nat (length (snapshots session)) →
  snapshots (pushSnapshot k snapshot session)
  = tail (snapshots session ++ [snapshot]) ∧
  length (snapshots (pushSnapshot k snapshot session))
  = length (snapshots session).
Proof.
  intros Hfull. unfold pushSnapshot. cbn [setSnapshots snapshots].
  rewrite length_app. cbn [length].
  destruct (Z.ltb_spec k (Z.of_nat (length (snapshots session) + 1)));
    [|lia].
  split; [done|]. destruct (snapshots session); cbn; [done|].
  rewrite length_app. cbn. lia.
Qed.

(** X11.  A cap [maxSnapshots <= 0] keeps nothing: whatever is added to a
    session with an empty log, the log is empty again after every
    [addSnapshot], the three totals are 0 once a snapshot has been added, and
    no drift event is ever counted. *)
Theorem addSnapshots_zero_cap (mgr : Manager) (sessionId : string)
  (session : Session) (adds : list AddCall) :
  maxSnapshots mgr ≤ 0 →
  sessions mgr !! sessionId = Some session →
  snapshots session = [] →
  ∃ session',
    sessions (addSnapshots sessionId adds mgr) !! sessionId = Some session' ∧
    snapshots session' = [] ∧
    driftEvents (summary session') = driftEvents (summary session) ∧
    (adds ≠ [] →
     totalVirtualObjects (summary session') = 0%nat ∧
     totalRelationships (summary session') = 0%nat ∧
     summary_domSheets (summary session') = 0%nat).
Proof.
  intros Hk Hs Hempty.
  assert (Hstep : ∀ s snapshot,
            snapshots s = [] →
            let s' := _detectDrift
                        (_updateSummary
                           (pushSnapshot (maxSnapshots mgr) snapshot s)) in
            snapshots s' = [] ∧
            driftEvents (summary s') = driftEvents (summary s) ∧
            totalVirtualObjects (summary s') = 0%nat ∧
            totalRelationships (summary s') = 0%nat ∧
            summary_domSheets (summary s') = 0%nat).
  { intros s snapshot Hs0. cbv zeta.
    set (pushed := pushSnapshot (maxSnapshots mgr) snapshot s).
    assert (Hpushed : snapshots pushed = []).
    { subst pushed.
      destruct (pushSnapshot_full (maxSnapshots mgr) snapshot s) as [-> _];
        rewrite Hs0; [cbn; lia|done]. }
    destruct (updateSummary_totals pushed) as (Hs1 & Hd1 & Hv1 & Hr1 & Hm1).
    cbv zeta in *.
    rewrite detectDrift_short by (rewrite Hs1, Hpushed; cbn; lia).
    rewrite Hs1, Hd1, Hv1, Hr1, Hm1, Hpushed. by split_and!. }
  revert mgr session Hk Hs Hempty Hstep.
  induction adds as [|a adds IH]; intros mgr session Hk Hs Hempty Hstep.
  - exists session. by split_and!.
  - rewrite addSnapshots_cons.
    destruct (addSnapshot_session sessionId (add_result a) (add_label a)
                (add_now a) mgr session Hs) as [Hk' Hs'].
    cbv zeta in *.
    destruct (Hstep session
                (newSnapshot sessionId session (add_result a)
                   (default "default" (add_label a)) (add_now a)) Hempty)
      as (He1 & Hd1 & Ht1).
    destruct (IH _ _ ltac:(by rewrite Hk') Hs' He1) as (s' & Hs'' & He & Hd & Ht).
    { by rewrite Hk'. }
    exists s'. split_and!; [done|done|congruence|].
    intros _. destruct adds as [|a' adds].
    + cbn in Hs''. rewrite Hs' in Hs''. by injection Hs'' as <-.
    + by apply Ht.
Qed.

Lemma addSnapshots_zero_cap_witness :
  ∃ session',
    sessions
      (addSnapshots "s"
         [{| add_result := oneNumber; add_label := None; add_now := "t1" |}]
         (startSession "s" JNull "t0" (newManager None (Some 0) None)).1)
    !! "s" = Some session' ∧
    snapshots session' = [] ∧
    totalVirtualObjects (summary session') = 0%nat.
Proof.
  set (mgr := (startSession "s" JNull "t0" (newManager None (Some 0) None)).1).
  destruct (sessions mgr !! "s") as [session|] eqn:Hs;
    [|by vm_compute in Hs].
  assert (Hempty : snapshots session = []).
  { vm_compute in Hs. by injection Hs as <-. }
  destruct (addSnapshots_zero_cap mgr "s" session
              [{| add_result := oneNumber; add_label := None;
                  add_now := "t1" |}])
    as (session' & Hs' & He & _ & Ht); [by vm_compute|done|done|].
  exists session'. split_and!; [done|done|]. by apply Ht.
Defined.

(** On a full log, the id of a snapshot is the id of the one added before
    it. *)
Lemma addSnapshot_collides (mgr : Manager) (db : Persistence)
  (sessionId : string) (session : Session)
  (result1 result2 : ExcavationResult) (label1 label2 : option string)
  (now1 now2 : string) (snapshot1 : Snapshot) :
  persistence mgr = Some db →
  sessions mgr !! sessionId = Some session →
  maxSnapshots mgr ≤ Z.of_nat (length (snapshots session)) →
  (addSnapshot sessionId result1 label1 now1 mgr).2 = Returned snapshot1 →
  let mgr1 := (addSnapshot sessionId result1 label1 now1 mgr).1 in
  let out := addSnapshot sessionId result2 label2 now2 mgr1 in
  out.2 = Thrown "UNIQUE constraint failed: snapshots.snapshot_id" ∧
  persistence out.1 = persistence mgr1.
Proof.
  intros Hdb Hs Hfull Hret mgr1 out.
  destruct (addSnapshot_session sessionId result1 label1 now1 mgr session Hs)
    as [Hk1 Hs1].
  fold mgr1 in Hk1, Hs1.
  set (session1 := _detectDrift _) in Hs1.
  assert (Hlen : length (snapshots session1) = length (snapshots session)).
  { subst session1. rewrite added_snapshots.
    by apply pushSnapshot_full. }
  assert (Hdb1 : ∃ db1,
            persistence mgr1 = Some db1 ∧
            existsb (λ row, String.eqb (snap_id row.2)
                              (sessionId +:+ ":" +:+
                               pretty (length (snapshots session))))
              (snapshotsTable db1) = true).
  { subst mgr1. revert Hret. unfold addSnapshot. rewrite Hs, Hdb.
    unfold saveSnapshot.
    destruct (existsb _ (snapshotsTable db)); [done|].
    destruct (obj_get _ (sessionsTable db)); [|done].
    intros _. eexists. split; [reflexivity|].
    cbn [snapshotsTable]. rewrite existsb_app. cbn.
    by rewrite String.eqb_refl, orb_true_r. }
  destruct Hdb1 as (db1 & Hp1 & Hrow).
  assert (Hout : out.2 = Thrown "UNIQUE constraint failed: snapshots.snapshot_id"
                 ∧ persistence out.1 = Some db1).
  { subst out. unfold addSnapshot. rewrite Hs1, Hp1.
    unfold saveSnapshot. cbn [newSnapshot snap_id]. rewrite Hlen, Hrow.
    done. }
  destruct Hout as [Hthrown Hp2]. split; [done|congruence].
Qed.

(** X12.  With a persistence collaborator the ids of a full log collide in
    the database: when the log holds [maxSnapshots] entries or more and an
    [addSnapshot] has returned, the next [addSnapshot] on that session throws
    [UNIQUE constraint failed: snapshots.snapshot_id], because the log kept
    its length and the new snapshot takes the id of the previous one.  The
    database is left as it was, while the session in memory has been updated
    as by a call that returns. *)
Theorem addSnapshot_id_collision (mgr : Manager) (db : Persistence)
  (sessionId : string) (session : Session)
  (result1 result2 : ExcavationResult) (label1 label2 : option string)
  (now1 now2 : string) (snapshot1 : Snapshot) :
  persistence mgr = Some db →
  sessions mgr !! sessionId = Some session →
  maxSnapshots mgr ≤ Z.of_nat (length (snapshots session)) →
  (addSnapshot sessionId result1 label1 now1 mgr).2 = Returned snapshot1 →
  let mgr1 := (addSnapshot sessionId result1 label1 now1 mgr).1 in
  let out := addSnapshot sessionId result2 label2 now2 mgr1 in
  out.2 = Thrown "UNIQUE constraint failed: snapshots.snapshot_id" ∧
  persistence out.1 = persistence mgr1 ∧
  ∃ session1,
    sessions mgr1 !! sessionId = Some session1 ∧
    sessions out.1 !! sessionId
    = Some (_detectDrift
              (_updateSummary
                 (pushSnapshot (maxSnapshots mgr)
                    (newSnapshot sessionId session1 result2
                       (default "default" label2) now2) session1))).
Proof.
  intros Hdb Hs Hfull Hret mgr1 out.
  destruct (addSnapshot_collides mgr db sessionId session result1 result2
              label1 label2 now1 now2 snapshot1 Hdb Hs Hfull Hret)
    as [Hthrown Hsame].
  split_and!; [exact Hthrown|exact Hsame|].
  destruct (addSnapshot_session sessionId result1 label1 now1 mgr session Hs)
    as [Hk1 Hs1].
  fold mgr1 in Hk1, Hs1.
  set (session1 := _detectDrift _) in Hs1.
  exists session1. split; [done|].
  destruct (addSnapshot_session sessionId result2 label2 now2 mgr1 session1
              Hs1) as [_ Hs2].
  by rewrite <- Hk1.
Qed.

Lemma addSnapshot_id_collision_witness :
  (addSnapshot "s" oneString None "t2"
     (addSnapshot "s" oneNumber None "t1"
        (startSession "s" JNull "t0"
           (newManager None (Some 0) (Some emptyDb))).1).1).2
  = Thrown "UNIQUE constraint failed: snapshots.snapshot_id".
Proof.
  set (mgr := (startSession "s" JNull "t0"
                 (newManager None (Some 0) (Some emptyDb))).1).
  destruct (sessions mgr !! "s") as [session|] eqn:Hs;
    [|by vm_compute in Hs].
  destruct (persistence mgr) as [db|] eqn:Hdb; [|by vm_compute in Hdb].
  destruct (addSnapshot "s" oneNumber None "t1" mgr).2 as [snapshot1|]
    eqn:Hret; [|by vm_compute in Hret].
  apply (addSnapshot_id_collision mgr db "s" session oneNumber oneString
           None None "t1" "t2" snapshot1 Hdb Hs).
  - vm_compute in Hs. injection Hs as <-. by vm_compute.
  - exact Hret.
Defined.

Lemma obj_get_app {A} (k : string) (l1 l2 : list (string * A)) :
  obj_get k (l1 ++ l2)
  = match obj_get k l1 with
    | Some x => Some x
    | None => obj_get k l2
    end.
Proof.
  induction l1 as [|[k' x] l1 IH]; cbn; [done|].
  by destruct (String.eqb k k').
Qed.

Lemma obj_get_saved (sessionId k : string) (metadata : JValue)
  (rows : list (string * (string * JValue))) :
  obj_get k
    (map (λ row : string * (string * JValue),
            if String.eqb row.1 sessionId
            then (row.1, (row.2.1, metadata))
            else row) rows)
  = if String.eqb k sessionId
    then (λ row : string * JValue, (row.1, metadata)) <$> obj_get k rows
    else obj_get k rows.
Proof.
  induction rows as [|[k' [created md]] rows IH]; cbn [map].
  - cbn. by destruct (String.eqb k sessionId).
  - cbn [fst snd].
    destruct (String.eqb_spec k' sessionId) as [Hk'|Hk']; cbn [obj_get];
      rewrite IH;
      destruct (String.eqb_spec k k') as [Hkk'|Hkk'];
      destruct (String.eqb_spec k sessionId) as [Hk|Hk];
      try done; congruence.
Qed.

(** The rows [saveSession] leaves. *)
Lemma saveSession_rows (session : Session) (db : Persistence) :
  let db' := saveSession session db in
  snapshotsTable db' = snapshotsTable db ∧
  obj_get (session_id session) (sessionsTable db')
  = Some (match obj_get (session_id session) (sessionsTable db) with
          | Some row => row.1
          | None => session_createdAt session
          end, orEmptyObject (session_metadata session)) ∧
  ∀ other, other ≠ session_id session →
    obj_get other (sessionsTable db') = obj_get other (sessionsTable db).
Proof.
  cbv zeta. unfold saveSession. cbn [sessionsTable snapshotsTable].
  split; [done|]. split.
  - rewrite obj_get_saved, String.eqb_refl.
    destruct (obj_get (session_id session) (sessionsTable db)) as [row|]
      eqn:Hrow.
    + by rewrite Hrow.
    + rewrite obj_get_app, Hrow. cbn. by rewrite String.eqb_refl.
  - intros other Hne. rewrite obj_get_saved.
    rewrite (proj2 (String.eqb_neq _ _) Hne).
    destruct (obj_get (session_id session) (sessionsTable db)); [done|].
    rewrite obj_get_app. destruct (obj_get other (sessionsTable db));
      [done|]. cbn. by rewrite (proj2 (String.eqb_neq _ _) Hne).
Qed.

(** The order of [captured_at_iso] texts. *)
Lemma char_compare_lt_trans (a b c : ascii) :
  Ascii.compare a b = Lt → Ascii.compare b c = Lt → Ascii.compare a c = Lt.
Proof.
  unfold Ascii.compare. rewrite !N.compare_lt_iff. apply N.lt_trans.
Qed.

Lemma string_compare_lt_trans (a b c : string) :
  String.compare a b = Lt → String.compare b c = Lt →
  String.compare a c = Lt.
Proof.
  revert b c. induction a as [|x a IH]; intros [|y b] [|z c]; cbn;
    try done.
  destruct (Ascii.compare x y) eqn:Hxy; [| |done].
  - apply Ascii.compare_eq_iff in Hxy as ->.
    destruct (Ascii.compare y z); [apply IH|done..].
  - intros _. destruct (Ascii.compare y z) eqn:Hyz; [| |done].
    + apply Ascii.compare_eq_iff in Hyz as <-. by rewrite Hxy.
    + intros _. by rewrite (char_compare_lt_trans x y z).
Qed.

Lemma string_ltb_trans (a b c : string) :
  String.ltb a b = true → String.ltb b c = true → String.ltb a c = true.
Proof.
  unfold String.ltb.
  destruct (String.compare a b) eqn:Hab; try done.
  destruct (String.compare b c) eqn:Hbc; try done.
  by rewrite (string_compare_lt_trans a b c).
Qed.

Lemma string_ltb_asym (a b : string) :
  String.ltb a b = true → String.ltb b a = false.
Proof.
  unfold String.ltb. rewrite (String.compare_antisym b a).
  by destruct (String.compare a b).
Qed.

Lemma insertByCapturedAt_perm (row : Snapshot) (sorted : list Snapshot) :
  insertByCapturedAt row sorted ≡ₚ row :: sorted.
Proof.
  induction sorted as [|row' sorted IH]; cbn; [done|].
  destruct (String.ltb _ _); [done|].
  rewrite IH. apply Permutation_swap.
Qed.

Lemma insertByCapturedAt_sorted (row : Snapshot) (sorted : list Snapshot) :
  StronglySorted notAfter sorted →
  StronglySorted notAfter (insertByCapturedAt row sorted).
Proof.
  induction 1 as [|row' sorted Hsorted IH Hfirst]; cbn.
  - by repeat constructor.
  - destruct (String.ltb (snap_capturedAt row) (snap_capturedAt row'))
      eqn:Hlt.
    + constructor; [by constructor|]. constructor.
      * by apply string_ltb_asym.
      * eapply Forall_impl; [exact Hfirst|]. intros later Hlater.
        unfold notAfter in *.
        destruct (String.ltb (snap_capturedAt later) (snap_capturedAt row))
          eqn:Hback; [|done].
        by rewrite (string_ltb_trans _ _ _ Hback Hlt) in Hlater.
    + constructor; [done|].
      rewrite (Forall_Permutation _ _ (λ _, reflexivity _)
                 _ _ (insertByCapturedAt_perm row sorted)).
      by constructor.
Qed.

Lemma loadSessionSnapshots_sorted (sessionId : string) (db : Persistence) :
  loadSessionSnapshots sessionId db ≡ₚ storedSnapshots sessionId db ∧
  StronglySorted notAfter (loadSessionSnapshots sessionId db).
Proof.
  unfold loadSessionSnapshots. fold (storedSnapshots sessionId db).
  assert (Hgen : ∀ rows acc,
            StronglySorted notAfter acc →
            fold_left (λ sorted row, insertByCapturedAt row sorted) rows acc
            ≡ₚ acc ++ rows ∧
            StronglySorted notAfter
              (fold_left (λ sorted row, insertByCapturedAt row sorted)
                 rows acc)).
  { induction rows as [|row rows IH]; intros acc Hacc; cbn [fold_left].
    - by rewrite app_nil_r.
    - destruct (IH (insertByCapturedAt row acc)
                  (insertByCapturedAt_sorted row acc Hacc)) as [Hperm Hsorted].
      split; [|done].
      rewrite Hperm, insertByCapturedAt_perm. cbn [app].
      apply Permutation_middle. }
  apply (Hgen _ []). constructor.
Qed.

(** The session a manager with a persistence collaborator creates. *)
Lemma startSession_stored (mgr : Manager) (db : Persistence)
  (sessionId : string) (metadata : JValue) (now : string) :
  persistence mgr = Some db →
  sessions mgr !! sessionId = None →
  let out := startSession sessionId metadata now mgr in
  let created :=
    {| session_id := sessionId; session_createdAt := now;
       session_metadata := withDefault (JObj []) metadata; snapshots := [];
       summary := {| totalVirtualObjects := 0; totalRelationships := 0;
                     summary_domSheets := 0; driftEvents := 0 |} |} in
  snapshots out.2 = loadSessionSnapshots sessionId db ∧
  (totalVirtualObjects (summary out.2), totalRelationships (summary out.2),
   summary_domSheets (summary out.2)) = totalsOf (snapshots out.2) ∧
  driftEvents (summary out.2) = 0%nat ∧
  session_createdAt out.2 = now ∧
  session_metadata out.2 = withDefault (JObj []) metadata ∧
  persistence out.1 = Some (saveSession created db).
Proof.
  intros Hdb Hs out created. subst out. unfold startSession. rewrite Hs, Hdb.
  cbn [fst snd persistence]. fold created.
  destruct (updateSummary_totalsOf
              (hydrateSessionSnapshots created (saveSession created db)))
    as (Hid & Hsn & Hd & Ht).
  set (hydrated := hydrateSessionSnapshots _ _) in *.
  cbv zeta in *.
  assert (Hmeta : session_metadata (_updateSummary hydrated)
                  = withDefault (JObj []) metadata
                  ∧ session_createdAt (_updateSummary hydrated) = now).
  { unfold _updateSummary. by destruct (fold_left _ _ _) as [[? ?] ?]. }
  destruct Hmeta as [Hmeta Hcreated].
  split_and!; try done. by rewrite Ht, Hsn.
Qed.

(** X13.  Starting a session on a manager with a persistence collaborator
    restores the stored snapshots of that id: all of them, each once, and in
    ascending order of their capture times (the texts [captured_at_iso]); the
    three totals are recomputed from them and the drift count restarts at 0.
    The session in memory carries the current time and the metadata of the
    call (the empty object for an omitted one).  The session row keeps the
    creation time it was first stored with and takes [metadata || {}]: the
    metadata of the call, or the empty object when that is [null], [false],
    [0] or the empty string.  No other session row and no snapshot row
    changes. *)
Theorem startSession_hydrates (mgr : Manager) (db : Persistence)
  (sessionId : string) (metadata : JValue) (now : string) :
  persistence mgr = Some db →
  sessions mgr !! sessionId = None →
  let out := startSession sessionId metadata now mgr in
  snapshots out.2 ≡ₚ storedSnapshots sessionId db ∧
  StronglySorted notAfter (snapshots out.2) ∧
  (totalVirtualObjects (summary out.2), totalRelationships (summary out.2),
   summary_domSheets (summary out.2)) = totalsOf (snapshots out.2) ∧
  driftEvents (summary out.2) = 0%nat ∧
  session_createdAt out.2 = now ∧
  session_metadata out.2 = withDefault (JObj []) metadata ∧
  ∃ db',
    persistence out.1 = Some db' ∧
    snapshotsTable db' = snapshotsTable db ∧
    obj_get sessionId (sessionsTable db')
    = Some (match obj_get sessionId (sessionsTable db) with
            | Some row => row.1
            | None => now
            end, orEmptyObject (withDefault (JObj []) metadata)) ∧
    ∀ other, other ≠ sessionId →
      obj_get other (sessionsTable db') = obj_get other (sessionsTable db).
Proof.
  intros Hdb Hs out.
  destruct (startSession_stored mgr db sessionId metadata now Hdb Hs)
    as (Hsn & Ht & Hd & Hc & Hm & Hdb').
  fold out in Hsn, Ht, Hd, Hc, Hm, Hdb'.
  destruct (loadSessionSnapshots_sorted sessionId db) as [Hperm Hsorted].
  split_and!; try done; [by rewrite Hsn..|].
  eexists. split; [exact Hdb'|].
  match goal with |- context [saveSession ?created db] =>
    destruct (saveSession_rows created db) as (Htable & Hrow & Hother) end.
  by split_and!.
Qed.

Lemma startSession_hydrates_witness :
  let snapshotAt (id capturedAt : string) :=
    {| snap_id := id; snap_label := "default"; snap_capturedAt := capturedAt;
       snap_metrics := {| metrics_virtualObjects := 1;
                          metrics_relationships := 0;
                          metrics_domSheets := 0 |};
       snap_result := oneNumber |} in
  let db :=
    {| sessionsTable := [("s", ("t0", JStr "first")); ("u", ("t0", JNull))];
       snapshotsTable := [("s", snapshotAt "s:0" "t3");
                          ("u", snapshotAt "u:0" "t2");
                          ("s", snapshotAt "s:1" "t1")] |} in
  let out := startSession "s" JNull "t9" (newManager None None (Some db)) in
  snapshots out.2 ≡ₚ [snapshotAt "s:0" "t3"; snapshotAt "s:1" "t1"] ∧
  StronglySorted notAfter (snapshots out.2) ∧
  snap_id <$> snapshots out.2 = ["s:1"; "s:0"] ∧
  session_createdAt out.2 = "t9" ∧
  (obj_get "s" ∘ sessionsTable <$> persistence out.1)
  = Some (Some ("t0", JObj [])).
Proof.
  cbv zeta.
  match goal with |- context [newManager None None (Some ?d)] =>
    set (db := d) end.
  destruct (startSession_hydrates (newManager None None (Some db)) db "s"
              JNull "t9" eq_refl eq_refl)
    as (Hperm & Hsorted & _ & _ & Hc & _ & db' & Hdb' & _ & Hrow & _).
  split_and!; [exact Hperm|exact Hsorted|by vm_compute|done|].
  rewrite Hdb'. cbn. by rewrite Hrow.
Defined.

Lemma insertByCapturedAt_latest (row : Snapshot) (sorted : list Snapshot) :
  Forall (λ row', String.ltb (snap_capturedAt row) (snap_capturedAt row')
                  = false) sorted →
  insertByCapturedAt row sorted = sorted ++ [row].
Proof.
  induction 1 as [|row' sorted Hrow' _ IH]; cbn; [done|].
  by rewrite Hrow', IH.
Qed.

Lemma loadSessionSnapshots_saved (sessionId owner : string)
  (snapshot : Snapshot) (db : Persistence) :
  loadSessionSnapshots sessionId
    {| sessionsTable := sessionsTable db;
       snapshotsTable := snapshotsTable db ++ [(owner, snapshot)] |}
  = if String.eqb owner sessionId
    then insertByCapturedAt snapshot (loadSessionSnapshots sessionId db)
    else loadSessionSnapshots sessionId db.
Proof.
  unfold loadSessionSnapshots. cbn [snapshotsTable].
  rewrite List.filter_app, map_app, fold_left_app. cbn.
  by destruct (String.eqb owner sessionId).
Qed.

(** X14.  What [addSnapshot] returned is what a restart restores: when the
    call returns on a manager with a persistence collaborator and the new
    capture time is not before a stored one, the stored log of the session is
    the previous stored log followed by the returned snapshot, the stored logs
    of the other sessions are as before, and a new manager started on the
    database restores exactly this log, however small its [maxSnapshots]. *)
Theorem addSnapshot_round_trip (mgr : Manager) (db : Persistence)
  (sessionId : string) (session : Session)
  (excavationResult : ExcavationResult) (label : option string)
  (now : string) (snapshot : Snapshot) :
  persistence mgr = Some db →
  sessions mgr !! sessionId = Some session →
  session_id session = sessionId →
  Forall (λ row, String.ltb now (snap_capturedAt row) = false)
    (loadSessionSnapshots sessionId db) →
  let out := addSnapshot sessionId excavationResult label now mgr in
  out.2 = Returned snapshot →
  ∃ db',
    persistence out.1 = Some db' ∧
    loadSessionSnapshots sessionId db'
    = loadSessionSnapshots sessionId db ++ [snapshot] ∧
    (∀ other, other ≠ sessionId →
       loadSessionSnapshots other db' = loadSessionSnapshots other db) ∧
    ∀ (optMaxDepth optMaxSnapshots : option Z) (metadata : JValue)
      (now' : string),
      snapshots
        (startSession sessionId metadata now'
           (newManager optMaxDepth optMaxSnapshots (Some db'))).2
      = loadSessionSnapshots sessionId db ++ [snapshot].
Proof.
  intros Hdb Hs Hid Hlatest out Hret.
  pose proof (addSnapshot_returned _ _ _ _ _ _ _ Hs Hret) as Hsnap.
  subst out. revert Hret. unfold addSnapshot. rewrite Hs, Hdb.
  fold (newSnapshot sessionId session excavationResult
          (default "default" label) now). rewrite <- Hsnap.
  assert (Hid' : session_id
                   (_detectDrift
                      (_updateSummary
                         (pushSnapshot (maxSnapshots mgr) snapshot session)))
                 = sessionId).
  { destruct (detectDrift_step
                (_updateSummary
                   (pushSnapshot (maxSnapshots mgr) snapshot session)))
      as [-> _].
    by destruct (updateSummary_totalsOf
                   (pushSnapshot (maxSnapshots mgr) snapshot session))
      as [-> _]. }
  rewrite Hid'. unfold saveSnapshot.
  destruct (existsb _ (snapshotsTable db)); [done|].
  destruct (obj_get sessionId (sessionsTable db)); [|done].
  cbn [fst snd persistence]. intros _. eexists. split; [reflexivity|].
  assert (Hload : loadSessionSnapshots sessionId
                    {| sessionsTable := sessionsTable db;
                       snapshotsTable :=
                         snapshotsTable db ++ [(sessionId, snapshot)] |}
                  = loadSessionSnapshots sessionId db ++ [snapshot]).
  { rewrite loadSessionSnapshots_saved, String.eqb_refl.
    apply insertByCapturedAt_latest. by rewrite Hsnap. }
  split_and!.
  - done.
  - intros other Hne. rewrite loadSessionSnapshots_saved.
    by rewrite (proj2 (String.eqb_neq _ _) (not_eq_sym Hne)).
  - intros optMaxDepth optMaxSnapshots metadata now'.
    unfold startSession. cbn [sessions newManager persistence].
    rewrite lookup_empty. cbn [snd].
    destruct (updateSummary_totalsOf
                (hydrateSessionSnapshots
                   {| session_id := sessionId; session_createdAt := now';
                      session_metadata := withDefault (JObj []) metadata;
                      snapshots := [];
                      summary := {| totalVirtualObjects := 0;
                                    totalRelationships := 0;
                                    summary_domSheets := 0;
                                    driftEvents := 0 |} |}
                   (saveSession
                      {| session_id := sessionId; session_createdAt := now';
                         session_metadata := withDefault (JObj []) metadata;
                         snapshots := [];
                         summary := {| totalVirtualObjects := 0;
                                       totalRelationships := 0;
                                       summary_domSheets := 0;
                                       driftEvents := 0 |} |}
                      {| sessionsTable := sessionsTable db;
                         snapshotsTable :=
                           snapshotsTable db ++ [(sessionId, snapshot)] |})))
      as (_ & Hsn & _).
    cbv zeta in Hsn. rewrite Hsn. cbn [hydrateSessionSnapshots snapshots app
      session_id].
    exact Hload.
Qed.

Lemma addSnapshot_round_trip_witness :
  let mgr := (startSession "s" JNull "t0"
                (newManager None (Some 0) (Some emptyDb))).1 in
  let out := addSnapshot "s" oneNumber None "t1" mgr in
  ∃ snapshot,
    out.2 = Returned snapshot ∧
    snapshots
      (startSession "s" JNull "t5"
         (newManager None (Some 0) (persistence out.1))).2
    = [snapshot].
Proof.
  cbv zeta.
  set (mgr := (startSession "s" JNull "t0"
                 (newManager None (Some 0) (Some emptyDb))).1).
  destruct (sessions mgr !! "s") as [session|] eqn:Hs;
    [|by vm_compute in Hs].
  destruct (persistence mgr) as [db|] eqn:Hdb; [|by vm_compute in Hdb].
  destruct (addSnapshot "s" oneNumber None "t1" mgr).2 as [snapshot|]
    eqn:Hret; [|by vm_compute in Hret].
  exists snapshot. split; [done|].
  assert (Hload : loadSessionSnapshots "s" db = []).
  { vm_compute in Hdb. by injection Hdb as <-. }
  destruct (addSnapshot_round_trip mgr db "s" session oneNumber None "t1"
              snapshot Hdb Hs)
    as (db' & Hdb' & _ & _ & Hrestart).
  - vm_compute in Hs. by injection Hs as <-.
  - by rewrite Hload.
  - exact Hret.
  - rewrite Hdb', Hrestart. by rewrite Hload.
Defined.

End SessionManagerExtras.

(** ** The score engine *)

Module ScoreEngineExtras.
Import ScoreEngine ScoreEngineFacts.

Lemma updateHistory_eq key engine clock :
  _updateHistory key (engine, clock)
  = ({| historyWindow := historyWindow engine;
        objectHistory :=
          <[key := pushHistory (historyWindow engine)
                     (default [] (objectHistory engine !! key))
                     (readings clock (reads clock))]>
            (objectHistory engine) |},
     {| readings := readings clock; reads := S (reads clock) |}).
Proof.
  unfold _updateHistory. rewrite getHistory_spec. cbn.
  unfold pushHistory. by rewrite insert_insert_eq.
Qed.

Lemma computeNovelty_clock hist clock :
  let clock' := (_computeNovelty hist clock).2 in
  readings clock' = readings clock ∧
  (reads clock ≤ reads clock' ≤ S (reads clock))%nat.
Proof.
  unfold _computeNovelty.
  destruct (length hist =? 1)%nat; [cbn; split; [done|lia]|].
  destruct (length hist =? 0)%nat; cbn; (split; [done|lia]).
Qed.

Lemma scoreOne_eq vo engine clock :
  let hist := default [] (objectHistory engine !! _makeKey vo) in
  let clock1 := (_computeNovelty hist clock).2 in
  scoreOne vo (engine, clock)
  = ({| score_id := vo_id vo;
        score_category := orElse (vo_category vo) "unknown";
        stability := _computeStability hist;
        novelty := (_computeNovelty hist clock).1;
        reuseHint := _computeReuseHint vo |},
     ({| historyWindow := historyWindow engine;
         objectHistory :=
           <[_makeKey vo := pushHistory (historyWindow engine) hist
                              (readings clock1 (reads clock1))]>
             (objectHistory engine) |},
      {| readings := readings clock1; reads := S (reads clock1) |})).
Proof.
  cbv zeta. unfold scoreOne. rewrite getHistory_spec.
  destruct (_computeNovelty _ clock) as [nov clock1]. cbn [fst snd].
  rewrite updateHistory_eq. cbn [historyWindow objectHistory].
  by rewrite lookup_insert_eq, insert_insert_eq.
Qed.

Lemma pushHistory_window window hist now :
  0 ≤ window → Z.of_nat (length hist) ≤ window →
  pushHistory window hist now
  = drop (length hist + 1 - Z.to_nat window) (hist ++ [now]) ∧
  Z.of_nat (length (pushHistory window hist now)) ≤ window.
Proof.
  intros Hw Hlen. unfold pushHistory. rewrite length_app. cbn [length].
  destruct (Z.ltb_spec window (Z.of_nat (length hist + 1))).
  - replace (length hist + 1 - Z.to_nat window)%nat with 1%nat by lia.
    split; [by destruct hist|].
    destruct hist; cbn in *; [lia|]. rewrite length_app. cbn. lia.
  - replace (length hist + 1 - Z.to_nat window)%nat with 0%nat by lia.
    split; [done|]. rewrite length_app. cbn. lia.
Qed.

Lemma windowed_default engine key :
  0 ≤ historyWindow engine → windowed engine →
  Z.of_nat (length (default [] (objectHistory engine !! key)))
  ≤ historyWindow engine.
Proof.
  intros Hw Hwin. destruct (objectHistory engine !! key) as [hist|] eqn:Hk.
  - by apply (Hwin key).
  - done.
Qed.

Lemma scoreOne_windowed vo engine clock :
  0 ≤ historyWindow engine → windowed engine →
  historyWindow (scoreOne vo (engine, clock)).2.1 = historyWindow engine ∧
  windowed (scoreOne vo (engine, clock)).2.1.
Proof.
  intros Hw Hwin. rewrite scoreOne_eq. cbn [fst snd historyWindow].
  split; [done|]. intros key hist. cbn [objectHistory historyWindow].
  destruct (decide (key = _makeKey vo)) as [->|Hne].
  - rewrite lookup_insert_eq. intros [= <-].
    apply pushHistory_window; [done|]. by apply windowed_default.
  - rewrite lookup_insert_ne by done. apply Hwin.
Qed.

Lemma scoreAll_windowed vos engine clock :
  0 ≤ historyWindow engine → windowed engine →
  historyWindow (scoreAll vos (engine, clock)).2.1 = historyWindow engine ∧
  windowed (scoreAll vos (engine, clock)).2.1 ∧
  Forall (λ score,
            historyWindow engine ≤ 1 → stability score = (2 # 10)%Q)
    (scoreAll vos (engine, clock)).1.
Proof.
  revert engine clock. induction vos as [|vo vos IH];
    intros engine clock Hw Hwin.
  - cbn. by split_and!.
  - rewrite scoreAll_cons. cbn [fst snd].
    destruct (scoreOne_windowed vo engine clock Hw Hwin) as [Hw1 Hwin1].
    pose proof (scoreOne_eq vo engine clock) as Hone. cbv zeta in Hone.
    destruct (scoreOne vo (engine, clock)) as [score [engine1 clock1]].
    cbn [fst snd] in *.
    destruct (IH engine1 clock1 ltac:(lia) Hwin1) as (Hw2 & Hwin2 & Hst).
    split_and!; [congruence|done|].
    constructor.
    + intros Hsmall. injection Hone as -> _ _. cbn [stability].
      unfold _computeStability.
      pose proof (windowed_default engine (_makeKey vo) Hw Hwin) as Hlen.
      destruct (Nat.ltb_spec
                  (length (default [] (objectHistory engine
                                         !! _makeKey vo))) 2);
        [done|lia].
    + eapply Forall_impl; [exact Hst|]. cbn. intros sc Hsc Hsmall.
      apply Hsc. lia.
Qed.

(** X15.  The observation histories are a sliding window (for a window
    [historyWindow >= 0] over histories that fit it, as those of a new engine
    do): [_updateHistory] reads the clock once and leaves under the key the
    last [historyWindow] entries of the old history followed by the reading,
    and touches no other key; scoring a snapshot keeps every history within
    the window.  With [historyWindow <= 1] no history ever holds two
    observations, so every stability score is the default 0.2. *)
Theorem history_window (engine : Engine) (clock : Clock) :
  0 ≤ historyWindow engine → windowed engine →
  (∀ key,
     let st' := _updateHistory key (engine, clock) in
     let hist := default [] (objectHistory engine !! key) in
     objectHistory st'.1 !! key
     = Some (drop (length hist + 1 - Z.to_nat (historyWindow engine))
               (hist ++ [readings clock (reads clock)])) ∧
     (∀ other, other ≠ key →
        objectHistory st'.1 !! other = objectHistory engine !! other) ∧
     reads st'.2 = S (reads clock) ∧
     windowed st'.1) ∧
  (∀ snapshot : SessionManager.Snapshot,
     let out := scoreSnapshot snapshot (engine, clock) in
     historyWindow out.2.1 = historyWindow engine ∧
     windowed out.2.1 ∧
     (historyWindow engine ≤ 1 →
      Forall (λ score, stability score = (2 # 10)%Q) out.1)).
Proof.
  intros Hw Hwin. split.
  - intros key. cbv zeta. rewrite updateHistory_eq.
    cbn [fst snd objectHistory historyWindow reads].
    pose proof (windowed_default engine key Hw Hwin) as Hlen.
    destruct (pushHistory_window (historyWindow engine)
                (default [] (objectHistory engine !! key))
                (readings clock (reads clock)) Hw Hlen) as [Hpush Hfit].
    split_and!.
    + by rewrite lookup_insert_eq, Hpush.
    + intros other Hne. by rewrite lookup_insert_ne.
    + done.
    + intros key' hist. cbn [objectHistory historyWindow].
      destruct (decide (key' = key)) as [->|Hne].
      * rewrite lookup_insert_eq. by intros [= <-].
      * rewrite lookup_insert_ne by done. apply Hwin.
  - intros snapshot. cbv zeta. unfold scoreSnapshot.
    destruct (scoreAll_windowed
                (virtualObjects (SessionManager.snap_result snapshot))
                engine clock Hw Hwin) as (Hw' & Hwin' & Hst).
    split_and!; [done..|]. intros Hsmall.
    eapply Forall_impl; [exact Hst|]. cbn. intros sc Hsc. by apply Hsc.
Qed.

Lemma windowed_newEngine optHistoryWindow :
  windowed (newEngine optHistoryWindow).
Proof. intros key hist Hk. cbn in Hk. by rewrite lookup_empty in Hk. Qed.

Lemma history_window_witness :
  let vo := Excavator.valueVO "vo_1" "#" "number" (JNum 5) in
  Forall (λ score, stability score = (2 # 10)%Q)
    (scoreSnapshot (snapshotOf [vo; vo; vo])
       (newEngine (Some 1), tickingClock)).1.
Proof.
  cbv zeta.
  apply (proj2 (history_window (newEngine (Some 1)) tickingClock
                  ltac:(by vm_compute) (windowed_newEngine (Some 1)))).
  by vm_compute.
Defined.

Lemma scoreAll_shape vos engine clock :
  let out := scoreAll vos (engine, clock) in
  score_id <$> out.1 = vo_id <$> vos ∧
  score_category <$> out.1
  = (λ vo, orElse (vo_category vo) "unknown") <$> vos ∧
  reuseHint <$> out.1 = _computeReuseHint <$> vos ∧
  historyWindow out.2.1 = historyWindow engine ∧
  (∀ key, key ∉ _makeKey <$> vos →
          objectHistory out.2.1 !! key = objectHistory engine !! key) ∧
  readings out.2.2 = readings clock ∧
  (reads clock + length vos ≤ reads out.2.2
   ≤ reads clock + 2 * length vos)%nat.
Proof.
  revert engine clock. induction vos as [|vo vos IH]; intros engine clock.
  - cbn. split_and!; try done; lia.
  - cbv zeta. rewrite scoreAll_cons. cbn [fst snd].
    rewrite scoreOne_eq. cbn [fst snd].
    destruct (computeNovelty_clock
                (default [] (objectHistory engine !! _makeKey vo)) clock)
      as [Hreadings Hreads].
    cbv zeta in Hreadings, Hreads.
    match goal with |- context [scoreAll vos (?e, ?c)] =>
      destruct (IH e c) as (Hid & Hcat & Hhint & Hw & Hkeys & Hrd & Hn) end.
    cbn [historyWindow objectHistory readings reads] in *.
    rewrite !fmap_cons, Hid, Hcat, Hhint.
    split_and!; try done.
    + intros key [Hne Hnotin]%not_elem_of_cons.
      rewrite Hkeys by done. by rewrite lookup_insert_ne.
    + congruence.
    + cbn [length]. lia.
    + cbn [length]. lia.
Qed.

(** X16.  [scoreSnapshot] returns one score per virtual object of the
    snapshot's result, in order, carrying the object's id, its category (or
    [unknown]) and its reuse hint.  It keeps the engine's window, leaves the
    history of every identity key that no object of the snapshot has as it
    was, and reads the clock at least once and at most twice per object. *)
Theorem scoreSnapshot_shape (snapshot : SessionManager.Snapshot)
  (engine : Engine) (clock : Clock) :
  let vos := virtualObjects (SessionManager.snap_result snapshot) in
  let out := scoreSnapshot snapshot (engine, clock) in
  score_id <$> out.1 = vo_id <$> vos ∧
  score_category <$> out.1
  = (λ vo, orElse (vo_category vo) "unknown") <$> vos ∧
  reuseHint <$> out.1 = _computeReuseHint <$> vos ∧
  historyWindow out.2.1 = historyWindow engine ∧
  (∀ key, key ∉ _makeKey <$> vos →
          objectHistory out.2.1 !! key = objectHistory engine !! key) ∧
  readings out.2.2 = readings clock ∧
  (reads clock + length vos ≤ reads out.2.2
   ≤ reads clock + 2 * length vos)%nat.
Proof.
  intros vos out. subst vos out. unfold scoreSnapshot.
  apply scoreAll_shape.
Qed.



(** X18.  The engine tells the objects of a JSON excavation apart by shape
    only: every value object has the identity key [value:{}] and the reuse
    hint [misc], every array object the key [struct:{}], and an object node the
    key [struct:] followed by the JSON text of its field types, both with the
    hint [api-schema].  So all value objects of all excavations share one
    observation history, and so do all arrays. *)
Theorem excavated_keys_and_hints (maxDepth maxArraySample : Z)
  (input : JValue) (n0 : nat) (vo : VirtualObject) :
  vo ∈ virtualObjects (Excavator.excavate maxDepth maxArraySample input n0).1 →
  (vo_category vo = Some "value" ∧ _makeKey vo = "value:{}" ∧
   _computeReuseHint vo = "misc") ∨
  (vo_category vo = Some "struct" ∧ vo_type vo = Some "array" ∧
   _makeKey vo = "struct:{}" ∧ _computeReuseHint vo = "api-schema") ∨
  (vo_category vo = Some "struct" ∧ vo_type vo = Some "object" ∧
   _computeReuseHint vo = "api-schema" ∧
   ∃ fields, vo_fields vo = Some fields ∧
             _makeKey vo = "struct:" +:+ JSON_stringify fields).
Proof.
  destruct (ExcavatorFacts.excavate_block maxDepth maxArraySample input n0)
    as (root & n' & V & R & C & -> & HB).
  cbn [fst virtualObjects].
  rewrite (Excavator.blk_vos _ _ _ _ _ _ _ HB).
  intros (c & -> & _)%list_elem_of_fmap. unfold Excavator.emittedVO.
  destruct (Excavator.call_value c) as [| | | | |elems|entries].
  1-5: by left.
  - right. left. by split_and!.
  - right. right. split_and!; [done..|]. by eexists.
Qed.

Lemma excavated_keys_and_hints_witness :
  (vo_category (Excavator.valueVO "vo_2" "#.a" "number" (JNum 1))
   = Some "value" ∧
   _makeKey (Excavator.valueVO "vo_2" "#.a" "number" (JNum 1)) = "value:{}" ∧
   _computeReuseHint (Excavator.valueVO "vo_2" "#.a" "number" (JNum 1))
   = "misc") ∨
  (vo_category (Excavator.valueVO "vo_2" "#.a" "number" (JNum 1))
   = Some "struct" ∧
   vo_type (Excavator.valueVO "vo_2" "#.a" "number" (JNum 1))
   = Some "array" ∧
   _makeKey (Excavator.valueVO "vo_2" "#.a" "number" (JNum 1)) = "struct:{}" ∧
   _computeReuseHint (Excavator.valueVO "vo_2" "#.a" "number" (JNum 1))
   = "api-schema") ∨
  (vo_category (Excavator.valueVO "vo_2" "#.a" "number" (JNum 1))
   = Some "struct" ∧
   vo_type (Excavator.valueVO "vo_2" "#.a" "number" (JNum 1))
   = Some "object" ∧
   _computeReuseHint (Excavator.valueVO "vo_2" "#.a" "number" (JNum 1))
   = "api-schema" ∧
   ∃ fields,
     vo_fields (Excavator.valueVO "vo_2" "#.a" "number" (JNum 1))
     = Some fields ∧
     _makeKey (Excavator.valueVO "vo_2" "#.a" "number" (JNum 1))
     = "struct:" +:+ JSON_stringify fields).
Proof.
  apply (excavated_keys_and_hints 6 8 (JObj [("a", JNum 1)]) 0%nat).
  vm_compute. right. left.
Defined.

End ScoreEngineExtras.

(** ** The multi-pass engine *)

Module MultiPassExtras.
Import MultiPass MultiPassFacts.

Section RunExtras.

Context {Input Result Region World : Type}.

Local Abbreviation Callback := (@Callback World).
Local Abbreviation RunState := (RunState Input Result Region World).

Implicit Types (st : RunState) (input : Input) (region : Region).

Lemma forEachRegion_thrown
  (deepFn : Input → Region → Callback Result) input before region after
  results acc st w1 w2 message :
  DeepCalls deepFn input (world st) before results w1 →
  deepFn input region w1 = (Thrown message, w2) →
  forEachRegion deepFn input (before ++ region :: after) acc st
  = (Thrown message,
     {| world := w2;
        trace := trace st
                 ++ (DeepCall input <$> before ++ [region]) |}).
Proof.
  revert acc st results.
  induction before as [|region' before IH]; intros acc st results Hcalls Hdeep.
  - inversion Hcalls; subst. cbn [app forEachRegion].
    unfold mbind, Run_bind, invoke. by rewrite Hdeep.
  - inversion Hcalls as [|? ? deep w' ? results' ? Hfirst Hrest]; subst.
    cbn [app forEachRegion]. unfold mbind, Run_bind, invoke at 1.
    rewrite Hfirst.
    erewrite IH; [|exact Hrest|exact Hdeep].
    cbn [world trace]. rewrite fmap_cons. by rewrite <- app_assoc.
Qed.

(** X19.  A callback that throws ends the run with its error and nothing is
    returned.  When [shallowFn] throws, it is the only call made; when the
    selector throws, no region is visited; when [deepFn] throws on a selected
    region, the regions before it have been visited in order, the later ones
    are not, and the deep results collected so far are lost with the run. *)
Theorem run_throws :
  (∀ (maxDeepRegions : Z) (input : Input)
     (shallowFn : Input → Callback Result)
     (deepFn : Input → Region → Callback Result)
     (regionSelector : option (Result → Callback (list Region)))
     (st : RunState) (message : string) (w1 : World),
     shallowFn input (world st) = (Thrown message, w1) →
     run maxDeepRegions input shallowFn deepFn regionSelector st
     = (Thrown message,
        {| world := w1; trace := trace st ++ [ShallowCall input] |})) ∧
  (∀ (maxDeepRegions : Z) (input : Input)
     (shallowFn : Input → Callback Result)
     (deepFn : Input → Region → Callback Result)
     (selector : Result → Callback (list Region))
     (st : RunState) (shallow : Result) (message : string) (w1 w2 : World),
     shallowFn input (world st) = (Returned shallow, w1) →
     selector shallow w1 = (Thrown message, w2) →
     run maxDeepRegions input shallowFn deepFn (Some selector) st
     = (Thrown message,
        {| world := w2;
           trace := trace st
                    ++ [ShallowCall input; SelectorCall shallow] |})) ∧
  (∀ (maxDeepRegions : Z) (input : Input)
     (shallowFn : Input → Callback Result)
     (deepFn : Input → Region → Callback Result)
     (selector : Result → Callback (list Region))
     (st : RunState) (shallow : Result) (regions before after : list Region)
     (region : Region) (results : list (Region * Result)) (message : string)
     (w1 w2 w3 w4 : World),
     shallowFn input (world st) = (Returned shallow, w1) →
     selector shallow w1 = (Returned regions, w2) →
     slice0 maxDeepRegions regions = before ++ region :: after →
     DeepCalls deepFn input w2 before results w3 →
     deepFn input region w3 = (Thrown message, w4) →
     run maxDeepRegions input shallowFn deepFn (Some selector) st
     = (Thrown message,
        {| world := w4;
           trace := trace st
                    ++ [ShallowCall input; SelectorCall shallow]
                    ++ (DeepCall input <$> before ++ [region]) |})).
Proof.
  split_and!.
  - intros maxDeepRegions input shallowFn deepFn regionSelector st message w1
      Hshallow.
    unfold run, mbind, Run_bind, invoke. by rewrite Hshallow.
  - intros maxDeepRegions input shallowFn deepFn selector st shallow message
      w1 w2 Hshallow Hselector.
    unfold run, mbind, Run_bind, invoke. rewrite Hshallow. cbn [world trace].
    rewrite Hselector. by rewrite <- app_assoc.
  - intros maxDeepRegions input shallowFn deepFn selector st shallow regions
      before after region results message w1 w2 w3 w4 Hshallow Hselector
      Hslice Hcalls Hdeep.
    unfold run, mbind, Run_bind. unfold invoke at 1 2.
    rewrite Hshallow. cbn [world trace]. rewrite Hselector, Hslice.
    erewrite forEachRegion_thrown; [|exact Hcalls|exact Hdeep].
    cbn [world trace]. by rewrite <- !app_assoc.
Qed.

(** X20.  A negative [maxDeepRegions] does not switch the deep pass off: with
    [maxDeepRegions = -k] a run that returns has visited all the regions the
    selector returned but the last [k], in order, and [deepResults] pairs each
    of them with its result. *)
Theorem run_negative_cap (maxDeepRegions : Z) (input : Input)
  (shallowFn : Input → Callback Result)
  (deepFn : Input → Region → Callback Result)
  (selector : Result → Callback (list Region))
  (st st' : RunState) (res : RunResult Result Region) :
  maxDeepRegions < 0 →
  run maxDeepRegions input shallowFn deepFn (Some selector) st
  = (Returned res, st') →
  ∃ (w1 w2 : World) (regions : list Region),
    shallowFn input (world st) = (Returned (shallowResult res), w1) ∧
    selector (shallowResult res) w1 = (Returned regions, w2) ∧
    let kept := take (length regions - Z.to_nat (- maxDeepRegions)) regions in
    (deepResults res).*1 = kept ∧
    DeepCalls deepFn input w2 kept (deepResults res) (world st') ∧
    trace st'
    = trace st ++ [ShallowCall input; SelectorCall (shallowResult res)]
      ++ (DeepCall input <$> kept).
Proof.
  intros Hneg Hrun. unfold run in Hrun.
  apply bind_returned in Hrun as (shallow & st1 & Hshallow & Hrun).
  apply invoke_returned in Hshallow as [Hshallow Htrace1].
  apply bind_returned in Hrun as (regions & st2 & Hregions & Hrun).
  apply invoke_returned in Hregions as [Hregions Htrace2].
  cbv zeta in Hrun.
  apply bind_returned in Hrun as (deeps & st3 & Hdeeps & Hret).
  injection Hret as <- <-.
  apply forEachRegion_returned in Hdeeps
    as (results & -> & Hfst & Hcalls & Htrace3).
  rewrite slice0_neg in Hfst, Hcalls, Htrace3 by done.
  cbn [shallowResult deepResults app].
  exists (world st1), (world st2), regions. split_and!; try done.
  rewrite Htrace3, Htrace2, Htrace1. by rewrite <- !app_assoc.
Qed.

End RunExtras.

Lemma run_throws_witness :
  run 16 JNull
    (λ (input : JValue) (w : nat), (Thrown "shallow failed", S w))
    (λ (input : JValue) (region : string) (w : nat), (Returned JNull, w))
    (Some (λ (shallow : JValue) (w : nat), (Returned ["#.a"], w)))
    {| world := 0%nat; trace := [] |}
  = (Thrown "shallow failed",
     {| world := 1%nat; trace := [] ++ [ShallowCall JNull] |}).
Proof.
  apply (proj1 run_throws 16 JNull
           (λ (input : JValue) (w : nat), (Thrown "shallow failed", S w))
           (λ (input : JValue) (region : string) (w : nat),
              (Returned JNull, w))
           (Some (λ (shallow : JValue) (w : nat), (Returned ["#.a"], w)))
           {| world := 0%nat; trace := [] |} "shallow failed" 1%nat).
  reflexivity.
Defined.

Lemma run_negative_cap_witness :
  ∃ (res : RunResult JValue string) (st' : RunState JValue JValue string nat),
    run (-1) JNull
      (λ (input : JValue) (w : nat), (Returned JNull, w))
      (λ (input : JValue) (region : string) (w : nat),
         (Returned (JStr region), S w))
      (Some (λ (shallow : JValue) (w : nat),
               (Returned ["#.a"; "#.b"; "#.c"], w)))
      {| world := 0%nat; trace := [] |}
    = (Returned res, st') ∧
    (deepResults res).*1 = ["#.a"; "#.b"].
Proof.
  set (shallowFn := λ (input : JValue) (w : nat),
         (Returned JNull, w) : Outcome JValue * nat).
  set (deepFn := λ (input : JValue) (region : string) (w : nat),
         (Returned (JStr region), S w) : Outcome JValue * nat).
  set (selector := λ (shallow : JValue) (w : nat),
         (Returned ["#.a"; "#.b"; "#.c"], w) : Outcome (list string) * nat).
  destruct (run (-1) JNull shallowFn deepFn (Some selector)
              {| world := 0%nat; trace := [] |}) as [[res|message] st']
    eqn:Hrun; [|by vm_compute in Hrun].
  exists res, st'. split; [done|].
  destruct (run_negative_cap (-1) JNull shallowFn deepFn selector _ _ _
              ltac:(lia) Hrun)
    as (w1 & w2 & regions & _ & Hsel & Hfst & _).
  injection Hsel as <- _. exact Hfst.
Defined.

End MultiPassExtras.

(** ** The inspect command *)

Module InspectExtras.
Import SessionManager SessionManagerFacts SessionManagerExtras Inspect.

(** The manager [main] holds after [startSession]. *)
Lemma main_session baseName metadata now (db : Persistence) :
  let sessionId := "json:" +:+ baseName in
  ∃ session db1,
    startSession sessionId metadata now
      (newManager (Some 6) (Some 10) (Some db))
    = ({| maxDepth := 6; maxSnapshots := 10;
          sessions := <[sessionId := session]> ∅;
          persistence := Some db1 |}, session) ∧
    session_id session = sessionId ∧
    session_createdAt session = now ∧
    session_metadata session = withDefault (JObj []) metadata ∧
    snapshots session = loadSessionSnapshots sessionId db ∧
    driftEvents (summary session) = 0%nat ∧
    (totalVirtualObjects (summary session),
     totalRelationships (summary session),
     summary_domSheets (summary session)) = totalsOf (snapshots session) ∧
    snapshotsTable db1 = snapshotsTable db ∧
    is_Some (obj_get sessionId (sessionsTable db1)).
Proof.
  intros sessionId.
  set (mgr := newManager (Some 6) (Some 10) (Some db)).
  destruct (startSession_stored mgr db sessionId metadata now eq_refl
              (lookup_empty _))
    as (Hsn & Ht & Hd & Hc & Hm & Hdb1).
  destruct (startSession_new sessionId metadata now mgr (lookup_empty _))
    as (session & dbo & Hstart & _ & Hid & _).
  rewrite Hstart in *. cbn [fst snd persistence] in *. subst dbo.
  match type of Hstart with context [saveSession ?created db] =>
    destruct (saveSession_rows created db) as (Htable & Hrow & _) end.
  cbn [session_id] in Hrow.
  eexists session, _. split_and!; try done; by rewrite Hrow.
Qed.

Lemma addSnapshot_thrown sessionId excavationResult label now mgr session db
  message :
  sessions mgr !! sessionId = Some session →
  persistence mgr = Some db →
  session_id session = sessionId →
  is_Some (obj_get sessionId (sessionsTable db)) →
  (addSnapshot sessionId excavationResult label now mgr).2 = Thrown message →
  message = "UNIQUE constraint failed: snapshots.snapshot_id".
Proof.
  intros Hs Hdb Hid [row Hrow]. unfold addSnapshot. rewrite Hs, Hdb.
  assert (Hid' : ∀ snapshot,
            session_id
              (_detectDrift
                 (_updateSummary
                    (pushSnapshot (maxSnapshots mgr) snapshot session)))
            = sessionId).
  { intros snapshot.
    destruct (detectDrift_step
                (_updateSummary
                   (pushSnapshot (maxSnapshots mgr) snapshot session)))
      as [-> _].
    by destruct (updateSummary_totalsOf
                   (pushSnapshot (maxSnapshots mgr) snapshot session))
      as [-> _]. }
  rewrite Hid'. unfold saveSnapshot.
  destruct (existsb _ (snapshotsTable db)); [cbn; congruence|].
  by rewrite Hrow.
Qed.

(** A run on a stored log of ten snapshots or more fails. *)
Lemma main_fails_when_full (jsonFile baseName cwd : string) (data : JValue)
  (times : Times) (clock : ScoreEngine.Clock) (db : Database) :
  (10 ≤ length (loadSessionSnapshots ("json:" +:+ baseName) (catalog db)))%nat
  →
  let out := main jsonFile baseName cwd data times clock db in
  out.1 = Thrown "UNIQUE constraint failed: snapshots.snapshot_id" ∧
  scoresTable out.2 = scoresTable db.
Proof.
  intros Hfull out. subst out. unfold main.
  destruct (main_session baseName
              (JObj [("source", JStr jsonFile); ("type", JStr "json-file");
                     ("cwd", JStr cwd)]) (startedAt times) (catalog db))
    as (session & db1 & -> & Hid & _ & _ & Hsn & _ & _ & _ & Hrow).
  cbv zeta in *. rewrite Hid.
  set (sessionId := "json:" +:+ baseName) in *.
  set (mgr1 := {| maxDepth := 6 |}).
  assert (Hs1 : sessions mgr1 !! sessionId = Some session)
    by apply lookup_insert_eq.
  destruct (Excavator.excavate 6 8 (payloadOf data) 0) as [shallow walk].
  destruct (addSnapshot sessionId shallow (Some "shallow") (shallowAt times)
              mgr1) as [mgr2 [snap1|message]] eqn:Hadd1.
  - destruct (Excavator.excavate 6 8 (payloadOf data) (Excavator.nextId walk))
      as [deep walk'].
    destruct (addSnapshot_collides mgr1 db1 sessionId session shallow deep
                (Some "shallow") (Some "deep") (shallowAt times)
                (deepAt times) snap1 eq_refl Hs1)
      as (Hthrown & _).
    + rewrite Hsn. cbn. lia.
    + by rewrite Hadd1.
    + cbv zeta in Hthrown. rewrite Hadd1 in Hthrown. cbn [fst] in Hthrown.
      destruct (addSnapshot sessionId deep (Some "deep") (deepAt times) mgr2)
        as [mgr3 [snap2|message]]; cbn [snd] in Hthrown; [done|].
      injection Hthrown as ->. done.
  - pose proof (addSnapshot_thrown sessionId shallow (Some "shallow")
                  (shallowAt times) mgr1 session db1 message Hs1 eq_refl Hid
                  Hrow) as Hmessage.
    rewrite Hadd1 in Hmessage. cbn [fst snd]. by rewrite Hmessage.
Qed.

Lemma added_session_id k snapshot session :
  session_id (_detectDrift (_updateSummary (pushSnapshot k snapshot session)))
  = session_id session.
Proof.
  destruct (detectDrift_step (_updateSummary (pushSnapshot k snapshot session)))
    as [-> _].
  by destruct (updateSummary_totalsOf (pushSnapshot k snapshot session))
    as [-> _].
Qed.

Lemma added_session_createdAt k snapshot session :
  session_createdAt
    (_detectDrift (_updateSummary (pushSnapshot k snapshot session)))
  = session_createdAt session.
Proof.
  unfold _detectDrift, _updateSummary.
  destruct (fold_left _ _ _) as [[? ?] ?].
  destruct (_ <? 2)%nat; [done|].
  destruct (_ !! _); [|done]. destruct (_ !! _); [|done].
  by destruct (0 <? _).
Qed.

Lemma added_session_metadata k snapshot session :
  session_metadata
    (_detectDrift (_updateSummary (pushSnapshot k snapshot session)))
  = session_metadata session.
Proof.
  unfold _detectDrift, _updateSummary.
  destruct (fold_left _ _ _) as [[? ?] ?].
  destruct (_ <? 2)%nat; [done|].
  destruct (_ !! _); [|done]. destruct (_ !! _); [|done].
  by destruct (0 <? _).
Qed.

(** An [addSnapshot] whose row the database accepts. *)
Lemma addSnapshot_saved sessionId excavationResult label now mgr session db :
  sessions mgr !! sessionId = Some session →
  persistence mgr = Some db →
  session_id session = sessionId →
  is_Some (obj_get sessionId (sessionsTable db)) →
  let snapshot := newSnapshot sessionId session excavationResult
                    (default "default" label) now in
  existsb (λ row, String.eqb (snap_id row.2) (snap_id snapshot))
    (snapshotsTable db) = false →
  addSnapshot sessionId excavationResult label now mgr
  = ({| maxDepth := maxDepth mgr; maxSnapshots := maxSnapshots mgr;
        sessions :=
          <[sessionId :=
              _detectDrift
                (_updateSummary
                   (pushSnapshot (maxSnapshots mgr) snapshot session))]>
            (sessions mgr);
        persistence :=
          Some {| sessionsTable := sessionsTable db;
                  snapshotsTable :=
                    snapshotsTable db ++ [(sessionId, snapshot)] |} |},
     Returned snapshot).
Proof.
  intros Hs Hdb Hid [row Hrow] snapshot Hfree.
  unfold addSnapshot. rewrite Hs, Hdb. fold snapshot.
  rewrite added_session_id, Hid. unfold saveSnapshot.
  by rewrite Hfree, Hrow.
Qed.

Lemma append_inv_l (s a b : string) : s +:+ a = s +:+ b → a = b.
Proof. induction s as [|c s IH]; cbn; [done|]. intros [= ?]. auto. Qed.

Lemma summary_eta (sm : Summary) :
  sm = {| totalVirtualObjects := totalVirtualObjects sm;
          totalRelationships := totalRelationships sm;
          summary_domSheets := summary_domSheets sm;
          driftEvents := driftEvents sm |}.
Proof. by destruct sm. Qed.

Lemma saveScores_saved snapshotId scores nowIso db :
  existsb (λ row, String.eqb (snap_id row.2) snapshotId)
    (snapshotsTable (catalog db)) = true →
  ∃ db',
    saveScores snapshotId scores nowIso db = Returned db' ∧
    catalog db' = catalog db ∧
    length (scoresTable db') = (length (scoresTable db) + length scores)%nat.
Proof.
  intros Hrow. unfold saveScores. destruct scores as [|score scores].
  - exists db. split_and!; [done..|]. cbn. lia.
  - rewrite Hrow. eexists. split_and!; [done..|].
    cbn [scoresTable]. by rewrite length_app, length_map.
Qed.

Lemma existsb_or_false {A} (f g : A → bool) (l : list A) :
  existsb (λ x, f x || g x) l = false →
  existsb f l = false ∧ existsb g l = false.
Proof.
  induction l as [|x l IH]; [done|]. cbn.
  intros [[Hf Hg]%orb_false_elim Hrest]%orb_false_elim.
  destruct (IH Hrest) as [-> ->]. by rewrite Hf, Hg.
Qed.

(** X22.  The first run of the command on a file name (the catalog holds no
    snapshot of the session [json:<file name>], and none with its first two
    ids) returns a report.  Its two passes are the same excavation with other
    ids, so the report lists the snapshots [<session>:0] and [<session>:1],
    labelled [shallow] and [deep], with equal metrics; the totals are twice
    the counts of one excavation, no drift event is counted, and there is one
    score per virtual object of the deep pass.  The catalog gains the two
    snapshot rows and one score row per score. *)
Theorem main_first_run (jsonFile baseName cwd : string) (data : JValue)
  (times : Times) (clock : ScoreEngine.Clock) (db : Database) :
  let sessionId := "json:" +:+ baseName in
  loadSessionSnapshots sessionId (catalog db) = [] →
  existsb (λ row, String.eqb (snap_id row.2) (sessionId +:+ ":0")
                  || String.eqb (snap_id row.2) (sessionId +:+ ":1"))
    (snapshotsTable (catalog db)) = false →
  let shallow := Excavator.excavate 6 8 (payloadOf data) 0 in
  let deep :=
    Excavator.excavate 6 8 (payloadOf data) (Excavator.nextId shallow.2) in
  let metrics :=
    {| metrics_virtualObjects := length (virtualObjects shallow.1);
       metrics_relationships := length (relationships shallow.1);
       metrics_domSheets := 0 |} in
  ∃ report db',
    main jsonFile baseName cwd data times clock db = (Returned report, db') ∧
    report_id (report_session report) = sessionId ∧
    report_createdAt (report_session report) = startedAt times ∧
    report_snapshots (report_session report)
    = [{| info_id := sessionId +:+ ":0"; info_label := "shallow";
          info_capturedAt := shallowAt times; info_metrics := metrics |};
       {| info_id := sessionId +:+ ":1"; info_label := "deep";
          info_capturedAt := deepAt times; info_metrics := metrics |}] ∧
    report_summary (report_session report)
    = {| totalVirtualObjects := 2 * length (virtualObjects shallow.1);
         totalRelationships := 2 * length (relationships shallow.1);
         summary_domSheets := 0;
         driftEvents := 0 |} ∧
    ScoreEngine.score_id <$> report_scores report
    = vo_id <$> virtualObjects deep.1 ∧
    snap_id ∘ snd <$> snapshotsTable (catalog db')
    = (snap_id ∘ snd <$> snapshotsTable (catalog db))
      ++ [sessionId +:+ ":0"; sessionId +:+ ":1"] ∧
    length (scoresTable db')
    = (length (scoresTable db) + length (virtualObjects shallow.1))%nat.
Proof.
  intros sessionId Hload Hfree shallow deep metrics.
  destruct (existsb_or_false _ _ _ Hfree) as [Hfree0 Hfree1].
  destruct (ExcavatorExtras.excavate_instance 6 8 (payloadOf data))
    as (k & Vt & Rt & _ & _ & Hex).
  destruct (Hex 0%nat) as (Hv1 & Hr1 & Hd1 & Hn1). fold shallow in Hv1, Hr1,
    Hd1, Hn1.
  destruct (Hex (Excavator.nextId shallow.2)) as (Hv2 & Hr2 & Hd2 & _).
  fold deep in Hv2, Hr2, Hd2.
  assert (Hlv : length (virtualObjects deep.1)
                = length (virtualObjects shallow.1)).
  { by rewrite Hv1, Hv2, !length_fmap. }
  assert (Hlr : length (relationships deep.1)
                = length (relationships shallow.1)).
  { by rewrite Hr1, Hr2, !length_fmap. }
  unfold main.
  destruct (main_session baseName
              (JObj [("source", JStr jsonFile); ("type", JStr "json-file");
                     ("cwd", JStr cwd)]) (startedAt times) (catalog db))
    as (session & db1 & -> & Hid & Hcreated & _ & Hsn & Hdrift & _ & Htable
        & Hrow).
  cbv zeta in *. fold sessionId in Hid, Hsn, Hrow |- *. rewrite Hid.
  rewrite Hload in Hsn.
  set (mgr1 := {| maxDepth := 6 |}).
  fold shallow. destruct shallow as [shallowResult walk] eqn:Hshallow.
  cbn [fst snd] in *.
  (* the first snapshot *)
  rewrite (addSnapshot_saved sessionId shallowResult (Some "shallow")
             (shallowAt times) mgr1 session db1 (lookup_insert_eq _ _ _)
             eq_refl Hid Hrow);
    last first.
  { cbn [newSnapshot snap_id]. rewrite Hsn, Htable. exact Hfree0. }
  cbn [maxDepth maxSnapshots sessions mgr1].
  set (snap1 := newSnapshot sessionId session shallowResult _ _).
  set (session1 := _detectDrift _).
  set (db2 := {| sessionsTable := sessionsTable db1 |}).
  set (mgr2 := {| maxDepth := 6 |}).
  assert (Hpushed1 : snapshots (pushSnapshot 10 snap1 session) = [snap1]).
  { unfold pushSnapshot. cbn [setSnapshots snapshots]. by rewrite Hsn. }
  assert (Hsn1 : snapshots session1 = [snap1]).
  { subst session1. by rewrite added_snapshots. }
  assert (Hdrift1 : driftEvents (summary session1) = 0%nat).
  { subst session1.
    destruct (updateSummary_totalsOf (pushSnapshot 10 snap1 session))
      as (_ & Hs' & Hd' & _).
    cbv zeta in Hs', Hd'.
    rewrite detectDrift_short by (rewrite Hs', Hpushed1; cbn; lia).
    by rewrite Hd'. }
  assert (Hid1 : session_id session1 = sessionId).
  { subst session1. by rewrite added_session_id. }
  (* the second snapshot *)
  fold deep. destruct deep as [deepResult walk'] eqn:Hdeep.
  cbn [fst snd] in *.
  rewrite (addSnapshot_saved sessionId deepResult (Some "deep")
             (deepAt times) mgr2 session1 db2 (lookup_insert_eq _ _ _)
             eq_refl Hid1 Hrow);
    last first.
  { cbn [newSnapshot snap_id]. rewrite Hsn1. subst db2.
    cbn [snapshotsTable length].
    change (sessionId +:+ ":" +:+ pretty 1%nat) with (sessionId +:+ ":1").
    rewrite existsb_app, Htable, Hfree1.
    cbn [existsb orb snd snap_id snap1 newSnapshot]. rewrite Hsn.
    rewrite orb_false_r. apply String.eqb_neq.
    intros Heq%append_inv_l. discriminate. }
  cbn [maxDepth maxSnapshots sessions mgr2].
  set (snap2 := newSnapshot sessionId session1 deepResult _ _).
  set (session2 := _detectDrift _).
  set (db3 := {| sessionsTable := sessionsTable db2 |}).
  set (mgr3 := {| maxDepth := 6 |}).
  assert (Hpushed : snapshots (pushSnapshot 10 snap2 session1)
                    = [snap1; snap2]).
  { unfold pushSnapshot. cbn [setSnapshots snapshots]. by rewrite Hsn1. }
  assert (Hsn2 : snapshots session2 = [snap1; snap2]).
  { subst session2. by rewrite added_snapshots. }
  assert (Hm1 : snap_metrics snap1 = metrics).
  { subst snap1 metrics. cbn [newSnapshot snap_metrics]. by rewrite Hd1. }
  assert (Hm2 : snap_metrics snap2 = metrics).
  { subst snap2 metrics. cbn [newSnapshot snap_metrics].
    by rewrite Hd2, Hlv, Hlr. }
  assert (Hsum2 : summary session2
                  = {| totalVirtualObjects :=
                         2 * length (virtualObjects shallowResult);
                       totalRelationships :=
                         2 * length (relationships shallowResult);
                       summary_domSheets := 0;
                       driftEvents := 0 |}).
  { rewrite (summary_eta (summary session2)). subst session2.
    destruct (detectDrift_frame
                (_updateSummary (pushSnapshot 10 snap2 session1)))
      as (_ & -> & -> & ->).
    destruct (updateSummary_totals (pushSnapshot 10 snap2 session1))
      as (Hs' & Hd' & -> & -> & ->).
    cbv zeta in Hs', Hd'.
    rewrite (detectDrift_events _ [] snap1 snap2)
      by (by rewrite Hs', Hpushed).
    rewrite Hd', Hpushed. unfold driftScore. rewrite Hm1, Hm2.
    change (summary (pushSnapshot 10 snap2 session1))
      with (summary session1).
    rewrite Hdrift1, !Z.sub_diag. cbn [Z.abs Z.add Z.ltb Z.compare].
    cbn [fmap list_fmap compose]. rewrite Hm1, Hm2. subst metrics. cbn.
    f_equal; lia. }
  (* the scores and the report *)
  destruct (ScoreEngineExtras.scoreAll_shape (virtualObjects deepResult)
              (ScoreEngine.newEngine (Some 20)) clock)
    as (Hids & _).
  cbv zeta in Hids. unfold ScoreEngine.scoreSnapshot.
  change (virtualObjects (snap_result snap2)) with (virtualObjects deepResult).
  destruct (ScoreEngine.scoreAll (virtualObjects deepResult)
              (ScoreEngine.newEngine (Some 20), clock)) as [scores st].
  cbn [fst] in Hids.
  destruct (saveScores_saved (snap_id snap2) scores (scoredAt times)
              (catalogOf mgr3 db)) as (db4 & -> & Hcat4 & Hlen4).
  { unfold catalogOf. subst mgr3 db3.
    cbn [catalog persistence default from_option id snapshotsTable].
    rewrite existsb_app. cbn. by rewrite String.eqb_refl, orb_true_r. }
  unfold getSessionSummary. cbn [sessions mgr3]. rewrite lookup_insert_eq.
  eexists _, _. split; [reflexivity|].
  cbn [report_session report_scores report_id report_createdAt
         report_snapshots report_summary].
  assert (Hid2 : session_id session2 = sessionId).
  { subst session2. by rewrite added_session_id. }
  assert (Hc2 : session_createdAt session2 = startedAt times).
  { subst session2 session1. by rewrite !added_session_createdAt. }
  assert (Hi1 : snap_id snap1 = sessionId +:+ ":0").
  { subst snap1. cbn [newSnapshot snap_id]. by rewrite Hsn. }
  assert (Hi2 : snap_id snap2 = sessionId +:+ ":1").
  { subst snap2. cbn [newSnapshot snap_id]. by rewrite Hsn1. }
  split_and!.
  - done.
  - done.
  - rewrite Hsn2. cbn [map]. by rewrite Hi1, Hi2, Hm1, Hm2.
  - done.
  - done.
  - rewrite Hcat4. unfold catalogOf. subst mgr3 db3 db2.
    cbn [catalog persistence default from_option id snapshotsTable].
    rewrite !fmap_app, Htable, <- app_assoc.
    cbn [fmap list_fmap compose snd app]. by rewrite Hi1, Hi2.
  - rewrite Hlen4. unfold catalogOf. cbn [scoresTable]. f_equal.
    by rewrite <- Hlv, <- (length_fmap ScoreEngine.score_id), Hids,
      length_fmap.
Qed.

Lemma main_first_run_witness :
  ∃ report db',
    main "in.json" "in.json" "/" (JObj [("a", JNum 1)])
      {| startedAt := "t0"; shallowAt := "t1"; deepAt := "t2";
         scoredAt := "t3" |}
      ScoreEngine.tickingClock emptyDatabase
    = (Returned report, db') ∧
    driftEvents (report_summary (report_session report)) = 0%nat ∧
    info_id <$> report_snapshots (report_session report)
    = ["json:in.json:0"; "json:in.json:1"].
Proof.
  destruct (main_first_run "in.json" "in.json" "/" (JObj [("a", JNum 1)])
              {| startedAt := "t0"; shallowAt := "t1"; deepAt := "t2";
                 scoredAt := "t3" |}
              ScoreEngine.tickingClock emptyDatabase eq_refl eq_refl)
    as (report & db' & Hmain & _ & _ & Hsn & Hsum & _).
  exists report, db'. split_and!; [done|by rewrite Hsum|by rewrite Hsn].
Defined.

(** The session after two additions with equal metrics to an empty log. *)
Lemma two_passes_session k session snap1 snap2 metrics :
  2 ≤ k →
  snapshots session = [] →
  driftEvents (summary session) = 0%nat →
  snap_metrics snap1 = metrics → snap_metrics snap2 = metrics →
  let session1 :=
    _detectDrift (_updateSummary (pushSnapshot k snap1 session)) in
  let session2 :=
    _detectDrift (_updateSummary (pushSnapshot k snap2 session1)) in
  snapshots session1 = [snap1] ∧
  snapshots session2 = [snap1; snap2] ∧
  summary session2
  = {| totalVirtualObjects := 2 * metrics_virtualObjects metrics;
       totalRelationships := 2 * metrics_relationships metrics;
       summary_domSheets := 2 * metrics_domSheets metrics;
       driftEvents := 0 |}.
Proof.
  intros Hk Hsn Hdrift Hm1 Hm2 session1 session2.
  assert (Hpushed1 : snapshots (pushSnapshot k snap1 session) = [snap1]).
  { destruct (pushSnapshot_window k snap1 session) as [-> _];
      [lia|rewrite Hsn; cbn; lia|].
    rewrite Hsn. unfold lastn. cbn [app length].
    by replace (1 - Z.to_nat k)%nat with 0%nat by lia. }
  assert (Hsn1 : snapshots session1 = [snap1]).
  { subst session1. by rewrite added_snapshots. }
  assert (Hdrift1 : driftEvents (summary session1) = 0%nat).
  { subst session1.
    destruct (updateSummary_totalsOf (pushSnapshot k snap1 session))
      as (_ & Hs' & Hd' & _).
    cbv zeta in Hs', Hd'.
    rewrite detectDrift_short by (rewrite Hs', Hpushed1; cbn; lia).
    by rewrite Hd'. }
  assert (Hpushed : snapshots (pushSnapshot k snap2 session1)
                    = [snap1; snap2]).
  { destruct (pushSnapshot_window k snap2 session1) as [-> _];
      [lia|rewrite Hsn1; cbn; lia|].
    rewrite Hsn1. unfold lastn. cbn [app length].
    by replace (2 - Z.to_nat k)%nat with 0%nat by lia. }
  split_and!; [done|by subst session2; rewrite added_snapshots|].
  rewrite (summary_eta (summary session2)). subst session2.
  destruct (detectDrift_frame
              (_updateSummary (pushSnapshot k snap2 session1)))
    as (_ & -> & -> & ->).
  destruct (updateSummary_totals (pushSnapshot k snap2 session1))
    as (Hs' & Hd' & -> & -> & ->).
  cbv zeta in Hs', Hd'.
  rewrite (detectDrift_events _ [] snap1 snap2) by (by rewrite Hs', Hpushed).
  rewrite Hd', Hpushed. unfold driftScore. rewrite Hm1, Hm2.
  change (summary (pushSnapshot k snap2 session1)) with (summary session1).
  rewrite Hdrift1, !Z.sub_diag. cbn [Z.abs Z.add Z.ltb Z.compare].
  cbn [fmap list_fmap compose]. rewrite Hm1, Hm2. cbn. f_equal; lia.
Qed.

Lemma addSnapshot_in_memory sessionId excavationResult label now mgr session :
  sessions mgr !! sessionId = Some session →
  persistence mgr = None →
  let snapshot := newSnapshot sessionId session excavationResult
                    (default "default" label) now in
  addSnapshot sessionId excavationResult label now mgr
  = ({| maxDepth := maxDepth mgr; maxSnapshots := maxSnapshots mgr;
        sessions :=
          <[sessionId :=
              _detectDrift
                (_updateSummary
                   (pushSnapshot (maxSnapshots mgr) snapshot session))]>
            (sessions mgr);
        persistence := None |},
     Returned snapshot).
Proof. intros Hs Hnone. unfold addSnapshot. by rewrite Hs, Hnone. Qed.

(** X23.  The multi-mode command in JSON mode always returns a report: its
    manager has no persistence collaborator, so no call throws.  As in the
    single-mode command the [shallow] and the [deep] pass are one excavation
    with other ids, so the report lists the snapshots [json:<file name>:0]
    and [json:<file name>:1] with equal metrics, totals twice the counts of
    one excavation and no drift event, and one score per virtual object of
    the deep pass. *)
Theorem multi_json_report (inputFile baseName : string) (data : JValue)
  (times : Times) (clock : ScoreEngine.Clock) :
  let sessionId := "json:" +:+ baseName in
  let shallow := InspectMulti.buildExcavationResult data 0 in
  let deep :=
    InspectMulti.buildExcavationResult data (Excavator.nextId shallow.2) in
  let metrics :=
    {| metrics_virtualObjects := length (virtualObjects shallow.1);
       metrics_relationships := length (relationships shallow.1);
       metrics_domSheets := 0 |} in
  ∃ report,
    InspectMulti.main inputFile baseName data times clock = Returned report ∧
    report_id (report_session report) = sessionId ∧
    report_createdAt (report_session report) = startedAt times ∧
    report_metadata (report_session report)
    = JObj [("source", JStr inputFile); ("mode", JStr "json")] ∧
    report_snapshots (report_session report)
    = [{| info_id := sessionId +:+ ":0"; info_label := "shallow";
          info_capturedAt := shallowAt times; info_metrics := metrics |};
       {| info_id := sessionId +:+ ":1"; info_label := "deep";
          info_capturedAt := deepAt times; info_metrics := metrics |}] ∧
    report_summary (report_session report)
    = {| totalVirtualObjects := 2 * length (virtualObjects shallow.1);
         totalRelationships := 2 * length (relationships shallow.1);
         summary_domSheets := 0;
         driftEvents := 0 |} ∧
    ScoreEngine.score_id <$> report_scores report
    = vo_id <$> virtualObjects deep.1.
Proof.
  intros sessionId shallow deep metrics.
  destruct (ExcavatorExtras.excavate_instance 6 16 (payloadOf data))
    as (k & Vt & Rt & _ & _ & Hex).
  destruct (Hex 0%nat) as (Hv1 & Hr1 & Hd1 & _).
  destruct (Hex (Excavator.nextId shallow.2)) as (Hv2 & Hr2 & Hd2 & _).
  fold (InspectMulti.buildExcavationResult data 0) in Hv1, Hr1, Hd1.
  fold (InspectMulti.buildExcavationResult data (Excavator.nextId shallow.2))
    in Hv2, Hr2, Hd2.
  fold shallow in Hv1, Hr1, Hd1. fold deep in Hv2, Hr2, Hd2.
  assert (Hlv : length (virtualObjects deep.1)
                = length (virtualObjects shallow.1)).
  { by rewrite Hv1, Hv2, !length_fmap. }
  assert (Hlr : length (relationships deep.1)
                = length (relationships shallow.1)).
  { by rewrite Hr1, Hr2, !length_fmap. }
  unfold InspectMulti.main. cbv zeta.
  change ("json" +:+ ":" +:+ baseName) with sessionId.
  unfold startSession. cbn [sessions newManager persistence].
  rewrite lookup_empty.
  cbn [session_id maxDepth maxSnapshots newManager default from_option id].
  set (session := {| session_id := sessionId |}).
  set (mgr1 := {| maxDepth := 6 |}).
  fold shallow. destruct shallow as [shallowResult walk] eqn:Hshallow.
  cbn [fst snd] in *.
  rewrite (addSnapshot_in_memory sessionId shallowResult (Some "shallow")
             (shallowAt times) mgr1 session (lookup_insert_eq _ _ _) eq_refl).
  cbn [maxDepth maxSnapshots sessions mgr1 default].
  set (snap1 := newSnapshot sessionId session shallowResult _ _).
  set (session1 := _detectDrift _).
  set (mgr2 := {| maxDepth := 6 |}).
  fold deep. destruct deep as [deepResult walk'] eqn:Hdeep.
  cbn [fst snd] in *.
  rewrite (addSnapshot_in_memory sessionId deepResult (Some "deep")
             (deepAt times) mgr2 session1 (lookup_insert_eq _ _ _) eq_refl).
  cbn [maxDepth maxSnapshots sessions mgr2 default].
  set (snap2 := newSnapshot sessionId session1 deepResult _ _).
  set (session2 := _detectDrift _).
  assert (Hm1 : snap_metrics snap1 = metrics).
  { subst snap1 metrics. cbn [newSnapshot snap_metrics]. by rewrite Hd1. }
  assert (Hm2 : snap_metrics snap2 = metrics).
  { subst snap2 metrics. cbn [newSnapshot snap_metrics].
    by rewrite Hd2, Hlv, Hlr. }
  destruct (two_passes_session 5 session snap1 snap2 metrics ltac:(lia)
              eq_refl eq_refl Hm1 Hm2) as (Hsn1 & Hsn2 & Hsum2).
  fold session1 in Hsn1, Hsn2, Hsum2. fold session2 in Hsn2, Hsum2.
  destruct (ScoreEngineExtras.scoreAll_shape (virtualObjects deepResult)
              (ScoreEngine.newEngine (Some 20)) clock)
    as (Hids & _).
  cbv zeta in Hids. unfold ScoreEngine.scoreSnapshot.
  change (virtualObjects (snap_result snap2)) with (virtualObjects deepResult).
  destruct (ScoreEngine.scoreAll (virtualObjects deepResult)
              (ScoreEngine.newEngine (Some 20), clock)) as [scores st].
  cbn [fst] in Hids.
  unfold getSessionSummary. cbn [sessions]. rewrite lookup_insert_eq.
  eexists. split; [reflexivity|].
  cbn [report_session report_scores report_id report_createdAt
         report_metadata report_snapshots report_summary].
  assert (Hi1 : snap_id snap1 = sessionId +:+ ":0") by done.
  assert (Hi2 : snap_id snap2 = sessionId +:+ ":1").
  { subst snap2. cbn [newSnapshot snap_id]. by rewrite Hsn1. }
  split_and!.
  - subst session2 session1. by rewrite !added_session_id.
  - subst session2 session1. by rewrite !added_session_createdAt.
  - subst session2 session1. by rewrite !added_session_metadata.
  - rewrite Hsn2. cbn [map]. by rewrite Hi1, Hi2, Hm1, Hm2.
  - rewrite Hsum2. subst metrics. by cbn.
  - done.
Qed.

Lemma pushSnapshot_under k snapshot session :
  Z.of_nat (length (snapshots session)) < k →
  snapshots (_detectDrift (_updateSummary (pushSnapshot k snapshot session)))
  = snapshots session ++ [snapshot].
Proof.
  intros Hlen. rewrite added_snapshots. unfold pushSnapshot.
  cbn [setSnapshots snapshots]. rewrite length_app. cbn [length].
  by destruct (Z.ltb_spec k (Z.of_nat (length (snapshots session) + 1)));
    [lia|].
Qed.

Lemma session_id_neq (sessionId : string) (n m : nat) :
  n ≠ m →
  String.eqb (sessionId +:+ ":" +:+ pretty n) (sessionId +:+ ":" +:+ pretty m)
  = false.
Proof.
  intros Hne. apply String.eqb_neq. intros Heq%append_inv_l.
  injection Heq as Heq. change (pretty n = pretty m) in Heq.
  apply Hne. by apply (inj (pretty : nat → string)).
Qed.

(** A run on a stored log of at most eight snapshots whose next two ids are
    unused returns, and stores two snapshots with these ids. *)
Lemma main_returns (jsonFile baseName cwd : string) (data : JValue)
  (times : Times) (clock : ScoreEngine.Clock) (db : Database) (stored : nat) :
  let sessionId := "json:" +:+ baseName in
  length (loadSessionSnapshots sessionId (catalog db)) = stored →
  (stored + 2 ≤ 10)%nat →
  existsb (λ row, String.eqb (snap_id row.2)
                    (sessionId +:+ ":" +:+ pretty stored))
    (snapshotsTable (catalog db)) = false →
  existsb (λ row, String.eqb (snap_id row.2)
                    (sessionId +:+ ":" +:+ pretty (S stored)))
    (snapshotsTable (catalog db)) = false →
  ∃ report db' snap1 snap2,
    main jsonFile baseName cwd data times clock db = (Returned report, db') ∧
    length (report_snapshots (report_session report)) = (stored + 2)%nat ∧
    snapshotsTable (catalog db')
    = snapshotsTable (catalog db) ++ [(sessionId, snap1); (sessionId, snap2)] ∧
    snap_id snap1 = sessionId +:+ ":" +:+ pretty stored ∧
    snap_id snap2 = sessionId +:+ ":" +:+ pretty (S stored).
Proof.
  intros sessionId Hstored Hcap Hfree1 Hfree2. unfold main.
  destruct (main_session baseName
              (JObj [("source", JStr jsonFile); ("type", JStr "json-file");
                     ("cwd", JStr cwd)]) (startedAt times) (catalog db))
    as (session & db1 & -> & Hid & _ & _ & Hsn & _ & _ & Htable & Hrow).
  cbv zeta in *. fold sessionId in Hid, Hsn, Hrow |- *. rewrite Hid.
  assert (Hlen : length (snapshots session) = stored) by by rewrite Hsn.
  set (mgr1 := {| maxDepth := 6 |}).
  destruct (Excavator.excavate 6 8 (payloadOf data) 0)
    as [shallowResult walk].
  rewrite (addSnapshot_saved sessionId shallowResult (Some "shallow")
             (shallowAt times) mgr1 session db1 (lookup_insert_eq _ _ _)
             eq_refl Hid Hrow);
    last first.
  { cbn [newSnapshot snap_id]. by rewrite Hlen, Htable. }
  cbn [maxDepth maxSnapshots sessions mgr1].
  set (snap1 := newSnapshot sessionId session shallowResult _ _).
  set (session1 := _detectDrift _).
  set (db2 := {| sessionsTable := sessionsTable db1 |}).
  set (mgr2 := {| maxDepth := 6 |}).
  assert (Hi1 : snap_id snap1 = sessionId +:+ ":" +:+ pretty stored).
  { subst snap1. cbn [newSnapshot snap_id]. by rewrite Hlen. }
  assert (Hsn1 : snapshots session1 = snapshots session ++ [snap1]).
  { subst session1. apply pushSnapshot_under. lia. }
  assert (Hlen1 : length (snapshots session1) = S stored).
  { rewrite Hsn1, length_app, Hlen. cbn. lia. }
  assert (Hid1 : session_id session1 = sessionId).
  { subst session1. by rewrite added_session_id. }
  destruct (Excavator.excavate 6 8 (payloadOf data) (Excavator.nextId walk))
    as [deepResult walk'].
  rewrite (addSnapshot_saved sessionId deepResult (Some "deep")
             (deepAt times) mgr2 session1 db2 (lookup_insert_eq _ _ _)
             eq_refl Hid1 Hrow);
    last first.
  { cbn [newSnapshot snap_id]. rewrite Hlen1. subst db2.
    cbn [snapshotsTable]. rewrite existsb_app, Htable, Hfree2.
    cbn [existsb orb snd]. rewrite Hi1, orb_false_r.
    apply session_id_neq. lia. }
  cbn [maxDepth maxSnapshots sessions mgr2].
  set (snap2 := newSnapshot sessionId session1 deepResult _ _).
  set (session2 := _detectDrift _).
  set (db3 := {| sessionsTable := sessionsTable db2 |}).
  set (mgr3 := {| maxDepth := 6 |}).
  assert (Hi2 : snap_id snap2 = sessionId +:+ ":" +:+ pretty (S stored)).
  { subst snap2. cbn [newSnapshot snap_id]. by rewrite Hlen1. }
  assert (Hsn2 : snapshots session2 = snapshots session1 ++ [snap2]).
  { subst session2. apply pushSnapshot_under. lia. }
  destruct (ScoreEngine.scoreSnapshot snap2
              (ScoreEngine.newEngine (Some 20), clock)) as [scores st].
  destruct (saveScores_saved (snap_id snap2) scores (scoredAt times)
              (catalogOf mgr3 db)) as (db4 & -> & Hcat4 & _).
  { unfold catalogOf. subst mgr3 db3.
    cbn [catalog persistence default from_option id snapshotsTable].
    rewrite existsb_app. cbn. by rewrite String.eqb_refl, orb_true_r. }
  unfold getSessionSummary. cbn [sessions mgr3]. rewrite lookup_insert_eq.
  eexists _, db4, snap1, snap2. split; [reflexivity|].
  cbn [report_session report_snapshots]. split_and!; [| |done..].
  - rewrite length_map, Hsn2, Hsn1, !length_app, Hlen. cbn. lia.
  - rewrite Hcat4. unfold catalogOf. subst mgr3 db3 db2.
    cbn [catalog persistence default from_option id snapshotsTable].
    by rewrite Htable, <- app_assoc.
Qed.

Lemma loadSessionSnapshots_length (sessionId : string) (db : Persistence) :
  length (loadSessionSnapshots sessionId db)
  = length (storedSnapshots sessionId db).
Proof.
  apply Permutation_length, loadSessionSnapshots_sorted.
Qed.

Lemma afterRuns_fresh (sessionId : string) (db : Database) :
  freshCatalog sessionId db → afterRuns sessionId 0 db.
Proof.
  unfold freshCatalog, afterRuns. rewrite loadSessionSnapshots_length.
  unfold storedSnapshots.
  induction (snapshotsTable (catalog db)) as [|row rows IH]; intros Hfresh.
  - by split.
  - destruct (Hfresh row) as [Hother Hids]; [by left|].
    destruct IH as [Hlen Hfree].
    { intros row' Hrow'. apply Hfresh. by right. }
    cbn [List.filter existsb].
    rewrite (proj2 (String.eqb_neq _ _) Hother). split; [done|].
    intros k Hk. rewrite Hfree by done.
    by rewrite (proj2 (String.eqb_neq _ _) (Hids k)).
Qed.

(** One more run on a catalog that at most four runs have filled. *)
Lemma afterRuns_next (jsonFile baseName cwd : string) (inv : Invocation)
  (db : Database) (n : nat) :
  let sessionId := "json:" +:+ baseName in
  afterRuns sessionId n db → (n < 5)%nat →
  let out := runMain jsonFile baseName cwd inv db in
  (∃ report,
     out.1 = Returned report ∧
     length (report_snapshots (report_session report)) = (2 * n + 2)%nat) ∧
  afterRuns sessionId (S n) out.2.
Proof.
  intros sessionId [Hlen Hfree] Hn out. subst out. unfold runMain.
  assert (Hcap : (2 * n + 2 ≤ 10)%nat) by lia.
  pose proof (Hfree (2 * n)%nat (Nat.le_refl _)) as Hfree1.
  pose proof (Hfree (S (2 * n)) (Nat.le_succ_diag_r _)) as Hfree2.
  destruct (main_returns jsonFile baseName cwd (inv_data inv) (inv_times inv)
              (inv_clock inv) db (2 * n)%nat Hlen Hcap Hfree1 Hfree2)
    as (report & db' & snap1 & snap2 & -> & Hreport & Htable & Hi1 & Hi2).
  fold sessionId in Htable, Hi1, Hi2. cbn [fst snd].
  split; [by exists report|]. split.
  - rewrite loadSessionSnapshots_length in Hlen |- *.
    unfold storedSnapshots in *. rewrite Htable, List.filter_app, map_app.
    cbn [List.filter fst]. rewrite String.eqb_refl, length_app, Hlen.
    cbn. lia.
  - intros k Hk. rewrite Htable, existsb_app, Hfree by lia.
    cbn [existsb orb snd]. rewrite Hi1, Hi2.
    rewrite !session_id_neq by lia. done.
Qed.

Lemma afterRuns_catalogAfter (jsonFile baseName cwd : string)
  (earlier : list Invocation) (db : Database) (n : nat) :
  afterRuns ("json:" +:+ baseName) n db →
  (n + length earlier ≤ 5)%nat →
  afterRuns ("json:" +:+ baseName) (n + length earlier)
    (catalogAfter jsonFile baseName cwd earlier db).
Proof.
  revert db n. induction earlier as [|inv earlier IH]; intros db n Hdb Hn.
  - by rewrite Nat.add_0_r.
  - cbn [length] in *. unfold catalogAfter. cbn [fold_left].
    fold (catalogAfter jsonFile baseName cwd earlier
            (runMain jsonFile baseName cwd inv db).2).
    replace (n + S (length earlier))%nat with (S n + length earlier)%nat
      by lia.
    apply IH; [|lia].
    by apply (afterRuns_next jsonFile baseName cwd inv db n Hdb); lia.
Qed.

(** X21.  The command fails on a session whose stored log has reached the
    cap of its manager: when the catalog holds ten snapshots or more of the
    session [json:<file name>], [main] ends with the error
    [UNIQUE constraint failed: snapshots.snapshot_id] of an [addSnapshot],
    writes no report and stores no score.  On a catalog that holds no
    snapshot of the session and no id of its form, each of the first five
    runs on a file name returns a report, whatever the file holds at that run,
    and stores two snapshots: the report of the n-th run lists 2n snapshots.
    The sixth run is the first to fail. *)
Theorem main_full_log (jsonFile baseName cwd : string) :
  (∀ (data : JValue) (times : Times) (clock : ScoreEngine.Clock)
     (db : Database),
     (10 ≤ length (storedSnapshots ("json:" +:+ baseName) (catalog db)))%nat →
     let out := main jsonFile baseName cwd data times clock db in
     out.1 = Thrown "UNIQUE constraint failed: snapshots.snapshot_id" ∧
     scoresTable out.2 = scoresTable db) ∧
  (∀ (earlier : list Invocation) (next : Invocation) (db : Database),
     freshCatalog ("json:" +:+ baseName) db →
     let before := catalogAfter jsonFile baseName cwd earlier db in
     let out := runMain jsonFile baseName cwd next before in
     ((length earlier < 5)%nat →
      length (storedSnapshots ("json:" +:+ baseName) (catalog before))
      = (2 * length earlier)%nat ∧
      ∃ report,
        out.1 = Returned report ∧
        length (report_snapshots (report_session report))
        = (2 * length earlier + 2)%nat) ∧
     (length earlier = 5%nat →
      length (storedSnapshots ("json:" +:+ baseName) (catalog before))
      = 10%nat ∧
      out.1 = Thrown "UNIQUE constraint failed: snapshots.snapshot_id")).
Proof.
  split.
  - intros data times clock db Hfull.
    apply main_fails_when_full. by rewrite loadSessionSnapshots_length.
  - intros earlier next db Hfresh before out.
    pose proof (afterRuns_fresh _ _ Hfresh) as Hstart.
    split.
    + intros Hfew.
      pose proof (afterRuns_catalogAfter jsonFile baseName cwd earlier db 0
                    Hstart ltac:(cbn; lia)) as Hbefore.
      cbn [Nat.add] in Hbefore. fold before in Hbefore.
      split.
      * rewrite <- loadSessionSnapshots_length. apply Hbefore.
      * by apply (afterRuns_next jsonFile baseName cwd next before
                    (length earlier) Hbefore).
    + intros Hfive.
      pose proof (afterRuns_catalogAfter jsonFile baseName cwd earlier db 0
                    Hstart ltac:(cbn; lia)) as [Hlen _].
      cbn [Nat.add] in Hlen. fold before in Hlen. rewrite Hfive in Hlen.
      split; [by rewrite <- loadSessionSnapshots_length|].
      subst out. unfold runMain. apply main_fails_when_full.
      rewrite Hlen. cbn. lia.
Qed.

Lemma main_full_log_witness :
  let inv :=
    {| inv_data := JArr [JNum 1];
       inv_times := {| startedAt := "t0"; shallowAt := "t1"; deepAt := "t2";
                       scoredAt := "t3" |};
       inv_clock := ScoreEngine.tickingClock |} in
  let db4 := catalogAfter "in.json" "in.json" "/" [inv; inv; inv; inv]
               emptyDatabase in
  let db5 := catalogAfter "in.json" "in.json" "/" [inv; inv; inv; inv; inv]
               emptyDatabase in
  (∃ report,
     (runMain "in.json" "in.json" "/" inv db4).1 = Returned report ∧
     length (report_snapshots (report_session report)) = 10%nat) ∧
  (runMain "in.json" "in.json" "/" inv db5).1
  = Thrown "UNIQUE constraint failed: snapshots.snapshot_id".
Proof.
  cbv zeta.
  assert (Hfresh : freshCatalog ("json:" +:+ "in.json") emptyDatabase).
  { intros row Hrow. by apply elem_of_nil in Hrow. }
  split.
  - apply (proj2 (main_full_log "in.json" "in.json" "/")
             [_; _; _; _] _ emptyDatabase Hfresh).
    cbn. lia.
  - by apply (proj2 (main_full_log "in.json" "in.json" "/")
                [_; _; _; _; _] _ emptyDatabase Hfresh).
Defined.

End InspectExtras.
